(** * PostHog Person Bot Tagger: a shallow embedding of [src/index.js] and
    [src/bot-data.js], and the properties of its IP intelligence index,
    classification resolver, reconciliation planner and retry wrapper.

    Conventions of the embedding.
    - A JavaScript string is a [string]: a sequence of code units below 256.
    - A JavaScript number is an integer [Z]; [NaN] is [None] in [option Z].
      The integer model agrees with the double arithmetic of the source as
      long as every intermediate value is an integer below 2^53, which holds
      for every dotted quad and every prefix length between -20 and 32
      (see [rangeEnd] for prefix lengths above 32).
    - [undefined] and [null] are both [None] wherever the source only tests
      truthiness; values read back from the analytics platform, whose
      run-time type the source inspects, are [jsval]s. *)

From Stdlib Require Import ZArith QArith Qminmax Lia Bool Ascii.
From stdpp Require Import gmap strings list pretty sorting.

Local Open Scope Z_scope.
#[local] Set Warnings "-clear-no-such-hyp".

(** ** JavaScript primitives used by the program *)

Module Js.

(** Truthiness of a string: only the empty string is falsy. *)
Definition truthy (s : string) : bool :=
  match s with EmptyString => false | _ => true end.

(** Truthiness of a string-or-null value. *)
Definition truthyO (o : option string) : bool :=
  match o with Some s => truthy s | None => false end.

(** [a || b] on string-or-null values. *)
Definition orElse (a b : option string) : option string :=
  if truthyO a then a else b.

(** [a || 'literal'] where the right operand is a non-null string. *)
Definition orDefault (a : option string) (d : string) : string :=
  match a with
  | Some s => if truthy s then s else d
  | None => d
  end.

Definition code (c : ascii) : Z := Z.of_N (Ascii.N_of_ascii c).

(** WhiteSpace and LineTerminator code units below 256: TAB, LF, VT, FF, CR,
    SP and NBSP. *)
Definition isWhiteSpace (c : ascii) : bool :=
  let n := code c in
  ((9 <=? n) && (n <=? 13)) || (n =? 32) || (n =? 160).

Fixpoint trimStart (s : string) : string :=
  match s with
  | String c r => if isWhiteSpace c then trimStart r else s
  | EmptyString => EmptyString
  end.

Definition trimEnd (s : string) : string :=
  String.rev (trimStart (String.rev s)).

(** [s.trim()] *)
Definition trim (s : string) : string := trimEnd (trimStart s).

(** [s.startsWith(p)] *)
Fixpoint startsWith (p s : string) : bool :=
  match p, s with
  | EmptyString, _ => true
  | String a p', String b s' => if Ascii.eqb a b then startsWith p' s' else false
  | String _ _, EmptyString => false
  end.

(** [s.includes(sub)] *)
Fixpoint includes (sub s : string) : bool :=
  if startsWith sub s then true
  else match s with
       | String _ r => includes sub r
       | EmptyString => false
       end.

(** [s.split(sep)] for a one-character separator. *)
Fixpoint split (sep : ascii) (s : string) : list string :=
  match s with
  | EmptyString => [EmptyString]
  | String c r =>
      if Ascii.eqb c sep then EmptyString :: split sep r
      else match split sep r with
           | h :: t => String c h :: t
           | [] => [String c EmptyString]
           end
  end.

(** [s.replace(/[^a-zA-Z0-9]/g, '')] *)
Definition isAlnum (c : ascii) : bool :=
  let n := code c in
  ((48 <=? n) && (n <=? 57)) || ((65 <=? n) && (n <=? 90))
  || ((97 <=? n) && (n <=? 122)).

Fixpoint stripNonAlnum (s : string) : string :=
  match s with
  | String c r => if isAlnum c then String c (stripNonAlnum r) else stripNonAlnum r
  | EmptyString => EmptyString
  end.

(** The value of a digit in radix 10 or 16, [None] for any other character. *)
Definition digitVal (radix : Z) (c : ascii) : option Z :=
  let n := code c in
  let v := if (48 <=? n) && (n <=? 57) then Some (n - 48)
           else if (97 <=? n) && (n <=? 122) then Some (n - 87)
           else if (65 <=? n) && (n <=? 90) then Some (n - 55)
           else None in
  match v with
  | Some d => if d <? radix then Some d else None
  | None => None
  end.

(** The longest prefix of digits, read as a number; [acc] is [None] until
    the first digit has been read. *)
Fixpoint readDigits (radix : Z) (s : string) (acc : option Z) : option Z :=
  match s with
  | String c r =>
      match digitVal radix c with
      | Some d => readDigits radix r (Some (radix * default 0 acc + d))
      | None => acc
      end
  | EmptyString => acc
  end.

(** The sign step of [parseInt]: the sign and the rest of the string. *)
Definition readSign (s : string) : Z * string :=
  match s with
  | String c r =>
      if Ascii.eqb c "-"%char then (-1, r)
      else if Ascii.eqb c "+"%char then (1, r)
      else (1, s)
  | EmptyString => (1, s)
  end.

(** [parseInt(s, 10)]: leading white space is skipped, an optional sign is
    read, then the longest prefix of decimal digits; [None] is [NaN]. *)
Definition parseInt10 (s : string) : option Z :=
  let '(sign, body) := readSign (trimStart s) in
  (fun n => sign * n) <$> readDigits 10 body None.

(** [parseInt(s)] without a radix: as above, but a [0x] or [0X] prefix
    selects radix 16. *)
Definition parseInt (s : string) : option Z :=
  let '(sign, body) := readSign (trimStart s) in
  match body with
  | String "0"%char (String x r) =>
      if Ascii.eqb x "x"%char || Ascii.eqb x "X"%char
      then (fun n => sign * n) <$> readDigits 16 r None
      else (fun n => sign * n) <$> readDigits 10 body None
  | _ => (fun n => sign * n) <$> readDigits 10 body None
  end.

(** [ToUint32] and [ToInt32] on integers. *)
Definition toUint32 (z : Z) : Z := z mod 2 ^ 32.

Definition toInt32 (z : Z) : Z :=
  let u := z mod 2 ^ 32 in
  if u <? 2 ^ 31 then u else u - 2 ^ 32.

(** [x >>> 0] on a number that may be [NaN]. *)
Definition ushr0 (x : option Z) : Z :=
  match x with Some z => toUint32 z | None => 0 end.

(** [a << b]: the left operand as an Int32, the count modulo 32. *)
Definition shl (a b : Z) : Z := toInt32 (toInt32 a * 2 ^ (b mod 32)).

(** [a & b] *)
Definition band (a b : Z) : Z := Z.land (toInt32 a) (toInt32 b).

(** Values whose run-time type the program inspects. Numbers are integers. *)
Inductive jsval :=
| JUndefined
| JNull
| JBool (b : bool)
| JNum (z : Z)
| JStr (s : string).

#[global] Instance jsval_eq_dec : EqDecision jsval.
Proof. solve_decision. Defined.

(** [ToBoolean] *)
Definition toBoolean (v : jsval) : bool :=
  match v with
  | JUndefined | JNull => false
  | JBool b => b
  | JNum z => negb (z =? 0)
  | JStr s => truthy s
  end.

(** [a === b] *)
Definition strictEq (a b : jsval) : bool := bool_decide (a = b).

(** [v != null] *)
Definition notNullish (v : jsval) : bool :=
  match v with JUndefined | JNull => false | _ => true end.

(** [ToString] as used by template literals. *)
Definition toString (v : jsval) : string :=
  match v with
  | JUndefined => "undefined"
  | JNull => "null"
  | JBool true => "true"
  | JBool false => "false"
  | JNum z => pretty z
  | JStr s => s
  end.

(** A string-or-null value as a [jsval]. *)
Definition ofOpt (o : option string) : jsval :=
  match o with Some s => JStr s | None => JNull end.

End Js.

Import Js.

(** ** The IP intelligence index ([src/bot-data.js]) *)

(** The [type] and [rating] arguments of [addEntry]: every loader passes
    ['bot'] or ['datacenter'], and ['good'], ['bad'] or ['neutral']. *)
Inductive Kind := KBot | KDatacenter.
Inductive Rating := RGood | RBad | RNeutral.

#[global] Instance Kind_eq_dec : EqDecision Kind.
Proof. solve_decision. Defined.
#[global] Instance Rating_eq_dec : EqDecision Rating.
Proof. solve_decision. Defined.

(** The objects stored in the index: [newData] of [addEntry], with the
    [datacenter] property that [merge] may add. *)
Record Entry := mkEntry {
  range : string;
  type : Kind;
  name : string;
  category : string;
  rating : Rating;
  source : string;
  datacenter : option string
}.

#[global] Instance Entry_eq_dec : EqDecision Entry.
Proof. solve_decision. Defined.

(** An element of [sortedRanges]. *)
Record RangeRec := mkRange {
  start : Z;
  end_ : Z;
  data : Entry
}.

(** The two module-level containers: the [singleIPs] map and the
    [sortedRanges] array. *)
Record BotData := mkBotData {
  singleIPs : gmap string Entry;
  sortedRanges : list RangeRec
}.

Definition emptyBotData : BotData := mkBotData ∅ [].

(** [ipToLong]: a value that is not a non-empty string, or has not four
    dot-separated parts, or has a part without leading digits, gives 0. *)
Definition ipToLong (ip : jsval) : Z :=
  match ip with
  | JStr s =>
      if negb (truthy s) then 0
      else match split "." s with
           | [p0; p1; p2; p3] =>
               ushr0 (a ← parseInt10 p0; b ← parseInt10 p1;
                      c ← parseInt10 p2; d ← parseInt10 p3;
                      Some (a * 16777216 + b * 65536 + c * 256 + d))
           | _ => 0
           end
  | _ => 0
  end.

Definition isGeneric (n : string) : bool :=
  negb (truthy n) || String.eqb n "Unknown" || String.eqb n "Uncategorized".

Definition isDC (t : Kind) : bool := bool_decide (t = KDatacenter).

(** The [merge] closure of [addEntry]. [merged] starts as a copy of
    [existing]; the two [if] statements of the source follow in order. *)
Definition merge (existing : option Entry) (incoming : Entry) : Entry :=
  match existing with
  | None => incoming
  | Some existing =>
      let merged := existing in
      let merged :=
        if bool_decide (type incoming = KBot) && negb (isGeneric (name incoming)) then
          if isDC (type merged) || isGeneric (name merged) then
            {| range := range merged;
               type := KBot;
               name := name incoming;
               category := category incoming;
               rating := rating incoming;
               source := source merged +:+ " + " +:+ source incoming;
               datacenter := datacenter merged |}
          else merged
        else merged in
      if bool_decide (type incoming = KDatacenter) && bool_decide (type merged = KBot) then
        {| range := range merged;
           type := type merged;
           name := name merged;
           category := category merged;
           rating := rating merged;
           source := source merged +:+ " (DC: " +:+ source incoming +:+ ")";
           datacenter := Some (name incoming) |}
      else if bool_decide (type incoming = KDatacenter)
              && bool_decide (type merged = KDatacenter) then
        if isGeneric (name merged) && negb (isGeneric (name incoming)) then
          {| range := range merged;
             type := type merged;
             name := name incoming;
             category := category merged;
             rating := rating merged;
             source := source merged;
             datacenter := datacenter merged |}
        else merged
      else merged
  end.

(** [(ipToLong(ip) & (0xFFFFFFFF << (32 - bitmask))) >>> 0] *)
Definition rangeStart (ipLong bitmask : Z) : Z :=
  toUint32 (band ipLong (shl 4294967295 (32 - bitmask))).

(** [(start + (Math.pow(2, 32 - bitmask) - 1)) >>> 0]. For a prefix length
    above 32 the power is a fraction, the sum lies between [start - 1] and
    [start], and [>>>] truncates it toward zero (exact up to 85). *)
Definition rangeEnd (start bitmask : Z) : Z :=
  if bitmask <=? 32 then toUint32 (start + (2 ^ (32 - bitmask) - 1))
  else if start =? 0 then 0 else start - 1.

(** [sortedRanges.findIndex(r => r.start === start && r.end === end)] *)
Fixpoint findIndex (s e : Z) (rs : list RangeRec) : option nat :=
  match rs with
  | [] => None
  | r :: rest =>
      if (start r =? s) && (end_ r =? e) then Some O
      else S <$> findIndex s e rest
  end.

(** [addEntry(range, type, name, category, rating, source)], on the
    containers it mutates. [name], [category] and [rating] may be missing. *)
Definition addEntry (rangeArg : string) (ty : Kind) (nm cat : option string)
    (rt : option Rating) (src : string) (bd : BotData) : BotData :=
  if negb (truthy rangeArg) then bd
  else
    let cleanRange := trim rangeArg in
    let newData :=
      {| range := cleanRange;
         type := ty;
         name := orDefault nm "Unknown";
         category := orDefault cat "Uncategorized";
         rating := default RNeutral rt;
         source := src;
         datacenter := None |} in
    if includes "/" cleanRange then
      match split "/" cleanRange with
      | ip :: mask :: _ =>
          match parseInt10 mask with
          | None => bd
          | Some bitmask =>
              let s := rangeStart (ipToLong (JStr ip)) bitmask in
              let e := rangeEnd s bitmask in
              match findIndex s e (sortedRanges bd) with
              | Some existingIdx =>
                  mkBotData (singleIPs bd)
                    (alter (fun r => mkRange (start r) (end_ r)
                                       (merge (Some (data r)) newData))
                       existingIdx (sortedRanges bd))
              | None =>
                  mkBotData (singleIPs bd)
                    (sortedRanges bd ++ [mkRange s e newData])
              end
          end
      | _ => bd
      end
    else
      mkBotData
        (<[cleanRange := merge (singleIPs bd !! cleanRange) newData]> (singleIPs bd))
        (sortedRanges bd).

(** The binary search loop of [findInRange]. [fuel] bounds the number of
    iterations; [high - low + 1] decreases at each one. *)
Fixpoint search (fuel : nat) (rs : list RangeRec) (target low high : Z)
    : option Entry :=
  match fuel with
  | O => None
  | S fuel' =>
      if low <=? high then
        let mid := (low + high) / 2 in
        match rs !! Z.to_nat mid with
        | Some r =>
            if (start r <=? target) && (target <=? end_ r) then Some (data r)
            else if target <? start r then search fuel' rs target low (mid - 1)
            else search fuel' rs target (mid + 1) high
        | None => None
        end
      else None
  end.

(** [findInRange(ip)] *)
Definition findInRange (bd : BotData) (ip : jsval) : option Entry :=
  let target := ipToLong ip in
  if target =? 0 then None
  else search (length (sortedRanges bd)) (sortedRanges bd) target
         0 (Z.of_nat (length (sortedRanges bd)) - 1).

(** [sortedRanges.sort((a, b) => a.start - b.start)]: a stable sort by
    [start]. *)
Fixpoint insertRange (r : RangeRec) (l : list RangeRec) : list RangeRec :=
  match l with
  | [] => [r]
  | x :: t => if start r <=? start x then r :: l else x :: insertRange r t
  end.

Definition sortRanges (l : list RangeRec) : list RangeRec :=
  foldr insertRange [] l.

(** One [addEntry] call of a loader. *)
Record FeedItem := mkItem {
  f_range : string;
  f_type : Kind;
  f_name : option string;
  f_category : option string;
  f_rating : option Rating;
  f_source : string
}.

#[global] Instance FeedItem_eq_dec : EqDecision FeedItem.
Proof. solve_decision. Defined.

Definition addItem (bd : BotData) (it : FeedItem) : BotData :=
  addEntry (f_range it) (f_type it) (f_name it) (f_category it)
    (f_rating it) (f_source it) bd.

(** The loaders' calls of [addEntry], in the order they happen. *)
Definition ingest (feed : list FeedItem) (bd : BotData) : BotData :=
  foldl addItem bd feed.

(** [loadAllBotData]: ingest every feed, then sort the ranges. *)
Definition loadAllBotData (feed : list FeedItem) : BotData :=
  let bd := ingest feed emptyBotData in
  mkBotData (singleIPs bd) (sortRanges (sortedRanges bd)).

(** ** The classification resolver ([checkBot] of [src/index.js]) *)

(** The two operations of the [isbot] package the resolver relies on. *)
Class UserAgentMatcher := {
  isbot : string → bool;
  isbotMatch : string → option string
}.

(** The [result] object of [checkBot]. [undefined] and [null] are [None]. *)
Record Classification := mkClassification {
  isBot : bool;
  isGoodBot : option bool;
  botName : option string;
  botType : option string;
  botSource : option string;
  isDatacenter : bool;
  datacenterName : option string
}.

#[global] Instance Classification_eq_dec : EqDecision Classification.
Proof. solve_decision. Defined.

Definition initialResult : Classification :=
  mkClassification false None None None None false None.

(** The match used by [checkBot]: the exact match, the range match, or the
    object spread that combines the two. *)
Definition combineMatches (singleMatch rangeMatch : option Entry) : option Entry :=
  match rangeMatch with
  | Some rm =>
      match singleMatch with
      | None => Some rm
      | Some sm =>
          Some {| range := range sm;
                  type := type sm;
                  category := category sm;
                  rating := rating sm;
                  datacenter :=
                    orElse (datacenter sm)
                      (orElse (datacenter rm)
                         (if bool_decide (type rm = KDatacenter)
                          then Some (name rm) else None));
                  name :=
                    if truthy (name sm) && negb (String.eqb (name sm) "Unknown")
                    then name sm
                    else if negb (String.eqb (name rm) "Unknown")
                         then name rm else "Unknown";
                  source := source sm +:+ " + " +:+ source rm |}
      end
  | None => singleMatch
  end.

Definition untaggedNames : list string :=
  ["Firehol Blocklist"; "Avastel Blocklist"; "Unknown"; "Uncategorized"].

(** [if (untaggedNames.includes(n)) n = null] *)
Definition scrub (n : option string) : option string :=
  match n with
  | Some s => if bool_decide (s ∈ untaggedNames) then None else Some s
  | None => None
  end.

(** The body of [if (match) { ... }]. *)
Definition applyMatch (m : Entry) (result : Classification) : Classification :=
  let result :=
    if bool_decide (type m = KBot) then
      {| isBot := true;
         isGoodBot :=
           match rating m with
           | RGood => Some true
           | RBad => Some false
           | RNeutral => isGoodBot result
           end;
         botName :=
           if truthy (name m) && negb (String.eqb (name m) "Unknown")
           then Some (name m) else None;
         botType :=
           Some (if truthy (category m)
                    && negb (String.eqb (category m) "Uncategorized")
                 then category m else "Unknown");
         botSource := Some (if truthy (source m) then source m else "IP List");
         isDatacenter := isDatacenter result;
         datacenterName := datacenterName result |}
    else result in
  let result :=
    if bool_decide (type m = KDatacenter) || truthyO (datacenter m) then
      {| isBot := isBot result;
         isGoodBot := isGoodBot result;
         botName := botName result;
         botType := botType result;
         botSource := botSource result;
         isDatacenter := true;
         datacenterName := orElse (datacenter m) (Some (name m)) |}
    else result in
  {| isBot := isBot result;
     isGoodBot := isGoodBot result;
     botName := scrub (botName result);
     botType := botType result;
     botSource := botSource result;
     isDatacenter := isDatacenter result;
     datacenterName := scrub (datacenterName result) |}.

(** The table of label overrides applied to a user-agent match. *)
Definition normalizeLabel (userAgent label : string) : string :=
  let m := trim label in
  let m := if includes "LinkCheck by Siteimprove.com" userAgent
           then "LinkCheck by Siteimprove.com" else m in
  let m := if includes "Sogou web spider" userAgent then "Sogou web spider" else m in
  let m := if includes "Archive-It" userAgent then "Archive-It" else m in
  let m := if startsWith "PTST" m then "PTST" else m in
  let m := if String.eqb m "Url" && includes "LarkUrl" userAgent then "LarkUrl" else m in
  m.

(** The body of [if (!result.isBot && userAgent && isbot(userAgent))]. *)
Definition applyUserAgent `{UserAgentMatcher} (userAgent : string)
    (result : Classification) : Classification :=
  let name' :=
    match isbotMatch userAgent with
    | Some m =>
        if truthy m && (2 <=? Z.of_nat (String.length (stripNonAlnum m))) then
          let m := normalizeLabel userAgent m in
          if String.eqb m "GoodBot" then None else Some m
        else botName result
    | None => botName result
    end in
  {| isBot := true;
     isGoodBot := Some true;
     botName := name';
     botType := Some "Crawler";
     botSource := Some "isbot (User Agent)";
     isDatacenter := isDatacenter result;
     datacenterName := datacenterName result |}.

(** The IP half of [checkBot]: the combined match for [ip], if any. *)
Definition ipMatch (botData : BotData) (ip : jsval) : option Entry :=
  if toBoolean ip then
    let singleMatch :=
      match ip with JStr s => singleIPs botData !! s | _ => None end in
    let rangeMatch := findInRange botData ip in
    combineMatches singleMatch rangeMatch
  else None.

(** [checkBot(ip, userAgent)]; [userAgent] is a string or null. *)
Definition checkBot `{UserAgentMatcher} (botData : BotData) (ip : jsval)
    (userAgent : option string) : Classification :=
  let result := initialResult in
  let result :=
    match ipMatch botData ip with
    | Some m => applyMatch m result
    | None => result
    end in
  match userAgent with
  | Some ua =>
      if negb (isBot result) && truthy ua && isbot ua
      then applyUserAgent ua result
      else result
  | None => result
  end.

(** ** The reconciliation planner (the loop body of [processPersons]) *)

(** One row of the HogQL query. The person properties come back as whatever
    the platform stored; the user agent is a string or null. *)
Record Row := mkRow {
  personId : string;
  distinctId : string;
  isBotProp : jsval;
  processedIp : jsval;
  userAgent : option string;
  existingInitialIp : jsval;
  existingLatestIp : jsval;
  existingIsGoodBot : jsval;
  existingDatacenter : jsval;
  existingLatestNonProxyIp : jsval
}.

(** An element of [eventBatch]. *)
Record Event := mkEvent {
  event : string;
  set_props : list (string * jsval);
  anon_distinct_id : option string;
  distinct_id : string
}.

(** The classification of a row, with the re-check on the initial address.
    When the initial analysis is a bot, [analysis] and [initialAnalysis] are
    the same object, so the second test is false and nothing is copied. *)
Definition analyse `{UserAgentMatcher} (botData : BotData) (row : Row)
    : Classification :=
  let analysis := checkBot botData (processedIp row) (userAgent row) in
  if negb (isBot analysis) && toBoolean (existingInitialIp row)
     && negb (strictEq (existingInitialIp row) (processedIp row)) then
    let initialAnalysis := checkBot botData (existingInitialIp row) (userAgent row) in
    let analysis := if isBot initialAnalysis then initialAnalysis else analysis in
    if isDatacenter initialAnalysis && negb (isDatacenter analysis) then
      {| isBot := isBot analysis;
         isGoodBot := isGoodBot analysis;
         botName := botName analysis;
         botType := botType analysis;
         botSource := botSource analysis;
         isDatacenter := true;
         datacenterName := datacenterName initialAnalysis |}
    else analysis
  else analysis.

(** [v === true || v === 1 || v === 'true' || v === '1'] *)
Definition trueLike (v : jsval) : bool :=
  strictEq v (JBool true) || strictEq v (JNum 1)
  || strictEq v (JStr "true") || strictEq v (JStr "1").

Definition isBotAlready (row : Row) : bool := trueLike (isBotProp row).
Definition isGoodAlready (row : Row) : bool := trueLike (existingIsGoodBot row).

(** The [props] object literal. *)
Definition baseProps (analysis : Classification) : list (string * jsval) :=
  [ ("is_bot", JBool (isBot analysis));
    ("is_good_bot",
      if isBot analysis then JBool (default false (isGoodBot analysis)) else JNull);
    ("bot_name", ofOpt (orElse (botName analysis) None));
    ("bot_type", ofOpt (orElse (botType analysis) None));
    ("bot_identification_source", ofOpt (orElse (botSource analysis) None));
    ("datacenter", ofOpt (orElse (datacenterName analysis) None)) ].

(** The properties added under [if (processedIp && processedIp !==
    existingLatestIp)]. *)
Definition addressProps (row : Row) : list (string * jsval) :=
  if toBoolean (processedIp row)
     && negb (strictEq (processedIp row) (existingLatestIp row))
  then (if negb (toBoolean (existingInitialIp row))
        then [("$initial_ip", processedIp row)] else [])
       ++ [("$latest_ip", processedIp row)]
  else [].

(** The property added for a row that is neither bot nor datacenter. *)
Definition nonProxyProps (analysis : Classification) (row : Row)
    : list (string * jsval) :=
  if negb (isBot analysis) && negb (isDatacenter analysis)
     && toBoolean (processedIp row)
  then if toBoolean (existingLatestNonProxyIp row)
          && strictEq (existingLatestNonProxyIp row) (processedIp row)
       then []
       else [("$latest_nonproxy_ip", processedIp row)]
  else [].

(** The [props] object when the filter runs, as its entries in insertion
    order. *)
Definition props (analysis : Classification) (row : Row) : list (string * jsval) :=
  baseProps analysis ++ addressProps row ++ nonProxyProps analysis row.

(** The predicate of the [filter] over [Object.entries(props)]. *)
Definition keepProp (row : Row) (kv : string * jsval) : bool :=
  let '(k, v) := kv in
  if String.eqb k "is_bot" && strictEq v (JBool (isBotAlready row)) then false
  else if String.eqb k "is_good_bot" && strictEq v (JBool (isGoodAlready row)) then false
  else if String.eqb k "datacenter" && strictEq v (existingDatacenter row) then false
  else if String.eqb k "$latest_ip" && strictEq v (existingLatestIp row) then false
  else if String.eqb k "$initial_ip" && strictEq v (existingInitialIp row) then false
  else if String.eqb k "$latest_nonproxy_ip"
          && strictEq v (existingLatestNonProxyIp row) then false
  else notNullish v.

Definition filteredProps (analysis : Classification) (row : Row)
    : list (string * jsval) :=
  filter (fun kv => keepProp row kv = true) (props analysis row).

Definition effectiveDistinctId (analysis : Classification) (row : Row) : string :=
  if isBot analysis then
    if default false (isGoodBot analysis) && truthyO (botName analysis)
    then default "" (botName analysis)
    else if bool_decide (isGoodBot analysis = Some false)
    then orDefault (botName analysis) "Unknown Bad Bot" +:+ " ("
         +:+ (if toBoolean (processedIp row) then toString (processedIp row)
              else "No IP") +:+ ")"
    else distinctId row
  else distinctId row.

Definition eventName (analysis : Classification) (row : Row) : string :=
  if isBot analysis
     && negb (String.eqb (effectiveDistinctId analysis row) (distinctId row))
  then "$identify" else "$set".

(** The event pushed onto [eventBatch] for a row, if any. *)
Definition plan (analysis : Classification) (row : Row) : option Event :=
  let filtered := filteredProps analysis row in
  let hasUpdates := negb (bool_decide (filtered = [])) in
  let isIdentify := String.eqb (eventName analysis row) "$identify" in
  if hasUpdates || isIdentify then
    Some {| event := eventName analysis row;
            set_props := filtered;
            anon_distinct_id := if isIdentify then Some (distinctId row) else None;
            distinct_id := effectiveDistinctId analysis row |}
  else None.

(** The loop body for one row: classify, then plan. *)
Definition processRow `{UserAgentMatcher} (botData : BotData) (row : Row)
    : option Event :=
  plan (analyse botData row) row.

(** ** The retry wrapper ([fetchWithRetry] of [src/index.js]) *)

(** [error.response]: the HTTP status and the [retry-after] header. *)
Record Response := mkResponse {
  status : Z;
  retryAfterHeader : option string
}.

(** What a call of [fn] does: resolve with a value, or reject with an error
    that may carry a response. *)
Inductive Outcome (A : Type) :=
| Resolved (a : A)
| Rejected (response : option Response).
Arguments Resolved {A} a.
Arguments Rejected {A} response.

(** How [fetchWithRetry] ends: it returns the value, rethrows the error of
    [fn], or throws its own "Max retries exceeded". *)
Inductive Completion (A : Type) :=
| Returned (a : A)
| Rethrown (response : option Response)
| MaxRetriesExceeded.
Arguments Returned {A} a.
Arguments Rethrown {A} response.
Arguments MaxRetriesExceeded {A}.

(** The effects of the wrapper: the [stats.retries] counter, the [sleep]
    calls in order (milliseconds) and the number of calls of [fn] so far. *)
Record Effects := mkEffects {
  statsRetries : Z;
  sleeps : list Q;
  calls : nat
}.

Definition MAX_RETRIES : nat := 10.

Definition nextBackoff (backoff : Q) : Q := Qmin (backoff * (3 # 2)) 60000.

(** The wait of the 429 branch: the header in seconds, or the backoff. *)
Definition waitTime429 (r : Response) (backoff : Q) : Q :=
  let retryAfter :=
    if truthyO (retryAfterHeader r)
    then (fun n => n * 1000) <$> parseInt (default "" (retryAfterHeader r))
    else Some 0 in
  match retryAfter with
  | Some ms => if 0 <? ms then inject_Z ms else backoff
  | None => backoff
  end.

(** The [while (retries < MAX_RETRIES)] loop. [budget] is
    [MAX_RETRIES - retries]; [fn k] is the outcome of the call of [fn] made
    after [k] earlier calls. *)
Fixpoint retryLoop {A} (budget : nat) (fn : nat → Outcome A) (backoff : Q)
    (eff : Effects) : Completion A * Effects :=
  match budget with
  | O => (MaxRetriesExceeded, eff)
  | S budget' =>
      let called := mkEffects (statsRetries eff) (sleeps eff) (S (calls eff)) in
      match fn (calls eff) with
      | Resolved a => (Returned a, called)
      | Rejected (Some r) =>
          if status r =? 429 then
            retryLoop budget' fn (nextBackoff backoff)
              (mkEffects (statsRetries eff + 1)
                 (sleeps eff ++ [waitTime429 r backoff]) (S (calls eff)))
          else if 500 <=? status r then
            retryLoop budget' fn (nextBackoff backoff)
              (mkEffects (statsRetries eff + 1)
                 (sleeps eff ++ [backoff]) (S (calls eff)))
          else (Rethrown (Some r), called)
      | Rejected None => (Rethrown None, called)
      end
  end.

(** [fetchWithRetry(fn, context)] *)
Definition fetchWithRetry {A} (fn : nat → Outcome A) (eff : Effects)
    : Completion A * Effects :=
  retryLoop MAX_RETRIES fn 2000 eff.

(** ** Notions used in the statements *)

(** A rejection the wrapper retries: status 429 or at least 500. *)
Definition retryable {A} (o : Outcome A) : bool :=
  match o with
  | Rejected (Some r) => (status r =? 429) || (500 <=? status r)
  | _ => false
  end.

(** A response the wrapper rethrows at once: none, or a status below 500
    other than 429. *)
Definition terminal (response : option Response) : bool :=
  match response with
  | Some r => negb (status r =? 429) && (status r <? 500)
  | None => true
  end.

(** A transport that is rate limited three times, then answers. *)
Definition threeThenOk (k : nat) : Outcome string :=
  if (k <? 3)%nat then Rejected (Some (mkResponse 429 None)) else Resolved "ok".

Definition freshEffects : Effects := mkEffects 0 [] 0.


(** The value of property [k] in an object given by its entries. *)
Fixpoint getProp (k : string) (obj : list (string * jsval)) : option jsval :=
  match obj with
  | [] => None
  | (k', v) :: rest => if String.eqb k' k then Some v else getProp k rest
  end.

(** A person property after the platform has applied the [$set] of a patch:
    the patch's value when it has one, the old value otherwise. *)
Definition stored (patch : list (string * jsval)) (k : string) (old : jsval)
    : jsval :=
  default old (getProp k patch).

(** The row the query returns for the same person and the same latest event
    once the platform has applied the [$set] of [patch]: each person
    property the query selects is read from the property of that name. *)
Definition applySet (patch : list (string * jsval)) (row : Row) : Row :=
  {| personId := personId row;
     distinctId := distinctId row;
     isBotProp := stored patch "is_bot" (isBotProp row);
     processedIp := processedIp row;
     userAgent := userAgent row;
     existingInitialIp := stored patch "$initial_ip" (existingInitialIp row);
     existingLatestIp := stored patch "$latest_ip" (existingLatestIp row);
     existingIsGoodBot := stored patch "is_good_bot" (existingIsGoodBot row);
     existingDatacenter := stored patch "datacenter" (existingDatacenter row);
     existingLatestNonProxyIp :=
       stored patch "$latest_nonproxy_ip" (existingLatestNonProxyIp row) |}.

(** The properties the planner never compares with stored state. *)
Definition uncomparedProps : list string :=
  ["bot_name"; "bot_type"; "bot_identification_source"].

(** The classification [checkBot] derives from the IP index alone. *)
Definition ipClassification `{UserAgentMatcher} (botData : BotData) (ip : jsval)
    : Classification :=
  checkBot botData ip None.

(** The outcome of the minimal-signal test and the override table on the
    label of a user-agent match: the name [checkBot] reports, if any. *)
Definition labelName (userAgent : string) (label : option string) : option string :=
  match label with
  | Some m =>
      if truthy m && (2 <=? Z.of_nat (String.length (stripNonAlnum m))) then
        if String.eqb (normalizeLabel userAgent m) "GoodBot" then None
        else Some (normalizeLabel userAgent m)
      else None
  | None => None
  end.

(** A small matcher: user agents that contain "bot" match, and the label is
    the first of a few known names the user agent contains. *)
Definition sampleMatcher : UserAgentMatcher :=
  {| isbot := fun ua => includes "bot" ua || includes "Bot" ua;
     isbotMatch := fun ua =>
       if includes "Googlebot" ua then Some "Googlebot"
       else if includes "GoodBot" ua then Some "GoodBot"
       else if includes "bot" ua then Some "bot"
       else None |}.

(** A small index: a datacenter range, a bad bot on an exact address with
    no category, and a crawler range. *)
Definition sampleFeed : list FeedItem :=
  [ mkItem "10.0.0.0/8" KDatacenter (Some "AWS") (Some "Datacenter")
      (Some RNeutral) "Hexydec-Datacenters";
    mkItem "1.2.3.4" KBot (Some "Foo") None (Some RBad) "ShadowWhisperer";
    mkItem "66.249.64.0/19" KBot (Some "Googlebot") (Some "Search Engine")
      (Some RGood) "Official-Source" ].

Definition sampleIndex : BotData := loadAllBotData sampleFeed.

(** A person last seen on a datacenter address, first seen on the address
    of the bad bot. *)
Definition rowDatacenterThenBot : Row :=
  mkRow "p1" "abc-123" JNull (JStr "10.0.0.1") None (JStr "1.2.3.4")
    JNull JNull JNull JNull.

(** A person never tagged before, whose user agent is a crawler's. *)
Definition rowCrawler : Row :=
  mkRow "p2" "abc-456" JNull (JStr "9.9.9.9") (Some "Mozilla/5.0 Googlebot/2.1")
    JNull JNull JNull JNull JNull.

(** A person whose stored latest address is the current one and who has no
    stored initial address. *)
Definition rowNoInitial : Row :=
  mkRow "p3" "abc-789" JNull (JStr "9.9.9.9") None
    JNull (JStr "9.9.9.9") JNull JNull JNull.

(** A person whose latest event has no address. *)
Definition rowNoAddress : Row :=
  mkRow "p4" "abc-000" JNull JNull None
    JNull (JStr "9.9.9.9") JNull JNull JNull.

(** The bounds [addEntry] computes for a clean range string that contains a
    slash: [None] when the prefix length is [NaN] and the entry is dropped. *)
Definition cidrBounds (cleanRange : string) : option (Z * Z) :=
  match split "/" cleanRange with
  | ip :: mask :: _ =>
      bitmask ← parseInt10 mask;
      Some (rangeStart (ipToLong (JStr ip)) bitmask,
            rangeEnd (rangeStart (ipToLong (JStr ip)) bitmask) bitmask)
  | _ => None
  end.

(** The text of a dotted quad and of a CIDR block, in decimal. *)
Definition dotted (a b c d : Z) : string :=
  pretty a +:+ "." +:+ pretty b +:+ "." +:+ pretty c +:+ "." +:+ pretty d.

Definition cidr (a b c d n : Z) : string :=
  dotted a b c d +:+ "/" +:+ pretty n.

(** The 32-bit value of a dotted quad. *)
Definition ipValue (a b c d : Z) : Z := a * 2 ^ 24 + b * 2 ^ 16 + c * 2 ^ 8 + d.

Definition octet (z : Z) : Prop := 0 ≤ z ≤ 255.

(** The first and the last address of the block of prefix length [n] that
    holds the address [A]. *)
Definition networkStart (A n : Z) : Z := A - A mod 2 ^ (32 - n).
Definition networkEnd (A n : Z) : Z := networkStart A n + 2 ^ (32 - n) - 1.

(** The ranges of a list are non-empty and pairwise disjoint. *)
Fixpoint separated (rs : list RangeRec) : bool :=
  match rs with
  | [] => true
  | r :: rest =>
      (start r <=? end_ r)
      && forallb (fun x => (end_ r <? start x) || (end_ x <? start r)) rest
      && separated rest
  end.

(** [ip] is an address that the range string [R] stands for: the address
    itself for an exact address, and for a block any address whose value is
    not 0 and lies within the bounds of the block. *)
Definition covers (R : string) (ip : jsval) : bool :=
  if includes "/" (trim R) then
    match cidrBounds (trim R) with
    | Some (s, e) =>
        negb (ipToLong ip =? 0) && (s <=? ipToLong ip) && (ipToLong ip <=? e)
    | None => false
    end
  else truthy (trim R) && bool_decide (ip = JStr (trim R)).

(** The text of a number is made of decimal digits that read back as the
    number; it holds no dot, no slash and no white space. *)
Fixpoint noChar (c : ascii) (s : string) : bool :=
  match s with
  | String x r => negb (Ascii.eqb x c) && noChar c r
  | EmptyString => true
  end.

Definition startsClean (s : string) : bool :=
  match s with
  | String c _ => negb (isWhiteSpace c)
  | EmptyString => false
  end.

Definition decimalText (z : Z) : bool :=
  bool_decide (parseInt10 (pretty z) = Some z)
  && noChar "." (pretty z) && noChar "/" (pretty z)
  && startsClean (pretty z) && startsClean (String.rev (pretty z)).

(** A range list is ordered by [start]; consecutive ranges are apart. *)
Definition ordered (rs : list RangeRec) : Prop :=
  ∀ i j ri rj, rs !! i = Some ri → rs !! j = Some rj → (i < j)%nat →
               start ri ≤ start rj.

Definition apart (rs : list RangeRec) : Prop :=
  ∀ i j ri rj, rs !! i = Some ri → rs !! j = Some rj → (i < j)%nat →
               end_ ri < start rj.

(** Some range of the list has the bounds [s] and [e]. *)
Definition hasRange (s e : Z) (rs : list RangeRec) : Prop :=
  ∃ r, r ∈ rs ∧ start r = s ∧ end_ r = e.


(** The [newData] object of a call of [addEntry]. *)
Definition newData (rangeArg : string) (ty : Kind) (nm cat : option string)
    (rt : option Rating) (src : string) : Entry :=
  {| range := trim rangeArg;
     type := ty;
     name := orDefault nm "Unknown";
     category := orDefault cat "Uncategorized";
     rating := default RNeutral rt;
     source := src;
     datacenter := None |}.

(** The in-place update of [addEntry] on the range at [existingIdx]. *)
Definition mergeInto (incoming : Entry) (r : RangeRec) : RangeRec :=
  mkRange (start r) (end_ r) (merge (Some (data r)) incoming).

Definition byStart (x y : RangeRec) : Prop := start x ≤ start y.

(** Transports that always answer 503, and that answer 404. *)
Definition alwaysUnavailable (k : nat) : Outcome string :=
  Rejected (Some (mkResponse 503 None)).

Definition notFound (k : nat) : Outcome string :=
  Rejected (Some (mkResponse 404 None)).

(** A datacenter entry and a crawler entry for the same block. *)
Definition dcSample : FeedItem :=
  mkItem "10.0.0.0/8" KDatacenter (Some "AWS") (Some "Datacenter")
    (Some RNeutral) "Hexydec-Datacenters".

Definition botSample : FeedItem :=
  mkItem "10.0.0.0/8" KBot (Some "Googlebot") (Some "Crawler")
    (Some RGood) "GoodBots".




(** The bounds of the ranges of an index, in order. *)
Definition bounds (bd : BotData) : list (Z * Z) :=
  (fun r => (start r, end_ r)) <$> sortedRanges bd.

(** The keys of the [props] object literal. *)
Definition baseKeys : list string :=
  ["is_bot"; "is_good_bot"; "bot_name"; "bot_type";
   "bot_identification_source"; "datacenter"].

(** A classification that is no bot names no bot; one that is a bot has a
    category and a source. *)
Definition wellFormed (c : Classification) : Prop :=
  if isBot c
  then (∃ t, botType c = Some t ∧ truthy t = true)
       ∧ (∃ s, botSource c = Some s ∧ truthy s = true)
  else botName c = None ∧ botType c = None ∧ botSource c = None
       ∧ isGoodBot c = None.

(** The [newData] object of the call of [addEntry] that a feed item stands
    for. *)
Definition itemData (it : FeedItem) : Entry :=
  newData (f_range it) (f_type it) (f_name it) (f_category it) (f_rating it)
    (f_source it).

(** The item is filed as a range with the bounds [s] and [e]. *)
Definition inBlock (s e : Z) (it : FeedItem) : bool :=
  truthy (f_range it) && includes "/" (trim (f_range it))
  && bool_decide (cidrBounds (trim (f_range it)) = Some (s, e)).

(** The entries of a feed that are filed under the bounds [s] and [e],
    merged in the order of the feed: the first one as it is, each later one
    merged into what is there; [None] when the feed has none. *)
Definition blockStep (s e : Z) (acc : option Entry) (it : FeedItem)
    : option Entry :=
  if inBlock s e it then Some (merge acc (itemData it)) else acc.

Definition blockData (s e : Z) (feed : list FeedItem) : option Entry :=
  foldl (blockStep s e) None feed.

(** The data of the first range of a list that has the bounds [s] and
    [e]. *)
Fixpoint rangeData (s e : Z) (rs : list RangeRec) : option Entry :=
  match rs with
  | [] => None
  | r :: rest =>
      if (start r =? s) && (end_ r =? e) then Some (data r)
      else rangeData s e rest
  end.

(** Every range of the list either has the bounds [s] and [e], or is
    non-empty and does not overlap the addresses from [s] to [e]. *)
Definition alone (s e : Z) (rs : list RangeRec) : bool :=
  forallb (fun x => ((start x =? s) && (end_ x =? e))
                    || ((start x <=? end_ x)
                        && ((end_ x <? s) || (e <? start x)))) rs.

(** Every call of [addEntry] in the loaders passes a category, one of these
    literals or, for the ShadowWhisperer files, the first segment of a path
    that starts with one of the last three. *)
Definition loaderCategories : list string :=
  ["Crawler"; "Datacenter"; "ResProxy"; "Malicious"; "Search Engine";
   "AI Training"; "AI User"; "BruteForce"; "Malware"; "Other"].

(** Every item of the feed carries a category, and not the placeholder that
    [addEntry] puts in for a missing one. *)
Definition categorised (feed : list FeedItem) : bool :=
  forallb (fun it => match f_category it with
                     | Some c => truthy c && negb (String.eqb c "Uncategorized")
                     | None => false
                     end) feed.




(** ** The loaders of [src/bot-data.js]

    A loader fetches a feed and calls [addEntry] for its entries. The
    argument [data] is [response.data] after [fetchWithTimeout]: [None]
    when the fetch failed or the data is not of the type the loader
    expects. *)

Definition newline : ascii := "010"%char.

(** The [forEach] callback of [loadFirehol]. *)
Definition fireholLine (bd : BotData) (line : string) : BotData :=
  let trimmed := trim line in
  if truthy trimmed && negb (startsWith "#" trimmed)
  then addEntry trimmed KBot (Some "Firehol Blocklist") (Some "Malicious")
         (Some RBad) "Firehol" bd
  else bd.

(** [loadFirehol] *)
Definition loadFirehol (data : option string) (bd : BotData) : BotData :=
  match data with
  | Some text => foldl fireholLine bd (split newline text)
  | None => bd
  end.

(** The [forEach] callback of [loadPostHogBotIPs]: the entries have no
    name. *)
Definition postHogLine (bd : BotData) (line : string) : BotData :=
  let trimmed := trim line in
  if truthy trimmed && negb (startsWith "#" trimmed)
  then addEntry trimmed KBot None (Some "Crawler") (Some RGood)
         "PostHog-Bot-List" bd
  else bd.

(** [loadPostHogBotIPs] *)
Definition loadPostHogBotIPs (data : option string) (bd : BotData) : BotData :=
  match data with
  | Some text => foldl postHogLine bd (split newline text)
  | None => bd
  end.

(** The [forEach] callback of [loadAvastel]: a line [ip;as;confidence]. *)
Definition avastelLine (bd : BotData) (line : string) : BotData :=
  let trimmed := trim line in
  if negb (truthy trimmed) || startsWith "#" trimmed then bd
  else match split ";" trimmed with
       | ip :: as_ :: confidence :: _ =>
           if String.eqb confidence "1.0" || String.eqb confidence "1"
           then addEntry ip KBot (Some ("Residential Proxy (" +:+ as_ +:+ ")"))
                  (Some "ResProxy") (Some RBad) "Avastel" bd
           else bd
       | _ => bd
       end.

(** [loadAvastel] *)
Definition loadAvastel (data : option string) (bd : BotData) : BotData :=
  match data with
  | Some text => foldl avastelLine bd (split newline text)
  | None => bd
  end.

(** An element of the arrays of the Hexydec feeds: [item.range] and
    [item.name], each of which may be missing. *)
Record HexItem := mkHexItem {
  h_range : option string;
  h_name : option string
}.

Definition hexCrawler (bd : BotData) (item : HexItem) : BotData :=
  if truthyO (h_range item)
  then addEntry (default "" (h_range item)) KBot (h_name item) (Some "Crawler")
         (Some RGood) "Hexydec-Crawlers" bd
  else bd.

Definition hexDatacentre (bd : BotData) (item : HexItem) : BotData :=
  if truthyO (h_range item)
  then addEntry (default "" (h_range item)) KDatacenter (h_name item)
         (Some "Datacenter") (Some RNeutral) "Hexydec-Datacenters" bd
  else bd.

(** [loadHexydec], after both fetches: the crawlers, then the datacentres.
    [None] stands for a failed fetch or data that is no array. *)
Definition loadHexydec (crawlers datacentres : option (list HexItem))
    (bd : BotData) : BotData :=
  let bd := match crawlers with
            | Some items => foldl hexCrawler bd items
            | None => bd
            end in
  match datacentres with
  | Some items => foldl hexDatacentre bd items
  | None => bd
  end.

(** The [forEach] callback of [loadShadowWhisperer] for a file whose path
    gives [category] and [name]: a line is an address, or an address and a
    comment after a [#]. *)
Definition shadowLine (category name : string) (bd : BotData) (line : string)
    : BotData :=
  let trimmed := trim line in
  if negb (truthy trimmed) || startsWith "#" trimmed then bd
  else
    let '(ip, comment) :=
      if includes "#" trimmed then
        match split "#" trimmed with
        | p0 :: p1 :: _ => (trim p0, trim p1)
        | _ => (trimmed, "")
        end
      else (trimmed, "") in
    if truthy ip
    then addEntry ip KBot (Some (if truthy comment then comment else name))
           (Some category) (Some RBad) "ShadowWhisperer" bd
    else bd.

(** ** The delivery pipeline of [src/index.js] *)

(** The counters of the [stats] object that the loop body and [sendBatch]
    update ([stats.retries] is the counter of [Effects]). *)
Record Stats := mkStats {
  processed : Z;
  modified : Z;
  goodBotsAlready : Z;
  goodBotsNew : Z;
  badBotsAlready : Z;
  badBotsNew : Z;
  botsWithNames : Z;
  totalBotsFound : Z;
  botsWithCategories : Z;
  initialIpsAlready : Z;
  initialIpsNew : Z;
  latestIpsAlready : Z;
  latestIpsNew : Z;
  datacentersAlready : Z;
  datacentersNew : Z;
  latestNonProxyIpsAlready : Z;
  latestNonProxyIpsNew : Z;
  errors : Z
}.

Definition zeroStats : Stats :=
  mkStats 0 0 0 0 0 0 0 0 0 0 0 0 0 0 0 0 0 0.

(** [v === false || v === 0 || v === 'false' || v === '0'] *)
Definition falseLike (v : jsval) : bool :=
  strictEq v (JBool false) || strictEq v (JNum 0)
  || strictEq v (JStr "false") || strictEq v (JStr "0").

Definition isBadAlready (row : Row) : bool :=
  isBotAlready row && falseLike (existingIsGoodBot row).

Definition hasDatacenterAlready (row : Row) : bool :=
  toBoolean (existingDatacenter row)
  && negb (strictEq (existingDatacenter row) (JStr "null")).

(** [if c then 1 else 0], the amount a guarded [counter++] adds. *)
Definition count (c : bool) : Z := if c then 1 else 0.

(** The counters after the loop body has run for [row]; each counter grows
    by one under the condition of its [++] in the source. *)
Definition trackStats (analysis : Classification) (row : Row) (s : Stats) : Stats :=
  let bot := isBot analysis in
  let good := default false (isGoodBot analysis) in
  let ipChanged :=
    toBoolean (processedIp row)
    && negb (strictEq (processedIp row) (existingLatestIp row)) in
  let plain :=
    negb bot && negb (isDatacenter analysis) && toBoolean (processedIp row) in
  let sameNonProxy :=
    toBoolean (existingLatestNonProxyIp row)
    && strictEq (existingLatestNonProxyIp row) (processedIp row) in
  {| processed := processed s + 1;
     modified := modified s + count (bool_decide (is_Some (plan analysis row)));
     goodBotsAlready :=
       goodBotsAlready s + count (bot && good && isGoodAlready row);
     goodBotsNew :=
       goodBotsNew s + count (bot && good && negb (isGoodAlready row));
     badBotsAlready :=
       badBotsAlready s + count (bot && negb good && isBadAlready row);
     badBotsNew :=
       badBotsNew s + count (bot && negb good && negb (isBadAlready row));
     botsWithNames := botsWithNames s + count (bot && truthyO (botName analysis));
     totalBotsFound := totalBotsFound s + count bot;
     botsWithCategories :=
       botsWithCategories s + count (bot && truthyO (botType analysis));
     initialIpsAlready :=
       initialIpsAlready s + count (toBoolean (existingInitialIp row));
     initialIpsNew :=
       initialIpsNew s
       + count (ipChanged && negb (toBoolean (existingInitialIp row)));
     latestIpsAlready :=
       latestIpsAlready s
       + count (toBoolean (existingLatestIp row)
                && strictEq (existingLatestIp row) (processedIp row));
     latestIpsNew := latestIpsNew s + count ipChanged;
     datacentersAlready :=
       datacentersAlready s
       + count (isDatacenter analysis && hasDatacenterAlready row);
     datacentersNew :=
       datacentersNew s
       + count (isDatacenter analysis && negb (hasDatacenterAlready row));
     latestNonProxyIpsAlready :=
       latestNonProxyIpsAlready s + count (plain && sameNonProxy);
     latestNonProxyIpsNew :=
       latestNonProxyIpsNew s + count (plain && negb sameNonProxy);
     errors := errors s |}.

(** The two endpoints: [queryPersons cursor k] is the outcome of the
    [k]-th POST of a query, the one for the persons after [cursor], with
    [response.data.results] as its value ([None] when the data hold no
    results); [postBatch events k] is the outcome of the [k]-th POST of a
    batch, the one that carries [events]. *)
Class Platform := {
  queryPersons : string → nat → Outcome (option (list Row));
  postBatch : list Event → nat → Outcome unit
}.

(** The state of a run: the counters, what the retry wrapper has counted
    and slept, the number of POSTs to each endpoint, [perf.batchCount], the
    non-empty batches [sendBatch] was called with and those the platform
    accepted, in order. *)
Record Run := mkRun {
  stats : Stats;
  retries : Z;
  slept : list Q;
  reads : nat;
  writes : nat;
  batchCount : nat;
  handed : list (list Event);
  accepted : list (list Event)
}.

Definition newRun : Run := mkRun zeroStats 0 [] 0 0 0 [] [].

Definition BATCH_SIZE : nat := 1000.

Definition withErrors (n : Z) (s : Stats) : Stats :=
  mkStats (processed s) (modified s) (goodBotsAlready s) (goodBotsNew s)
    (badBotsAlready s) (badBotsNew s) (botsWithNames s) (totalBotsFound s)
    (botsWithCategories s) (initialIpsAlready s) (initialIpsNew s)
    (latestIpsAlready s) (latestIpsNew s) (datacentersAlready s)
    (datacentersNew s) (latestNonProxyIpsAlready s) (latestNonProxyIpsNew s)
    (errors s + n).

(** [sendBatch(events)]: nothing for an empty batch, nothing sent in a dry
    run; otherwise the batch is posted through the retry wrapper, and a
    failure is caught and counted against every event of the batch. On
    success the source adds to [stats.updated], a property the [stats]
    object is never given; [accepted] records the batch instead. *)
Definition sendBatch `{Platform} (isDryRun : bool) (events : list Event)
    (run : Run) : Run :=
  match events with
  | [] => run
  | _ :: _ =>
      let handed' := handed run ++ [events] in
      if isDryRun then
        mkRun (stats run) (retries run) (slept run) (reads run) (writes run)
          (batchCount run) handed' (accepted run)
      else
        let '(completion, eff) :=
          fetchWithRetry (postBatch events)
            (mkEffects (retries run) (slept run) (writes run)) in
        match completion with
        | Returned _ =>
            mkRun (stats run) (statsRetries eff) (sleeps eff) (reads run)
              (calls eff) (batchCount run) handed' (accepted run ++ [events])
        | _ =>
            mkRun (withErrors (Z.of_nat (length events)) (stats run))
              (statsRetries eff) (sleeps eff) (reads run) (calls eff)
              (batchCount run) handed' (accepted run)
        end
  end.

(** [fetchHogQL(querySql)] for the query after the cursor [lastPersonId]:
    the data, or null when the wrapper throws. *)
Definition fetchHogQL `{Platform} (lastPersonId : string) (run : Run)
    : option (list Row) * Run :=
  let '(completion, eff) :=
    fetchWithRetry (queryPersons lastPersonId)
      (mkEffects (retries run) (slept run) (reads run)) in
  (match completion with Returned data => data | _ => None end,
   mkRun (stats run) (statsRetries eff) (sleeps eff) (calls eff) (writes run)
     (batchCount run) (handed run) (accepted run)).

(** The variables of [processPersons] that live across rows and pages. *)
Record Loop := mkLoop {
  lastPersonId : string;
  eventBatch : list Event;
  run : Run
}.

(** The body of [for (const row of data.results)]. *)
Definition rowStep `{UserAgentMatcher} `{Platform} (isDryRun : bool)
    (botData : BotData) (st : Loop) (row : Row) : Loop :=
  let analysis := analyse botData row in
  let r := run st in
  let r := mkRun (trackStats analysis row (stats r)) (retries r) (slept r)
             (reads r) (writes r) (batchCount r) (handed r) (accepted r) in
  let batch :=
    match plan analysis row with
    | Some ev => eventBatch st ++ [ev]
    | None => eventBatch st
    end in
  if (BATCH_SIZE <=? length batch)%nat
  then mkLoop (personId row) [] (sendBatch isDryRun batch r)
  else mkLoop (personId row) batch r.

(** The [while (true)] loop: [None] when [fuel] pages were read and the
    loop is still running. *)
Fixpoint pages `{UserAgentMatcher} `{Platform} (fuel : nat) (isDryRun : bool)
    (botData : BotData) (st : Loop) : option Loop :=
  match fuel with
  | O => None
  | S fuel' =>
      let r := run st in
      let r := mkRun (stats r) (retries r) (slept r) (reads r) (writes r)
                 (S (batchCount r)) (handed r) (accepted r) in
      let '(data, r) := fetchHogQL (lastPersonId st) r in
      match data with
      | None | Some [] => Some (mkLoop (lastPersonId st) (eventBatch st) r)
      | Some rows =>
          pages fuel' isDryRun botData
            (foldl (rowStep isDryRun botData)
               (mkLoop (lastPersonId st) (eventBatch st) r) rows)
      end
  end.

(** [processPersons()]: the loop, then the flush of what is left. *)
Definition processPersons `{UserAgentMatcher} `{Platform} (fuel : nat)
    (isDryRun : bool) (botData : BotData) : option Run :=
  st ← pages fuel isDryRun botData (mkLoop "" [] newRun);
  Some (sendBatch isDryRun (eventBatch st) (run st)).

(** ** Notions used in the further statements *)

(** Two entries agree on everything but their provenance. *)
Definition sameButSource (e1 e2 : Entry) : Prop :=
  range e1 = range e2 ∧ type e1 = type e2 ∧ name e1 = name e2
  ∧ category e1 = category e2 ∧ rating e1 = rating e2
  ∧ datacenter e1 = datacenter e2.

(** Two bot entries, the second with a generic name, and a datacenter
    entry, for examples. *)
Definition namedBot : Entry :=
  mkEntry "1.2.3.4" KBot "Googlebot" "Crawler" RGood "GoodBots" None.

Definition otherBot : Entry :=
  mkEntry "1.2.3.4" KBot "Bingbot" "Search Engine" RGood "Official-Source" None.

(** The sort at the end of [loadAllBotData], on an index the loaders have
    filled. *)
Definition sortIndex (bd : BotData) : BotData :=
  mkBotData (singleIPs bd) (sortRanges (sortedRanges bd)).

(** Every entry of the index, exact or range, satisfies [Q]. *)
Definition allEntries (Q : Entry → Prop) (bd : BotData) : Prop :=
  (∀ k e, singleIPs bd !! k = Some e → Q e)
  ∧ (∀ r, r ∈ sortedRanges bd → Q (data r)).

(** [e] has the fields of [nd], but for its range text, and no
    side-channel datacenter. *)
Definition likeEntry (nd e : Entry) : Prop :=
  type e = type nd ∧ name e = name nd ∧ category e = category nd
  ∧ rating e = rating nd ∧ source e = source nd ∧ datacenter e = None.

(** The text of a file with the given lines. *)
Fixpoint joinLines (ls : list string) : string :=
  match ls with
  | [] => ""
  | l :: rest =>
      match rest with
      | [] => l
      | _ :: _ => l +:+ String newline (joinLines rest)
      end
  end.

(** What [checkBot] reports for an address on the Firehol list, and for one
    on the PostHog list; [src] is the provenance. *)
Definition fireholResult (src : string) : Classification :=
  mkClassification true (Some false) None (Some "Malicious") (Some src) false None.

Definition postHogResult (src : string) : Classification :=
  mkClassification true (Some true) None (Some "Crawler") (Some src) false None.

(** How the wrapper ends on an outcome it does not retry. *)
Definition settle {A} (o : Outcome A) : Completion A :=
  match o with
  | Resolved a => Returned a
  | Rejected response => Rethrown response
  end.

(** The waits of the next [budget] retries when no response carries a
    [retry-after] header. *)
Fixpoint schedule (budget : nat) (backoff : Q) : list Q :=
  match budget with
  | O => []
  | S budget' => backoff :: schedule budget' (nextBackoff backoff)
  end.

(** No rejection of the transport carries a [retry-after] header. *)
Definition unhinted {A} (fn : nat → Outcome A) : Prop :=
  ∀ k r, fn k = Rejected (Some r) → retryAfterHeader r = None.

(** A transport that fails [k] times with status 503, then answers. *)
Definition failsThenOk (k : nat) (j : nat) : Outcome string :=
  if (j <? k)%nat then Rejected (Some (mkResponse 503 None)) else Resolved "ok".

(** A transport that is rate limited once, with a hint of 7 seconds, then
    unavailable once, then answers. *)
Definition hintedThenOk (j : nat) : Outcome string :=
  match j with
  | O => Rejected (Some (mkResponse 429 (Some "7")))
  | S O => Rejected (Some (mkResponse 503 None))
  | _ => Resolved "ok"
  end.

(** A feed with a bad bot on an exact address inside a datacenter range,
    and one with an unnamed crawler on an exact address inside it. *)
Definition nestedFeed : list FeedItem :=
  [ mkItem "10.0.0.0/8" KDatacenter (Some "AWS") (Some "Datacenter")
      (Some RNeutral) "Hexydec-Datacenters";
    mkItem "10.1.2.3" KBot (Some "Scanner") (Some "Malware") (Some RBad)
      "ShadowWhisperer" ].

(** The keys a patch may hold. *)
Definition patchKeys : list string :=
  baseKeys ++ ["$initial_ip"; "$latest_ip"; "$latest_nonproxy_ip"].

(** The distinct id given to a bad bot. *)
Definition badBotId (analysis : Classification) (row : Row) : string :=
  orDefault (botName analysis) "Unknown Bad Bot" +:+ " ("
  +:+ (if toBoolean (processedIp row) then toString (processedIp row)
       else "No IP") +:+ ")".

(** Classifications and rows for examples: a named good bot, a bad bot
    with no name, and a person never tagged. *)
Definition goodNamed : Classification :=
  mkClassification true (Some true) (Some "Googlebot") (Some "Crawler")
    (Some "GoodBots") false None.

Definition freshRow : Row :=
  mkRow "p9" "abc-999" JNull (JStr "66.249.64.7") None JNull JNull JNull JNull
    JNull.

(** The number of events in the batches the platform accepted, and in the
    batches handed to [sendBatch]. *)
Definition delivered (r : Run) : Z := Z.of_nat (length (concat (accepted r))).

Definition handedCount (r : Run) : Z := Z.of_nat (length (concat (handed r))).

(** Every event produced so far, in order: those of the batches handed to
    [sendBatch], then those still in [eventBatch]. *)
Definition pending (st : Loop) : list Event :=
  concat (handed (run st)) ++ eventBatch st.

(** The cursor after a page: the id of its last person. *)
Definition cursorAfter (cursor : string) (page : list Row) : string :=
  match last page with
  | Some row => personId row
  | None => cursor
  end.

(** An outcome of a query that ends the loop once the wrapper is through
    with it: it is not retried and it has no rows. *)
Definition noRows (o : Outcome (option (list Row))) : bool :=
  match o with
  | Resolved (Some (_ :: _)) => false
  | _ => true
  end.

(** The platform serves the non-empty pages [ps] one after the other, each
    at the first attempt and for the cursor the page before leaves, and
    then ends the listing. [k] is the number of queries posted before. *)
Fixpoint serves `{Platform} (cursor : string) (k : nat) (ps : list (list Row))
    : Prop :=
  match ps with
  | [] =>
      retryable (queryPersons cursor k) = false
      ∧ noRows (queryPersons cursor k) = true
  | p :: rest =>
      p ≠ [] ∧ queryPersons cursor k = Resolved (Some p)
      ∧ serves (cursorAfter cursor p) (S k) rest
  end.

(** The relations between the counters that hold throughout a run. *)
Definition consistent (s : Stats) : Prop :=
  totalBotsFound s
  = goodBotsAlready s + goodBotsNew s + badBotsAlready s + badBotsNew s
  ∧ botsWithCategories s = totalBotsFound s
  ∧ 0 ≤ botsWithNames s ≤ totalBotsFound s
  ∧ totalBotsFound s ≤ modified s ≤ processed s
  ∧ 0 ≤ initialIpsNew s ≤ latestIpsNew s
  ∧ 0 ≤ latestIpsAlready s ∧ latestIpsAlready s + latestIpsNew s ≤ processed s
  ∧ 0 ≤ datacentersAlready s ∧ 0 ≤ datacentersNew s
  ∧ datacentersAlready s + datacentersNew s ≤ processed s
  ∧ 0 ≤ latestNonProxyIpsAlready s ∧ 0 ≤ latestNonProxyIpsNew s
  ∧ latestNonProxyIpsAlready s + latestNonProxyIpsNew s + totalBotsFound s
    ≤ processed s
  ∧ 0 ≤ goodBotsAlready s ∧ 0 ≤ goodBotsNew s
  ∧ 0 ≤ badBotsAlready s ∧ 0 ≤ badBotsNew s
  ∧ 0 ≤ initialIpsAlready s ≤ processed s
  ∧ 0 ≤ errors s.

(** The invariant of the loop of [processPersons]. *)
Definition loopInvariant (dry : bool) (st : Loop) : Prop :=
  (length (eventBatch st) < BATCH_SIZE)%nat
  ∧ Forall (λ b, length b = BATCH_SIZE) (handed (run st))
  ∧ modified (stats (run st))
    = handedCount (run st) + Z.of_nat (length (eventBatch st))
  ∧ (dry = false →
     delivered (run st) + errors (stats (run st)) = handedCount (run st))
  ∧ (dry = true →
     writes (run st) = O ∧ errors (stats (run st)) = 0
     ∧ accepted (run st) = [])
  ∧ (writes (run st) ≤ 10 * length (handed (run st)))%nat
  ∧ consistent (stats (run st)).


(** A platform that lists two persons and then nothing, and accepts every
    batch; one that rejects every batch with status 400. *)
Definition twoPersons : Platform :=
  {| queryPersons := fun cursor _ =>
       if String.eqb cursor "" then Resolved (Some [rowCrawler; rowNoInitial])
       else Resolved (Some []);
     postBatch := fun _ _ => Resolved tt |}.

Definition rejecting : Platform :=
  {| queryPersons := fun cursor _ =>
       if String.eqb cursor "" then Resolved (Some [rowCrawler; rowNoInitial])
       else Resolved (Some []);
     postBatch := fun _ _ => Rejected (Some (mkResponse 400 None)) |}.

(** The runs of the two sample platforms over the sample index. *)
Definition sampleRun : Run :=
  default newRun (@processPersons sampleMatcher twoPersons 2 false sampleIndex).

Definition rejectedRun : Run :=
  default newRun (@processPersons sampleMatcher rejecting 2 false sampleIndex).

(** The calls of [addEntry] that [loadHexydec] makes for an element of the
    crawler list and of the datacentre list, and for both lists. An element
    without a range makes no call; as a feed item it has the empty range,
    which [addEntry] ignores. *)
Definition crawlerItem (item : HexItem) : FeedItem :=
  mkItem (default "" (h_range item)) KBot (h_name item) (Some "Crawler")
    (Some RGood) "Hexydec-Crawlers".

Definition centreItem (item : HexItem) : FeedItem :=
  mkItem (default "" (h_range item)) KDatacenter (h_name item)
    (Some "Datacenter") (Some RNeutral) "Hexydec-Datacenters".

Definition hexFeed (crawlers datacentres : list HexItem) : list FeedItem :=
  (crawlerItem <$> crawlers) ++ (centreItem <$> datacentres).

(** The items of a feed that are filed under the bounds [s] and [e]. *)
Definition blockItems (s e : Z) (feed : list FeedItem) : list FeedItem :=
  filter (fun it => inBlock s e it = true) feed.

(** Hexydec lists in which a block is listed twice as a crawler's and once
    as a datacentre's, next to other blocks. *)
Definition sampleCrawlers : list HexItem :=
  [ mkHexItem (Some "66.249.64.0/19") (Some "Googlebot");
    mkHexItem (Some "157.55.39.0/24") (Some "Bingbot");
    mkHexItem (Some "66.249.64.0/19") (Some "Google Other");
    mkHexItem None (Some "Nameless") ].

Definition sampleCentres : list HexItem :=
  [ mkHexItem (Some "10.0.0.0/8") (Some "AWS");
    mkHexItem (Some "66.249.64.0/19") (Some "Google Cloud") ].
(** ** The retry wrapper *)

Section Retry.
Context {A : Type}.
Implicit Types (fn : nat → Outcome A) (eff : Effects) (backoff : Q).

Lemma retryLoop_resolved budget fn backoff eff a :
  fn (calls eff) = Resolved a →
  retryLoop (S budget) fn backoff eff
  = (Returned a, mkEffects (statsRetries eff) (sleeps eff) (S (calls eff))).
Proof. intros Hfn. simpl. by rewrite Hfn. Qed.

Lemma retryLoop_429_unhinted budget fn backoff eff :
  fn (calls eff) = Rejected (Some (mkResponse 429 None)) →
  retryLoop (S budget) fn backoff eff
  = retryLoop budget fn (nextBackoff backoff)
      (mkEffects (statsRetries eff + 1) (sleeps eff ++ [backoff]) (S (calls eff))).
Proof. intros Hfn. simpl. by rewrite Hfn. Qed.

Lemma retryLoop_terminal budget fn backoff eff response :
  fn (calls eff) = Rejected response →
  terminal response = true →
  retryLoop (S budget) fn backoff eff
  = (Rethrown response,
     mkEffects (statsRetries eff) (sleeps eff) (S (calls eff))).
Proof.
  intros Hfn Hterm. simpl. rewrite Hfn.
  destruct response as [r|]; [|done]. simpl in Hterm.
  destruct (status r =? 429); [done|].
  destruct (500 <=? status r) eqn:E; [|done].
  apply Z.leb_le in E. apply andb_prop in Hterm as [_ Hlt].
  apply Z.ltb_lt in Hlt. lia.
Qed.

(** Each iteration that does not leave the loop counts one retry, sleeps
    once and calls [fn] once. *)
Lemma retryLoop_exhausts budget : ∀ fn backoff eff,
  (∀ k, retryable (fn k) = true) →
  ∃ eff', retryLoop budget fn backoff eff = (MaxRetriesExceeded, eff')
    ∧ statsRetries eff' = statsRetries eff + Z.of_nat budget
    ∧ length (sleeps eff') = (length (sleeps eff) + budget)%nat
    ∧ calls eff' = (calls eff + budget)%nat.
Proof.
  induction budget as [|n IH]; intros fn backoff eff Hall.
  - exists eff. simpl. repeat split; lia.
  - simpl. specialize (Hall (calls eff)) as Hk.
    destruct (fn (calls eff)) as [a|[r|]]; simpl in Hk; try done.
    destruct (status r =? 429) eqn:E429.
    + destruct (IH fn (nextBackoff backoff)
                  (mkEffects (statsRetries eff + 1)
                     (sleeps eff ++ [waitTime429 r backoff]) (S (calls eff))) Hall)
        as (eff' & -> & Hs & Hl & Hc).
      exists eff'. simpl in *. rewrite length_app in Hl. simpl in Hl.
      repeat split; lia.
    + simpl in Hk. rewrite Hk.
      destruct (IH fn (nextBackoff backoff)
                  (mkEffects (statsRetries eff + 1)
                     (sleeps eff ++ [backoff]) (S (calls eff))) Hall)
        as (eff' & -> & Hs & Hl & Hc).
      exists eff'. simpl in *. rewrite length_app in Hl. simpl in Hl.
      repeat split; lia.
Qed.

(** Whatever [fn] does, the loop counts at most [budget] retries, and it
    sleeps exactly once per retry. *)
Lemma retryLoop_bounded budget : ∀ fn backoff eff,
  statsRetries eff ≤ statsRetries (retryLoop budget fn backoff eff).2
    ≤ statsRetries eff + Z.of_nat budget
  ∧ Z.of_nat (length (sleeps (retryLoop budget fn backoff eff).2))
    - Z.of_nat (length (sleeps eff))
    = statsRetries (retryLoop budget fn backoff eff).2 - statsRetries eff.
Proof.
  induction budget as [|n IH]; intros fn backoff eff.
  - simpl. lia.
  - cbn [retryLoop]. destruct (fn (calls eff)) as [a|[r|]]; simpl; try lia.
    destruct (status r =? 429).
    + specialize (IH fn (nextBackoff backoff)
                    (mkEffects (statsRetries eff + 1)
                       (sleeps eff ++ [waitTime429 r backoff]) (S (calls eff)))).
      simpl in IH. rewrite length_app in IH. simpl in IH. lia.
    + destruct (500 <=? status r); simpl; [|lia].
      specialize (IH fn (nextBackoff backoff)
                    (mkEffects (statsRetries eff + 1)
                       (sleeps eff ++ [backoff]) (S (calls eff)))).
      simpl in IH. rewrite length_app in IH. simpl in IH. lia.
Qed.

(** C5: when the transport answers 429 without a retry-after header three
    times and then succeeds, the wrapper returns the value after exactly
    three waits of 2000, 3000 and 4500 milliseconds, the retry counter
    has grown by 3 and [fn] was called four times. *)
Theorem fetchWithRetry_three_429 fn eff (v : A) :
  (∀ k, (k < 3)%nat →
        fn (calls eff + k)%nat = Rejected (Some (mkResponse 429 None))) →
  fn (calls eff + 3)%nat = Resolved v →
  ∃ w1 w2 w3,
    fetchWithRetry fn eff
    = (Returned v,
       mkEffects (statsRetries eff + 3) (sleeps eff ++ [w1; w2; w3])
         (calls eff + 4))
    ∧ (w1 == 2000)%Q ∧ (w2 == 3000)%Q ∧ (w3 == 4500)%Q.
Proof.
  intros Hfail Hok.
  pose proof (Hfail 0%nat ltac:(lia)) as H0.
  pose proof (Hfail 1%nat ltac:(lia)) as H1.
  pose proof (Hfail 2%nat ltac:(lia)) as H2.
  rewrite Nat.add_0_r in H0.
  replace (calls eff + 1)%nat with (S (calls eff)) in H1 by lia.
  replace (calls eff + 2)%nat with (S (S (calls eff))) in H2 by lia.
  replace (calls eff + 3)%nat with (S (S (S (calls eff)))) in Hok by lia.
  exists 2000%Q, (nextBackoff 2000), (nextBackoff (nextBackoff 2000)).
  split; [|by vm_compute].
  unfold fetchWithRetry, MAX_RETRIES.
  rewrite retryLoop_429_unhinted by done.
  rewrite retryLoop_429_unhinted by done.
  rewrite retryLoop_429_unhinted by done.
  rewrite retryLoop_resolved with (a := v) by done.
  simpl. f_equal. f_equal; [lia| |lia].
  by rewrite <- !app_assoc.
Qed.

(** C6: a call that keeps failing with 429 or 5xx is tried ten times, each
    failure counted as a retry and followed by one wait, and then ends in
    the wrapper's own failure; no run counts more than ten retries; and an
    error without a response, or with a status below 500 other than 429,
    is rethrown at once, at the first call or after any number of retries:
    no further retry is counted and nothing more is waited for. *)
Theorem fetchWithRetry_budget fn eff :
  ((∀ k, retryable (fn k) = true) →
   ∃ eff', fetchWithRetry fn eff = (MaxRetriesExceeded, eff')
     ∧ statsRetries eff' = statsRetries eff + 10
     ∧ length (sleeps eff') = (length (sleeps eff) + 10)%nat
     ∧ calls eff' = (calls eff + 10)%nat)
  ∧ statsRetries (fetchWithRetry fn eff).2 ≤ statsRetries eff + 10
  ∧ (∀ response,
       fn (calls eff) = Rejected response →
       terminal response = true →
       fetchWithRetry fn eff
       = (Rethrown response,
          mkEffects (statsRetries eff) (sleeps eff) (S (calls eff))))
  ∧ (∀ response budget backoff eff',
       fn (calls eff') = Rejected response →
       terminal response = true →
       retryLoop (S budget) fn backoff eff'
       = (Rethrown response,
          mkEffects (statsRetries eff') (sleeps eff') (S (calls eff')))).
Proof.
  split; [|split; [|split]].
  - intros Hall. apply (retryLoop_exhausts 10 fn 2000%Q eff Hall).
  - pose proof (retryLoop_bounded 10 fn 2000%Q eff) as H.
    unfold fetchWithRetry, MAX_RETRIES. lia.
  - intros response Hfn Hterm. by apply retryLoop_terminal.
  - intros response budget backoff eff' Hfn Hterm. by apply retryLoop_terminal.
Qed.

End Retry.

Lemma fetchWithRetry_three_429_witness :
  ∃ w1 w2 w3,
    fetchWithRetry threeThenOk freshEffects
    = (Returned "ok", mkEffects (0 + 3) ([] ++ [w1; w2; w3]) (0 + 4))
    ∧ (w1 == 2000)%Q ∧ (w2 == 3000)%Q ∧ (w3 == 4500)%Q.
Proof.
  apply (fetchWithRetry_three_429 threeThenOk freshEffects "ok").
  - intros k Hk. simpl. unfold threeThenOk.
    destruct (Nat.ltb_spec k 3); [reflexivity | lia].
  - reflexivity.
Defined.

(** ** The reconciliation planner *)

Section Planner.
Implicit Types (analysis : Classification) (row : Row) (k : string) (v : jsval).

Lemma strictEq_true (a b : jsval) : strictEq a b = true ↔ a = b.
Proof. unfold strictEq. apply bool_decide_eq_true. Qed.

Lemma strictEq_false (a b : jsval) : strictEq a b = false ↔ a ≠ b.
Proof. unfold strictEq. apply bool_decide_eq_false. Qed.

Lemma strictEq_refl (a : jsval) : strictEq a a = true.
Proof. by apply strictEq_true. Qed.

Lemma toBoolean_notNullish v : toBoolean v = true → notNullish v = true.
Proof. by destruct v. Qed.

(** The filter keeps nothing that is null or undefined. *)
Lemma keepProp_notNullish row k v :
  keepProp row (k, v) = true → notNullish v = true.
Proof.
  unfold keepProp.
  repeat match goal with |- context [if ?c then _ else _] => destruct c end;
    done.
Qed.

Lemma elem_of_filteredProps analysis row k v :
  (k, v) ∈ filteredProps analysis row
  ↔ keepProp row (k, v) = true ∧ (k, v) ∈ props analysis row.
Proof.
  unfold filteredProps.
  apply (list_elem_of_filter (λ kv, keepProp row kv = true)).
Qed.

Lemma getProp_Some obj k v : getProp k obj = Some v → (k, v) ∈ obj.
Proof.
  induction obj as [|[k' v'] rest IH]; simpl; [done|].
  destruct (String.eqb_spec k' k) as [->|Hne].
  - intros [= ->]. apply list_elem_of_here.
  - intros Hg. apply list_elem_of_further. auto.
Qed.

(** C10: no property of the patch is null or undefined: a property whose
    computed value is null is absent from the patch, the emitted event
    carries only such a patch, and a stored property that was set is still
    set after the platform has applied the patch. *)
Theorem patch_never_null analysis row :
  Forall (λ kv, notNullish kv.2 = true) (filteredProps analysis row)
  ∧ (∀ k v, (k, v) ∈ props analysis row → notNullish v = false →
            (k, v) ∉ filteredProps analysis row)
  ∧ (∀ ev, plan analysis row = Some ev →
           Forall (λ kv, notNullish kv.2 = true) (set_props ev))
  ∧ (∀ k old, notNullish old = true →
              notNullish (stored (filteredProps analysis row) k old) = true).
Proof.
  assert (Hall : Forall (λ kv, notNullish kv.2 = true)
                   (filteredProps analysis row)).
  { apply Forall_forall. intros [k v] Hin.
    apply elem_of_filteredProps in Hin as [Hkeep _].
    by apply keepProp_notNullish in Hkeep. }
  split; [exact Hall|]. split; [|split].
  - intros k v _ Hnull Hin.
    apply elem_of_filteredProps in Hin as [Hkeep _].
    apply keepProp_notNullish in Hkeep. congruence.
  - intros ev. unfold plan.
    destruct (_ || _); [|done]. by intros [= <-].
  - intros k old Hold. unfold stored.
    destruct (getProp k (filteredProps analysis row)) as [v|] eqn:Hg; [|done].
    apply getProp_Some in Hg.
    rewrite Forall_forall in Hall. apply (Hall (k, v) Hg).
Qed.

Lemma props_elem analysis row k v :
  (k, v) ∈ props analysis row
  ↔ (k, v) ∈ baseProps analysis ∨ (k, v) ∈ addressProps row
    ∨ (k, v) ∈ nonProxyProps analysis row.
Proof. unfold props. by rewrite !elem_of_app. Qed.

Lemma elem_of_keys_filteredProps analysis row k :
  k ∈ (filteredProps analysis row).*1
  ↔ ∃ v, keepProp row (k, v) = true ∧ (k, v) ∈ props analysis row.
Proof.
  rewrite list_elem_of_fmap. split.
  - intros ([k' v] & -> & Hin). exists v. by apply elem_of_filteredProps.
  - intros (v & Hkeep & Hin). exists (k, v). split; [done|].
    by apply elem_of_filteredProps.
Qed.

Lemma baseProps_keys analysis : (baseProps analysis).*1 = baseKeys.
Proof. reflexivity. Qed.

Lemma baseProps_elem_key analysis k v :
  (k, v) ∈ baseProps analysis → k ∈ baseKeys.
Proof.
  intros Hin. rewrite <- (baseProps_keys analysis).
  apply list_elem_of_fmap. by exists (k, v).
Qed.

Lemma nonProxyProps_elem analysis row k v :
  (k, v) ∈ nonProxyProps analysis row
  ↔ k = "$latest_nonproxy_ip" ∧ v = processedIp row
    ∧ isBot analysis = false ∧ isDatacenter analysis = false
    ∧ toBoolean (processedIp row) = true
    ∧ existingLatestNonProxyIp row ≠ processedIp row.
Proof.
  unfold nonProxyProps.
  destruct (isBot analysis), (isDatacenter analysis),
    (toBoolean (processedIp row)) eqn:Hip; simpl;
    rewrite ?elem_of_nil; try naive_solver.
  destruct (strictEq _ _) eqn:E.
  - apply strictEq_true in E. rewrite E, Hip. simpl.
    rewrite elem_of_nil. naive_solver.
  - apply strictEq_false in E. rewrite andb_false_r.
    rewrite list_elem_of_singleton. naive_solver.
Qed.

Lemma addressProps_elem row k v :
  (k, v) ∈ addressProps row
  ↔ v = processedIp row ∧ toBoolean (processedIp row) = true
    ∧ processedIp row ≠ existingLatestIp row
    ∧ (k = "$latest_ip"
       ∨ k = "$initial_ip" ∧ toBoolean (existingInitialIp row) = false).
Proof.
  unfold addressProps.
  destruct (toBoolean (processedIp row)); simpl;
    [|rewrite elem_of_nil; naive_solver].
  destruct (strictEq _ _) eqn:E; simpl.
  - apply strictEq_true in E. rewrite elem_of_nil. naive_solver.
  - apply strictEq_false in E.
    destruct (toBoolean (existingInitialIp row)); simpl;
      rewrite ?elem_of_cons, ?elem_of_nil; naive_solver.
Qed.

(** Where each address property comes from. *)
Lemma initial_ip_in_props analysis row v :
  ("$initial_ip", v) ∈ props analysis row
  ↔ v = processedIp row ∧ toBoolean (processedIp row) = true
    ∧ processedIp row ≠ existingLatestIp row
    ∧ toBoolean (existingInitialIp row) = false.
Proof.
  rewrite props_elem, addressProps_elem, nonProxyProps_elem. split.
  - intros [Hb | [H | H]]; [|naive_solver..].
    apply baseProps_elem_key in Hb.
    by apply (bool_decide_pack _) in Hb.
  - naive_solver.
Qed.

Lemma latest_ip_in_props analysis row v :
  ("$latest_ip", v) ∈ props analysis row
  ↔ v = processedIp row ∧ toBoolean (processedIp row) = true
    ∧ processedIp row ≠ existingLatestIp row.
Proof.
  rewrite props_elem, addressProps_elem, nonProxyProps_elem. split.
  - intros [Hb | [H | H]]; [|naive_solver..].
    apply baseProps_elem_key in Hb.
    by apply (bool_decide_pack _) in Hb.
  - naive_solver.
Qed.

(** C9 (as amended): [$initial_ip] is in the patch exactly when the current
    address is present, differs from the stored latest address and the
    record has no stored initial address; [$latest_ip] is in the patch
    exactly when the current address is present and differs from the
    stored latest address; both carry the current address. *)
Theorem address_props_in_patch analysis row :
  ("$initial_ip" ∈ (filteredProps analysis row).*1
   ↔ toBoolean (processedIp row) = true
     ∧ processedIp row ≠ existingLatestIp row
     ∧ toBoolean (existingInitialIp row) = false)
  ∧ ("$latest_ip" ∈ (filteredProps analysis row).*1
     ↔ toBoolean (processedIp row) = true
       ∧ processedIp row ≠ existingLatestIp row)
  ∧ (∀ k v, k = "$initial_ip" ∨ k = "$latest_ip" →
            (k, v) ∈ filteredProps analysis row → v = processedIp row).
Proof.
  split; [|split].
  - rewrite elem_of_keys_filteredProps. split.
    + intros (v & _ & Hin). apply initial_ip_in_props in Hin. tauto.
    + intros (Hip & Hne & Hinit). exists (processedIp row). split.
      * unfold keepProp. simpl.
        destruct (strictEq _ _) eqn:E.
        -- apply strictEq_true in E. rewrite <- E in Hinit. congruence.
        -- by apply toBoolean_notNullish.
      * apply initial_ip_in_props. tauto.
  - rewrite elem_of_keys_filteredProps. split.
    + intros (v & _ & Hin). apply latest_ip_in_props in Hin. tauto.
    + intros (Hip & Hne). exists (processedIp row). split.
      * unfold keepProp. simpl.
        destruct (strictEq _ _) eqn:E.
        -- by apply strictEq_true in E.
        -- by apply toBoolean_notNullish.
      * apply latest_ip_in_props. tauto.
  - intros k v [-> | ->] Hin; apply elem_of_filteredProps in Hin as [_ Hin].
    + apply initial_ip_in_props in Hin. tauto.
    + apply latest_ip_in_props in Hin. tauto.
Qed.

(** *** The second run *)

Lemma getProp_None obj k : k ∉ obj.*1 → getProp k obj = None.
Proof.
  induction obj as [|[k' v'] rest IH]; simpl; [done|].
  rewrite not_elem_of_cons. intros [Hne Hnin].
  destruct (String.eqb_spec k' k); [congruence|auto].
Qed.

Lemma filter_cons_bool {X} (f : X → bool) (x : X) (l : list X) :
  filter (λ y, f y = true) (x :: l)
  = if f x then x :: filter (λ y, f y = true) l
    else filter (λ y, f y = true) l.
Proof.
  rewrite filter_cons. destruct (f x) eqn:E; case_decide; congruence.
Qed.

(** Keys are unique, so the value of a key in the patch is its value in
    [props] when the filter keeps it. *)
Lemma getProp_filter row obj k :
  NoDup obj.*1 →
  getProp k (filter (λ kv, keepProp row kv = true) obj)
  = match getProp k obj with
    | Some v => if keepProp row (k, v) then Some v else None
    | None => None
    end.
Proof.
  induction obj as [|[k' v'] rest IH]; [done|].
  rewrite fmap_cons, NoDup_cons. intros [Hnin Hnd].
  rewrite filter_cons_bool. simpl getProp at 2.
  destruct (String.eqb_spec k' k) as [->|Hne].
  - destruct (keepProp row (k, v')) eqn:Hkeep.
    + simpl. by rewrite String.eqb_refl.
    + apply getProp_None. intros Hin. apply Hnin.
      apply list_elem_of_fmap in Hin as ([k2 v2] & -> & Hin).
      apply list_elem_of_filter in Hin as [_ Hin].
      apply list_elem_of_fmap. by exists (k2, v2).
  - destruct (keepProp row (k', v')).
    + simpl. destruct (String.eqb_spec k' k); [done|]. by apply IH.
    + by apply IH.
Qed.

Lemma props_keys_NoDup analysis row : NoDup (props analysis row).*1.
Proof.
  unfold props, addressProps, nonProxyProps.
  rewrite !fmap_app, baseProps_keys.
  repeat match goal with
         | |- context [if ?c then _ else _] => destruct c
         end; simpl; by apply (bool_decide_unpack _).
Qed.

Lemma stored_filteredProps analysis row k old :
  stored (filteredProps analysis row) k old
  = match getProp k (props analysis row) with
    | Some v => if keepProp row (k, v) then v else old
    | None => old
    end.
Proof.
  unfold stored, filteredProps.
  rewrite getProp_filter by apply props_keys_NoDup.
  destruct (getProp k (props analysis row)) as [v|]; [|done].
  by destruct (keepProp row (k, v)).
Qed.

Lemma getProp_app obj1 obj2 k :
  getProp k (obj1 ++ obj2)
  = match getProp k obj1 with
    | Some v => Some v
    | None => getProp k obj2
    end.
Proof.
  induction obj1 as [|[k' v'] rest IH]; simpl; [done|].
  by destruct (String.eqb k' k).
Qed.

Lemma trueLike_JBool b : trueLike (JBool b) = b.
Proof. by destruct b. Qed.

Lemma ofOpt_null o : notNullish (ofOpt o) = false → ofOpt o = JNull.
Proof. by destruct o. Qed.

Lemma keepProp_datacenter row v :
  keepProp row ("datacenter", v)
  = if strictEq v (existingDatacenter row) then false else notNullish v.
Proof. reflexivity. Qed.

Section SecondRun.
Variables (analysis : Classification) (row : Row).
Let row' := applySet (filteredProps analysis row) row.

Lemma second_isBotAlready : isBotAlready row' = isBot analysis.
Proof.
  unfold isBotAlready, row', applySet. simpl.
  rewrite stored_filteredProps. simpl.
  unfold keepProp. simpl.
  destruct (strictEq _ _) eqn:E.
  - apply strictEq_true in E. by injection E as ->.
  - simpl. apply trueLike_JBool.
Qed.

Lemma second_isGoodAlready :
  isBot analysis = true →
  isGoodAlready row' = default false (isGoodBot analysis).
Proof.
  intros Hbot. unfold isGoodAlready, row', applySet. simpl.
  rewrite stored_filteredProps. simpl. rewrite Hbot.
  unfold keepProp. simpl.
  destruct (strictEq _ _) eqn:E.
  - apply strictEq_true in E. by injection E as ->.
  - simpl. apply trueLike_JBool.
Qed.

Lemma second_datacenter :
  let v := ofOpt (orElse (datacenterName analysis) None) in
  strictEq v (existingDatacenter row') = true ∨ v = JNull.
Proof.
  intros v. unfold row', applySet. simpl.
  rewrite stored_filteredProps. simpl. fold v.
  unfold keepProp. simpl.
  destruct (strictEq v (existingDatacenter row)) eqn:E; [by left|].
  destruct (notNullish v) eqn:N.
  - left. apply strictEq_refl.
  - right. by apply ofOpt_null.
Qed.

Lemma second_latestIp :
  toBoolean (processedIp row) = true →
  existingLatestIp row' = processedIp row.
Proof.
  intros Hip. unfold row', applySet. simpl.
  rewrite stored_filteredProps. unfold props.
  rewrite !getProp_app. simpl getProp at 1.
  unfold addressProps, nonProxyProps. rewrite Hip. simpl andb.
  destruct (strictEq (processedIp row) (existingLatestIp row)) eqn:E.
  - apply strictEq_true in E. simpl.
    repeat match goal with
           | |- context [if ?c then _ else _] => destruct c
           end; done.
  - destruct (toBoolean (existingInitialIp row)); simpl;
      by rewrite E, (toBoolean_notNullish _ Hip).
Qed.

Lemma second_initialIp :
  existingInitialIp row' = existingInitialIp row
  ∨ toBoolean (existingInitialIp row) = false
    ∧ existingInitialIp row' = processedIp row.
Proof.
  unfold row', applySet. simpl.
  rewrite stored_filteredProps.
  destruct (getProp "$initial_ip" (props analysis row)) as [v|] eqn:Hg;
    [|by left].
  apply getProp_Some, initial_ip_in_props in Hg as (-> & _ & _ & Hinit).
  destruct (keepProp _ _); [by right | by left].
Qed.

Lemma second_nonProxyIp :
  isBot analysis = false → isDatacenter analysis = false →
  toBoolean (processedIp row) = true →
  existingLatestNonProxyIp row' = processedIp row.
Proof.
  intros Hbot Hdc Hip. unfold row', applySet. simpl.
  rewrite stored_filteredProps. unfold props.
  rewrite !getProp_app. simpl getProp at 1.
  assert (Ha : getProp "$latest_nonproxy_ip" (addressProps row) = None).
  { apply getProp_None. intros Hin.
    apply list_elem_of_fmap in Hin as ([k v] & Hk & Hin). simpl in Hk.
    subst k. apply addressProps_elem in Hin. naive_solver. }
  rewrite Ha. unfold nonProxyProps. rewrite Hbot, Hdc, Hip. simpl andb.
  destruct (strictEq _ _) eqn:E.
  - apply strictEq_true in E. rewrite E, Hip. by simpl.
  - rewrite andb_false_r. simpl.
    unfold keepProp. simpl. rewrite strictEq_false in E.
    destruct (strictEq (processedIp row) _) eqn:E2.
    + apply strictEq_true in E2. congruence.
    + by rewrite (toBoolean_notNullish _ Hip).
Qed.

Lemma second_addressProps : addressProps row' = [].
Proof.
  unfold addressProps.
  destruct (toBoolean (processedIp row')) eqn:Hip; [|done].
  change (processedIp row') with (processedIp row) in *.
  rewrite second_latestIp by done. by rewrite strictEq_refl.
Qed.

Lemma second_nonProxyProps : nonProxyProps analysis row' = [].
Proof.
  unfold nonProxyProps.
  destruct (isBot analysis) eqn:Hbot; [done|].
  destruct (isDatacenter analysis) eqn:Hdc; [done|].
  destruct (toBoolean (processedIp row')) eqn:Hip; [|done].
  change (processedIp row') with (processedIp row) in *.
  rewrite second_nonProxyIp by done. rewrite Hip, strictEq_refl. done.
Qed.

(** On the second run only the properties without a stored counterpart
    can be in the patch. *)
Lemma second_filteredProps :
  filteredProps analysis row'
  = filter (λ kv, notNullish kv.2 = true)
      [ ("bot_name", ofOpt (orElse (botName analysis) None));
        ("bot_type", ofOpt (orElse (botType analysis) None));
        ("bot_identification_source",
          ofOpt (orElse (botSource analysis) None)) ].
Proof.
  unfold filteredProps, props.
  rewrite second_addressProps, second_nonProxyProps, !app_nil_r.
  unfold baseProps. rewrite !filter_cons_bool, filter_nil.
  assert (H1 : keepProp row' ("is_bot", JBool (isBot analysis)) = false).
  { unfold keepProp. simpl. by rewrite second_isBotAlready, strictEq_refl. }
  assert (H2 : keepProp row'
                 ("is_good_bot",
                   if isBot analysis
                   then JBool (default false (isGoodBot analysis))
                   else JNull) = false).
  { unfold keepProp. simpl. destruct (isBot analysis) eqn:Hbot.
    - by rewrite second_isGoodAlready, strictEq_refl.
    - done. }
  assert (H3 : keepProp row'
                 ("datacenter",
                   ofOpt (orElse (datacenterName analysis) None)) = false).
  { rewrite keepProp_datacenter.
    destruct second_datacenter as [-> | ->]; [done|].
    by destruct (strictEq _ _). }
  rewrite H1, H2, H3. reflexivity.
Qed.

End SecondRun.

End Planner.

(** ** The classification resolver *)

Section Resolver.
Context `{UserAgentMatcher}.
Implicit Types (botData : BotData) (ip : jsval) (m : Entry) (row : Row).

(** [checkBot] is the IP classification, overridden by the user-agent
    match when the IP classification is no bot. *)
Lemma checkBot_unfold botData ip userAgent :
  checkBot botData ip userAgent
  = match userAgent with
    | Some ua =>
        if negb (isBot (ipClassification botData ip)) && truthy ua && isbot ua
        then applyUserAgent ua (ipClassification botData ip)
        else ipClassification botData ip
    | None => ipClassification botData ip
    end.
Proof. by destruct userAgent. Qed.

Lemma ipClassification_unfold botData ip :
  ipClassification botData ip
  = match ipMatch botData ip with
    | Some m => applyMatch m initialResult
    | None => initialResult
    end.
Proof. reflexivity. Qed.


(** What [applyMatch] makes of a bot match. *)
Lemma applyMatch_bot m :
  type m = KBot →
  applyMatch m initialResult
  = {| isBot := true;
       isGoodBot := match rating m with
                    | RGood => Some true
                    | RBad => Some false
                    | RNeutral => None
                    end;
       botName := scrub (if truthy (name m) && negb (String.eqb (name m) "Unknown")
                         then Some (name m) else None);
       botType := Some (if truthy (category m)
                           && negb (String.eqb (category m) "Uncategorized")
                        then category m else "Unknown");
       botSource := Some (if truthy (source m) then source m else "IP List");
       isDatacenter := truthyO (datacenter m);
       datacenterName := if truthyO (datacenter m)
                         then scrub (datacenter m) else None |}.
Proof.
  intros Hty. unfold applyMatch. rewrite Hty. simpl.
  destruct (truthyO (datacenter m)) eqn:Hd; simpl; [|done].
  unfold orElse. by rewrite Hd.
Qed.

(** What [applyMatch] makes of a datacenter match. *)
Lemma applyMatch_datacenter m :
  type m = KDatacenter →
  applyMatch m initialResult
  = {| isBot := false;
       isGoodBot := None;
       botName := None;
       botType := None;
       botSource := None;
       isDatacenter := true;
       datacenterName := scrub (orElse (datacenter m) (Some (name m))) |}.
Proof. intros Hty. unfold applyMatch. by rewrite Hty. Qed.

Lemma truthy_or_default (s d : string) :
  truthy d = true → truthy (if truthy s then s else d) = true.
Proof. intros Hd. by destruct (truthy s) eqn:E. Qed.

Lemma ipClassification_wellFormed botData ip :
  wellFormed (ipClassification botData ip).
Proof.
  rewrite ipClassification_unfold.
  destruct (ipMatch botData ip) as [m|]; [|done].
  destruct (type m) eqn:Hty.
  - rewrite applyMatch_bot by done. unfold wellFormed. simpl. split.
    + eexists. split; [done|].
      by destruct (truthy (category m) && _) eqn:E;
        [apply andb_prop in E as [? _]|].
    + eexists. split; [done|]. by apply truthy_or_default.
  - by rewrite applyMatch_datacenter.
Qed.

Lemma checkBot_wellFormed botData ip userAgent :
  wellFormed (checkBot botData ip userAgent).
Proof.
  rewrite checkBot_unfold.
  pose proof (ipClassification_wellFormed botData ip) as Hwf.
  destruct userAgent as [ua|]; [|done].
  destruct (_ && _); [|done].
  unfold wellFormed, applyUserAgent. simpl. split; by eexists.
Qed.

Lemma analyse_wellFormed botData row : wellFormed (analyse botData row).
Proof.
  unfold analyse.
  pose proof (checkBot_wellFormed botData (processedIp row) (userAgent row)) as H1.
  pose proof (checkBot_wellFormed botData (existingInitialIp row) (userAgent row)) as H2.
  destruct (_ && _); [|done].
  destruct (isBot (checkBot botData (existingInitialIp row) (userAgent row))) eqn:E.
  - by destruct (isDatacenter _).
  - destruct (_ && _); [|done].
    unfold wellFormed in *. simpl.
    by destruct (isBot (checkBot botData (processedIp row) (userAgent row))).
Qed.


(** C8 (as amended): when the index gives no bot and the user agent
    matches, the classification is a good bot of category "Crawler" with
    source "isbot (User Agent)"; the datacenter fields stay those of the
    index; the name is the label after trimming and the override table,
    and it is null when the label has fewer than two alphanumeric
    characters or when that normalised label is "GoodBot", which is the
    case for the label "GoodBot" itself when no override applies. *)
Theorem user_agent_classification botData ip ua :
  isBot (ipClassification botData ip) = false →
  truthy ua = true →
  isbot ua = true →
  let r := checkBot botData ip (Some ua) in
  isBot r = true
  ∧ botType r = Some "Crawler"
  ∧ botSource r = Some "isbot (User Agent)"
  ∧ isGoodBot r = Some true
  ∧ isDatacenter r = isDatacenter (ipClassification botData ip)
  ∧ datacenterName r = datacenterName (ipClassification botData ip)
  ∧ botName r = labelName ua (isbotMatch ua)
  ∧ (∀ label, isbotMatch ua = Some label →
              (String.length (stripNonAlnum label) < 2)%nat →
              botName r = None)
  ∧ (∀ label, isbotMatch ua = Some label →
              normalizeLabel ua label = "GoodBot" → botName r = None)
  ∧ (isbotMatch ua = Some "GoodBot" →
     includes "LinkCheck by Siteimprove.com" ua = false →
     includes "Sogou web spider" ua = false →
     includes "Archive-It" ua = false →
     botName r = None).
Proof.
  intros Hip Hua Hbot r.
  pose proof (ipClassification_wellFormed botData ip) as Hwf.
  unfold wellFormed in Hwf. rewrite Hip in Hwf.
  destruct Hwf as (Hn & _ & _ & _).
  assert (Hr : r = applyUserAgent ua (ipClassification botData ip)).
  { subst r. rewrite checkBot_unfold. by rewrite Hip, Hua, Hbot. }
  assert (Hname : botName r = labelName ua (isbotMatch ua)).
  { rewrite Hr. unfold applyUserAgent, labelName. simpl. rewrite Hn.
    destruct (isbotMatch ua) as [label|]; [|done]. by destruct (_ && _). }
  rewrite Hname. rewrite Hr. unfold applyUserAgent. simpl.
  repeat split.
  - intros label -> Hlen. unfold labelName.
    destruct (Z.leb_spec 2 (Z.of_nat (String.length (stripNonAlnum label))));
      [lia|]. by rewrite andb_false_r.
  - intros label -> Hgood. unfold labelName. rewrite Hgood. simpl.
    by destruct (_ && _).
  - intros -> H1 H2 H3. unfold labelName, normalizeLabel.
    rewrite H1, H2, H3. reflexivity.
Qed.

(** C4 (as amended): the resolver is re-run on the initial address exactly
    when the primary classification is no bot and the record has an
    initial address that differs from the current one. A bot finding
    there replaces the primary result as a whole. Otherwise the result is
    the primary one, with the datacenter finding of the initial address
    merged in when the primary result had none; a datacenter
    classification of the primary result is then kept. *)
Theorem fallback_recheck botData row :
  let primary := checkBot botData (processedIp row) (userAgent row) in
  let initial := checkBot botData (existingInitialIp row) (userAgent row) in
  let rechecked :=
    negb (isBot primary) && toBoolean (existingInitialIp row)
    && negb (strictEq (existingInitialIp row) (processedIp row)) in
  (rechecked = false → analyse botData row = primary)
  ∧ (rechecked = true → isBot initial = true → analyse botData row = initial)
  ∧ (rechecked = true → isBot initial = false →
     isBot (analyse botData row) = false
     ∧ (isDatacenter primary = true → analyse botData row = primary)
     ∧ (isDatacenter primary = false → isDatacenter initial = false →
        analyse botData row = primary)
     ∧ (isDatacenter primary = false → isDatacenter initial = true →
        analyse botData row
        = {| isBot := false;
             isGoodBot := isGoodBot primary;
             botName := botName primary;
             botType := botType primary;
             botSource := botSource primary;
             isDatacenter := true;
             datacenterName := datacenterName initial |})).
Proof.
  intros primary initial rechecked. unfold analyse.
  fold primary initial rechecked.
  split; [|split].
  - by intros ->.
  - intros -> Hb. rewrite Hb. by destruct (isDatacenter initial).
  - intros Hr Hb. rewrite Hr, Hb.
    assert (Hp : isBot primary = false).
    { subst rechecked. destruct (isBot primary); [done|done]. }
    split; [|split; [|split]].
    + by destruct (isDatacenter initial && negb (isDatacenter primary)).
    + intros ->. by rewrite andb_false_r.
    + by intros _ ->.
    + intros -> ->. simpl. by rewrite Hp.
Qed.

(** The row of the second run is classified as the row of the first. *)
Lemma analyse_second_run botData row analysis :
  analyse botData (applySet (filteredProps analysis row) row)
  = analyse botData row.
Proof.
  unfold analyse.
  change (processedIp (applySet _ row)) with (processedIp row).
  change (userAgent (applySet _ row)) with (userAgent row).
  destruct (second_initialIp analysis row) as [-> | [Hinit ->]]; [done|].
  rewrite strictEq_refl, Hinit. by rewrite !andb_false_r.
Qed.

(** C2 (as amended): on a second run over the row the first run left
    behind, the classification is the same and the patch holds no
    property that is compared with stored state. For a classification
    that is no bot the patch is empty and no event is emitted. For a bot
    the patch holds [bot_type] and [bot_identification_source] again,
    which have no stored counterpart, and an event is emitted again. *)
Theorem second_run_patch botData row :
  let analysis := analyse botData row in
  let row' := applySet (filteredProps analysis row) row in
  analyse botData row' = analysis
  ∧ (∀ k, k ∈ (filteredProps analysis row').*1 → k ∈ uncomparedProps)
  ∧ (isBot analysis = false →
     filteredProps analysis row' = [] ∧ processRow botData row' = None)
  ∧ (isBot analysis = true →
     "bot_type" ∈ (filteredProps analysis row').*1
     ∧ "bot_identification_source" ∈ (filteredProps analysis row').*1
     ∧ processRow botData row' ≠ None).
Proof.
  intros analysis row'.
  assert (Ha : analyse botData row' = analysis)
    by apply analyse_second_run.
  pose proof (analyse_wellFormed botData row) as Hwf.
  fold analysis in Hwf. unfold wellFormed in Hwf.
  pose proof (second_filteredProps analysis row) as Hf. fold row' in Hf.
  split; [done|]. split; [|split].
  - intros k Hk. rewrite Hf in Hk.
    apply list_elem_of_fmap in Hk as ([k' v] & -> & Hin).
    apply list_elem_of_filter in Hin as [_ Hin]. simpl.
    unfold uncomparedProps.
    rewrite !elem_of_cons, elem_of_nil in Hin.
    rewrite !elem_of_cons.
    destruct Hin as [[= -> _]|[[= -> _]|[[= -> _]|[]]]]; tauto.
  - intros Hbot. rewrite Hbot in Hwf. destruct Hwf as (Hn & Ht & Hs & _).
    assert (Hnil : filteredProps analysis row' = []).
    { rewrite Hf, Hn, Ht, Hs. reflexivity. }
    split; [done|].
    unfold processRow. rewrite Ha. unfold plan, eventName.
    rewrite Hnil, Hbot. reflexivity.
  - intros Hbot. rewrite Hbot in Hwf.
    destruct Hwf as [(t & Ht & Htt) (s & Hs & Hst)].
    assert (Hin1 : ("bot_type", JStr t) ∈ filteredProps analysis row').
    { rewrite Hf. apply list_elem_of_filter. split; [done|].
      rewrite Ht. unfold orElse. simpl. rewrite Htt.
      rewrite !elem_of_cons. tauto. }
    assert (Hin2 : ("bot_identification_source", JStr s)
                   ∈ filteredProps analysis row').
    { rewrite Hf. apply list_elem_of_filter. split; [done|].
      rewrite Hs. unfold orElse. simpl. rewrite Hst.
      rewrite !elem_of_cons. tauto. }
    split; [|split].
    + apply list_elem_of_fmap. by exists ("bot_type", JStr t).
    + apply list_elem_of_fmap. by exists ("bot_identification_source", JStr s).
    + unfold processRow. rewrite Ha. unfold plan.
      destruct (filteredProps analysis row') as [|x l] eqn:E.
      * by apply elem_of_nil in Hin1.
      * done.
Qed.

End Resolver.

(** ** Strings: trimming, splitting and the text of numbers *)

Section Strings.
Implicit Types (s t acc : string) (c : ascii).

Lemma string_app_cons c s t : String c s +:+ t = String c (s +:+ t).
Proof. reflexivity. Qed.

Lemma string_app_nil_l t : "" +:+ t = t.
Proof. reflexivity. Qed.

Ltac norm_app := rewrite ?string_app_cons, ?string_app_nil_l; simpl.

Lemma string_app_nil_r s : s +:+ "" = s.
Proof. induction s as [|c s IH]; norm_app; [done|]. by rewrite IH. Qed.

Lemma string_app_assoc s t u : (s +:+ t) +:+ u = s +:+ (t +:+ u).
Proof. induction s as [|c s IH]; norm_app; [done|]. by rewrite IH. Qed.

Lemma rev_app_rev_app s : ∀ acc t,
  String.rev_app (String.rev_app s acc) t = String.rev_app acc (s +:+ t).
Proof.
  induction s as [|c s IH]; intros acc t; norm_app; [done|].
  by rewrite IH.
Qed.

Lemma string_rev_involutive s : String.rev (String.rev s) = s.
Proof.
  unfold String.rev. rewrite rev_app_rev_app. simpl.
  apply string_app_nil_r.
Qed.

Lemma trimStart_clean s : startsClean s = true → trimStart s = s.
Proof. destruct s as [|c r]; simpl; [done|]. by destruct (isWhiteSpace c). Qed.

Lemma rev_app_app s : ∀ t acc,
  String.rev_app (s +:+ t) acc = String.rev_app t (String.rev_app s acc).
Proof.
  induction s as [|c s IH]; intros t acc; norm_app; [done|]. by rewrite IH.
Qed.

Lemma startsClean_rev_app s : ∀ t,
  startsClean (String.rev t) = true →
  startsClean (String.rev (s +:+ t)) = true.
Proof.
  intros t Ht. unfold String.rev in *. rewrite rev_app_app.
  revert Ht. generalize (String.rev_app s "") as acc.
  assert (Hgen : ∀ t acc1 acc2,
             startsClean (String.rev_app t acc1) = true →
             t ≠ "" → startsClean (String.rev_app t acc2) = true).
  { clear. induction t as [|c t IH]; intros acc1 acc2 H1 Hne; [done|].
    simpl in *. destruct t as [|c' t']; [done|].
    eapply IH; [exact H1|done]. }
  intros acc Hc. destruct t as [|c t]; [done|].
  eapply Hgen; [exact Hc|done].
Qed.

(** A string that starts and ends with a character that is no white
    space is its own trim. *)
Lemma trim_clean s :
  startsClean s = true → startsClean (String.rev s) = true → trim s = s.
Proof.
  intros Hs He. unfold trim, trimEnd.
  rewrite (trimStart_clean s Hs), (trimStart_clean _ He).
  apply string_rev_involutive.
Qed.

Lemma startsClean_app s t : startsClean s = true → startsClean (s +:+ t) = true.
Proof. by destruct s. Qed.

Lemma truthy_startsClean s : startsClean s = true → truthy s = true.
Proof. by destruct s. Qed.

Lemma noChar_app c s t :
  noChar c (s +:+ t) = noChar c s && noChar c t.
Proof.
  induction s as [|x s IH]; norm_app; [done|].
  rewrite IH. by destruct (Ascii.eqb x c).
Qed.

Lemma split_noChar c s : noChar c s = true → split c s = [s].
Proof.
  induction s as [|x s IH]; simpl; [done|].
  destruct (Ascii.eqb x c); simpl; [done|].
  intros Hs. by rewrite IH.
Qed.

Lemma split_app c s t :
  noChar c s = true → split c (s +:+ String c t) = s :: split c t.
Proof.
  induction s as [|x s IH]; norm_app.
  - by rewrite Ascii.eqb_refl.
  - destruct (Ascii.eqb x c); simpl; [done|].
    intros Hs. by rewrite IH.
Qed.

Lemma includes_char c s t : includes (String c "") (s +:+ String c t) = true.
Proof.
  induction s as [|x s IH]; norm_app.
  - by rewrite Ascii.eqb_refl.
  - rewrite IH. by destruct (Ascii.eqb c x).
Qed.

Lemma includes_noChar c s : noChar c s = true → includes (String c "") s = false.
Proof.
  induction s as [|x s IH]; simpl; [done|].
  rewrite (Ascii.eqb_sym c x).
  destruct (Ascii.eqb x c); simpl; [done|]. done.
Qed.

(** The text of every number from 0 to 255, by enumeration. *)
Lemma decimalText_byte z : 0 ≤ z ≤ 255 → decimalText z = true.
Proof.
  intros Hz.
  assert (Hall : forallb decimalText (seqZ 0 256) = true) by by vm_compute.
  rewrite forallb_forall in Hall. apply Hall.
  apply list_elem_of_In, elem_of_seqZ. lia.
Qed.

Lemma decimalText_spec z :
  0 ≤ z ≤ 255 →
  parseInt10 (pretty z) = Some z
  ∧ noChar "." (pretty z) = true ∧ noChar "/" (pretty z) = true
  ∧ startsClean (pretty z) = true
  ∧ startsClean (String.rev (pretty z)) = true.
Proof.
  intros Hz. pose proof (decimalText_byte z Hz) as H.
  unfold decimalText in H.
  repeat (apply andb_prop in H as [H ?]).
  apply bool_decide_eq_true in H. done.
Qed.

Lemma dot_app t : "." +:+ t = String "." t.
Proof. reflexivity. Qed.

Lemma slash_app t : "/" +:+ t = String "/" t.
Proof. reflexivity. Qed.

(** [ipToLong] reads a dotted quad as its 32-bit value. *)
Lemma ipToLong_dotted (a b c d : Z) :
  octet a → octet b → octet c → octet d →
  ipToLong (JStr (dotted a b c d)) = ipValue a b c d.
Proof.
  unfold octet. intros Ha Hb Hc Hd.
  destruct (decimalText_spec a Ha) as (Pa & Da & _ & Sa & _).
  destruct (decimalText_spec b Hb) as (Pb & Db & _ & _ & _).
  destruct (decimalText_spec c Hc) as (Pc & Dc & _ & _ & _).
  destruct (decimalText_spec d Hd) as (Pd & Dd & _ & _ & _).
  unfold ipToLong, dotted.
  rewrite (truthy_startsClean _ (startsClean_app _ _ Sa)). simpl negb.
  cbv iota.
  rewrite !dot_app, !split_app, split_noChar by done.
  rewrite Pa, Pb, Pc, Pd. simpl.
  unfold toUint32, ipValue. apply Z.mod_small. lia.
Qed.

Lemma dotted_noSlash (a b c d : Z) :
  octet a → octet b → octet c → octet d → noChar "/" (dotted a b c d) = true.
Proof.
  unfold octet. intros Ha Hb Hc Hd.
  destruct (decimalText_spec a Ha) as (_ & _ & Da & _ & _).
  destruct (decimalText_spec b Hb) as (_ & _ & Db & _ & _).
  destruct (decimalText_spec c Hc) as (_ & _ & Dc & _ & _).
  destruct (decimalText_spec d Hd) as (_ & _ & Dd & _ & _).
  unfold dotted. rewrite !noChar_app, Da, Db, Dc, Dd. reflexivity.
Qed.

(** The text of a CIDR block is clean, holds a slash, and splits into the
    dotted quad and the prefix length. *)
Lemma cidr_text (a b c d n : Z) :
  octet a → octet b → octet c → octet d → 0 ≤ n ≤ 255 →
  truthy (cidr a b c d n) = true
  ∧ trim (cidr a b c d n) = cidr a b c d n
  ∧ includes "/" (cidr a b c d n) = true
  ∧ split "/" (cidr a b c d n) = [dotted a b c d; pretty n]
  ∧ parseInt10 (pretty n) = Some n.
Proof.
  intros Ha Hb Hc Hd Hn.
  destruct (decimalText_spec a Ha) as (_ & _ & _ & Sa & _).
  destruct (decimalText_spec n Hn) as (Pn & _ & Dn & _ & En).
  assert (Hs : startsClean (cidr a b c d n) = true).
  { unfold cidr, dotted. rewrite !string_app_assoc. by apply startsClean_app. }
  split; [by apply truthy_startsClean|]. split; [|split; [|split]].
  - apply trim_clean; [done|].
    unfold cidr. rewrite <- string_app_assoc. by apply startsClean_rev_app.
  - unfold cidr. rewrite slash_app. apply includes_char.
  - unfold cidr. rewrite slash_app, split_app, split_noChar; [done..|].
    by apply dotted_noSlash.
  - done.
Qed.

End Strings.

(** ** The bounds of a CIDR block *)

Section Bounds.
Implicit Types (A n k x : Z).

(** [x & -(2^k)] clears the low [k] bits. *)
Lemma land_neg_pow2 x k : 0 ≤ k → Z.land x (- 2 ^ k) = x - x mod 2 ^ k.
Proof.
  intros Hk.
  replace (- 2 ^ k) with (Z.lnot (Z.ones k)).
  2:{ rewrite Z.ones_equiv. unfold Z.lnot. lia. }
  rewrite <- Z.ldiff_land, Z.ldiff_ones_r by done.
  rewrite Z.shiftr_div_pow2, Z.shiftl_mul_pow2 by done.
  pose proof (Z.div_mod x (2 ^ k)). lia.
Qed.

Lemma toInt32_neg_pow2 k : 0 ≤ k ≤ 31 → toInt32 (- 2 ^ k) = - 2 ^ k.
Proof.
  intros Hk. unfold toInt32.
  assert (H1 : 1 ≤ 2 ^ k ≤ 2 ^ 31).
  { split; [lia|]. apply Z.pow_le_mono_r; lia. }
  change (2 ^ 31) with 2147483648 in *.
  change (2 ^ 32) with 4294967296.
  replace ((- 2 ^ k) mod 4294967296) with (4294967296 - 2 ^ k).
  2:{ apply Z.mod_unique with (q := -1); lia. }
  destruct (Z.ltb_spec (4294967296 - 2 ^ k) 2147483648); lia.
Qed.

(** The mask [0xFFFFFFFF << (32 - n)] for a prefix length from 1 to 32. *)
Lemma shl_mask n : 1 ≤ n ≤ 32 → shl 4294967295 (32 - n) = - 2 ^ (32 - n).
Proof.
  intros Hn. unfold shl.
  rewrite (Z.mod_small (32 - n) 32) by lia.
  change (toInt32 4294967295) with (-1).
  replace (-1 * 2 ^ (32 - n)) with (- 2 ^ (32 - n)) by lia.
  apply toInt32_neg_pow2. lia.
Qed.

Lemma toInt32_congr A :
  0 ≤ A < 2 ^ 32 → toInt32 A = A ∨ toInt32 A = A - 2 ^ 32.
Proof.
  intros HA. unfold toInt32. rewrite Z.mod_small by done.
  destruct (A <? 2 ^ 31); auto.
Qed.

Lemma pow2_split k : 0 ≤ k ≤ 32 → 2 ^ 32 = 2 ^ k * 2 ^ (32 - k).
Proof. intros Hk. rewrite <- Z.pow_add_r by lia. f_equal. lia. Qed.

(** The start of a block is the address with its host bits cleared. *)
Lemma rangeStart_masked A n :
  0 ≤ A < 2 ^ 32 → 1 ≤ n ≤ 32 → rangeStart A n = networkStart A n.
Proof.
  intros HA Hn. unfold rangeStart, band, networkStart.
  rewrite shl_mask by done.
  rewrite toInt32_neg_pow2 by lia.
  rewrite land_neg_pow2 by lia.
  set (k := 32 - n). assert (Hk : 0 ≤ k ≤ 31) by (subst k; lia).
  assert (Hp : 0 < 2 ^ k) by (apply Z.pow_pos_nonneg; lia).
  pose proof (Z.mod_pos_bound A (2 ^ k) Hp) as Hm.
  pose proof (Z.mod_le A (2 ^ k) ltac:(lia) Hp) as Hle.
  unfold toUint32.
  destruct (toInt32_congr A HA) as [-> | ->].
  - apply Z.mod_small. lia.
  - assert (Hmod : (A - 2 ^ 32) mod 2 ^ k = A mod 2 ^ k).
    { rewrite (pow2_split k) by lia.
      replace (A - 2 ^ k * 2 ^ (32 - k)) with (A + (- 2 ^ (32 - k)) * 2 ^ k) by lia.
      apply Z.mod_add. lia. }
    rewrite Hmod.
    replace (A - 2 ^ 32 - A mod 2 ^ k)
      with (A - A mod 2 ^ k + (-1) * 2 ^ 32) by lia.
    rewrite Z.mod_add by lia. apply Z.mod_small. lia.
Qed.

Lemma network_bounds A n :
  0 ≤ A < 2 ^ 32 → 1 ≤ n ≤ 32 →
  0 ≤ networkStart A n ≤ A ∧ A ≤ networkEnd A n < 2 ^ 32.
Proof.
  intros HA Hn. unfold networkEnd, networkStart.
  set (k := 32 - n). assert (Hk : 0 ≤ k ≤ 31) by (subst k; lia).
  assert (Hp : 0 < 2 ^ k) by (apply Z.pow_pos_nonneg; lia).
  pose proof (Z.mod_pos_bound A (2 ^ k) Hp) as Hm.
  pose proof (Z.div_mod A (2 ^ k) ltac:(lia)) as Hd.
  assert (Hq : A / 2 ^ k < 2 ^ (32 - k)).
  { apply Z.div_lt_upper_bound; [done|]. rewrite <- pow2_split by lia. lia. }
  assert (Hmul : 2 ^ k * (A / 2 ^ k + 1) ≤ 2 ^ k * 2 ^ (32 - k))
    by (apply Z.mul_le_mono_nonneg_l; lia).
  rewrite <- pow2_split, Z.mul_add_distr_l in Hmul by lia.
  pose proof (Z.mod_le A (2 ^ k) ltac:(lia) Hp) as Hle. lia.
Qed.

Lemma rangeEnd_block A n :
  0 ≤ A < 2 ^ 32 → 1 ≤ n ≤ 32 →
  rangeEnd (networkStart A n) n = networkEnd A n.
Proof.
  intros HA Hn. pose proof (network_bounds A n HA Hn) as Hb.
  unfold rangeEnd. destruct (Z.leb_spec n 32); [|lia].
  unfold toUint32, networkEnd in *.
  replace (networkStart A n + (2 ^ (32 - n) - 1))
    with (networkStart A n + 2 ^ (32 - n) - 1) by lia.
  apply Z.mod_small. lia.
Qed.


Lemma ipValue_bounds (a b c d : Z) :
  octet a → octet b → octet c → octet d → 0 ≤ ipValue a b c d < 2 ^ 32.
Proof. unfold octet, ipValue. lia. Qed.


(** For the prefix length 0 the shift count is 32, which JavaScript takes
    modulo 32: the mask keeps every bit, and the range runs from the
    address itself to the address before it. *)
Lemma cidrBounds_slash_zero (a b c d : Z) :
  octet a → octet b → octet c → octet d →
  cidrBounds (cidr a b c d 0)
  = Some (ipValue a b c d, (ipValue a b c d + (2 ^ 32 - 1)) mod 2 ^ 32).
Proof.
  intros Ha Hb Hc Hd.
  destruct (cidr_text a b c d 0) as (_ & _ & _ & Hsplit & Hparse);
    [done..|lia|].
  unfold cidrBounds. rewrite Hsplit, Hparse. cbn [mbind option_bind].
  rewrite ipToLong_dotted by done.
  pose proof (ipValue_bounds a b c d Ha Hb Hc Hd) as HA.
  assert (Hstart : rangeStart (ipValue a b c d) 0 = ipValue a b c d).
  { unfold rangeStart, band.
    change (shl 4294967295 (32 - 0)) with (-1).
    change (toInt32 (-1)) with (-1). rewrite Z.land_m1_r.
    unfold toUint32.
    destruct (toInt32_congr _ HA) as [-> | ->].
    - by apply Z.mod_small.
    - replace (ipValue a b c d - 2 ^ 32)
        with (ipValue a b c d + (-1) * 2 ^ 32) by lia.
      rewrite Z.mod_add by lia. by apply Z.mod_small. }
  rewrite Hstart. reflexivity.
Qed.

End Bounds.

(** ** The binary search of [findInRange] *)

Section Search.
Implicit Types (rs : list RangeRec) (r : RangeRec) (t low high : Z).

(** The loop never needs more iterations than [high - low + 1]: from
    there on the result does not depend on the fuel. *)
Lemma search_fuel fuel1 : ∀ fuel2 rs t low high,
  high - low + 1 ≤ Z.of_nat fuel1 → (fuel1 ≤ fuel2)%nat →
  search fuel1 rs t low high = search fuel2 rs t low high.
Proof.
  induction fuel1 as [|f IH]; intros fuel2 rs t low high Hm Hle.
  - destruct fuel2 as [|f2]; [done|]. simpl.
    destruct (Z.leb_spec low high); [lia|done].
  - destruct fuel2 as [|f2]; [lia|]. simpl.
    destruct (Z.leb_spec low high) as [Hlh|]; [|done].
    assert (Hmid : low ≤ (low + high) / 2 ≤ high).
    { split; [apply Z.div_le_lower_bound | apply Z.div_le_upper_bound]; lia. }
    destruct (rs !! Z.to_nat ((low + high) / 2)) as [r|]; [|done].
    destruct (_ && _); [done|].
    destruct (t <? start r); apply IH; lia.
Qed.

(** Whatever the search returns is the data of a range that holds the
    target. *)
Lemma search_sound fuel : ∀ rs t low high e,
  search fuel rs t low high = Some e →
  ∃ k r, rs !! k = Some r ∧ e = data r ∧ start r ≤ t ≤ end_ r.
Proof.
  induction fuel as [|f IH]; intros rs t low high e; simpl; [done|].
  destruct (low <=? high); [|done].
  destruct (rs !! Z.to_nat ((low + high) / 2)) as [r|] eqn:Hr; [|done].
  destruct (Z.leb_spec (start r) t); simpl.
  - destruct (Z.leb_spec t (end_ r)).
    + intros [= <-]. exists (Z.to_nat ((low + high) / 2)), r. auto.
    + destruct (t <? start r); apply IH.
  - destruct (t <? start r); apply IH.
Qed.

(** In a list ordered by [start] whose ranges are apart, the search finds
    the range that holds the target. *)
Lemma search_found fuel : ∀ rs t low high k r,
  ordered rs → apart rs →
  rs !! k = Some r → start r ≤ t ≤ end_ r →
  0 ≤ low ≤ Z.of_nat k → Z.of_nat k ≤ high < Z.of_nat (length rs) →
  high - low + 1 ≤ Z.of_nat fuel →
  search fuel rs t low high = Some (data r).
Proof.
  induction fuel as [|f IH];
    intros rs t low high k r Hord Hap Hk Ht Hlow Hhigh Hfuel; [lia|].
  simpl. destruct (Z.leb_spec low high) as [Hlh|]; [|lia].
  assert (Hmid : low ≤ (low + high) / 2 ≤ high).
  { split; [apply Z.div_le_lower_bound | apply Z.div_le_upper_bound]; lia. }
  set (mid := (low + high) / 2) in *.
  destruct (rs !! Z.to_nat mid) as [rm|] eqn:Hrm.
  2:{ apply lookup_ge_None in Hrm. lia. }
  destruct (lt_eq_lt_dec (Z.to_nat mid) k) as [[Hlt | Heq] | Hgt].
  - (* the range at [mid] lies below the target *)
    pose proof (Hord _ _ _ _ Hrm Hk Hlt) as Ho.
    pose proof (Hap _ _ _ _ Hrm Hk Hlt) as Ha.
    destruct (Z.leb_spec (start rm) t); [|lia].
    destruct (Z.leb_spec t (end_ rm)); [lia|]. simpl.
    destruct (Z.ltb_spec t (start rm)); [lia|].
    apply (IH rs t (mid + 1) high k r); try done; lia.
  - rewrite Heq, Hk in Hrm. injection Hrm as <-.
    destruct (Z.leb_spec (start r) t); [|lia].
    destruct (Z.leb_spec t (end_ r)); [done|lia].
  - (* the range at [mid] lies above the target *)
    pose proof (Hord _ _ _ _ Hk Hrm Hgt) as Ho.
    pose proof (Hap _ _ _ _ Hk Hrm Hgt) as Ha.
    destruct (Z.leb_spec (start rm) t); [lia|]. simpl.
    destruct (Z.ltb_spec t (start rm)); [|lia].
    apply (IH rs t low (mid - 1) k r); try done; lia.
Qed.

Lemma separated_nonempty rs r :
  separated rs = true → r ∈ rs → start r ≤ end_ r.
Proof.
  induction rs as [|x rest IH]; intros Hsep Hin.
  - by apply elem_of_nil in Hin.
  - simpl in Hsep. apply andb_prop in Hsep as [Hsep Hrest].
    apply andb_prop in Hsep as [Hx _]. apply Z.leb_le in Hx.
    apply elem_of_cons in Hin as [-> | Hin]; auto.
Qed.

Lemma separated_lookup rs : ∀ i j ri rj,
  separated rs = true →
  rs !! i = Some ri → rs !! j = Some rj → (i < j)%nat →
  end_ ri < start rj ∨ end_ rj < start ri.
Proof.
  induction rs as [|x rest IH]; intros i j ri rj Hsep Hi Hj Hlt; [done|].
  simpl in Hsep. apply andb_prop in Hsep as [Hsep Hrest].
  apply andb_prop in Hsep as [Hx Hall].
  destruct j as [|j]; [lia|]. simpl in Hj.
  destruct i as [|i]; simpl in Hi.
  - injection Hi as <-.
    rewrite forallb_forall in Hall.
    assert (Hin : In rj rest).
    { apply list_elem_of_In. by eapply list_elem_of_lookup_2. }
    specialize (Hall rj Hin). apply orb_prop in Hall.
    destruct Hall as [Hc|Hc]; apply Z.ltb_lt in Hc; lia.
  - apply (IH i j ri rj Hrest Hi Hj). lia.
Qed.

Lemma ordered_separated_apart rs :
  ordered rs → separated rs = true → apart rs.
Proof.
  intros Hord Hsep i j ri rj Hi Hj Hlt.
  pose proof (Hord _ _ _ _ Hi Hj Hlt).
  assert (start rj ≤ end_ rj).
  { apply (separated_nonempty rs); [done|]. by eapply list_elem_of_lookup_2. }
  destruct (separated_lookup rs i j ri rj Hsep Hi Hj Hlt); lia.
Qed.

(** [insertRange] and [sortRanges] keep the elements and order them. *)
Lemma elem_of_insertRange r x l : x ∈ insertRange r l ↔ x = r ∨ x ∈ l.
Proof.
  induction l as [|y l IH]; simpl.
  - rewrite list_elem_of_singleton, elem_of_nil. tauto.
  - destruct (start r <=? start y).
    + by rewrite elem_of_cons.
    + rewrite !elem_of_cons, IH. tauto.
Qed.

Lemma elem_of_sortRanges x l : x ∈ sortRanges l ↔ x ∈ l.
Proof.
  induction l as [|y l IH]; simpl; [done|].
  rewrite elem_of_insertRange, elem_of_cons, IH. tauto.
Qed.

Lemma insertRange_sorted r l :
  StronglySorted byStart l → StronglySorted byStart (insertRange r l).
Proof.
  induction 1 as [|y l Hs IH Hall]; simpl.
  - repeat constructor.
  - destruct (Z.leb_spec (start r) (start y)).
    + constructor; [by constructor|].
      constructor; [done|].
      eapply Forall_impl; [exact Hall|]. unfold byStart. intros; lia.
    + constructor; [done|].
      apply Forall_forall. intros x Hx.
      apply elem_of_insertRange in Hx as [-> | Hx].
      * unfold byStart. lia.
      * rewrite Forall_forall in Hall. auto.
Qed.

Lemma sortRanges_sorted l : StronglySorted byStart (sortRanges l).
Proof.
  induction l as [|y l IH]; simpl; [constructor|].
  by apply insertRange_sorted.
Qed.

Lemma StronglySorted_ordered rs : StronglySorted byStart rs → ordered rs.
Proof.
  induction 1 as [|y l Hs IH Hall]; intros i j ri rj Hi Hj Hlt; [done|].
  destruct j as [|j]; [lia|]. simpl in Hj.
  destruct i as [|i]; simpl in Hi.
  - injection Hi as <-. rewrite Forall_forall in Hall.
    apply Hall. by eapply list_elem_of_lookup_2.
  - apply (IH i j ri rj Hi Hj). lia.
Qed.

Lemma sortRanges_ordered l : ordered (sortRanges l).
Proof. apply StronglySorted_ordered, sortRanges_sorted. Qed.

(** The fuel [findInRange] gives the loop is enough: more fuel never changes
    the result. *)
Lemma findInRange_fuel bd ip fuel :
  (length (sortedRanges bd) ≤ fuel)%nat →
  findInRange bd ip
  = if ipToLong ip =? 0 then None
    else search fuel (sortedRanges bd) (ipToLong ip)
           0 (Z.of_nat (length (sortedRanges bd)) - 1).
Proof.
  intros Hfuel. unfold findInRange.
  destruct (ipToLong ip =? 0); [done|].
  apply search_fuel; lia.
Qed.

(** [findInRange] on a frozen index whose ranges are non-empty and
    pairwise disjoint. *)
Lemma findInRange_found bd ip r :
  ordered (sortedRanges bd) → separated (sortedRanges bd) = true →
  r ∈ sortedRanges bd →
  ipToLong ip ≠ 0 → start r ≤ ipToLong ip ≤ end_ r →
  findInRange bd ip = Some (data r).
Proof.
  intros Hord Hsep Hin Hnz Ht.
  apply list_elem_of_lookup in Hin as [k Hk].
  pose proof (lookup_lt_Some _ _ _ Hk) as Hlen.
  unfold findInRange. destruct (Z.eqb_spec (ipToLong ip) 0); [done|].
  apply (search_found _ _ _ _ _ k r); try done; try lia.
  by apply ordered_separated_apart.
Qed.

Lemma findInRange_sound bd ip e :
  findInRange bd ip = Some e →
  ipToLong ip ≠ 0
  ∧ ∃ r, r ∈ sortedRanges bd ∧ e = data r ∧ start r ≤ ipToLong ip ≤ end_ r.
Proof.
  unfold findInRange. destruct (Z.eqb_spec (ipToLong ip) 0); [done|].
  intros Hs. split; [done|].
  apply search_sound in Hs as (k & r & Hk & -> & Ht).
  exists r. split; [by eapply list_elem_of_lookup_2|done].
Qed.

(** The search finds a range when every range before it ends below the
    target and every range after it starts above the target. *)
Lemma search_found_clear fuel : ∀ rs t low high k r,
  rs !! k = Some r → start r ≤ t ≤ end_ r →
  (∀ j rj, rs !! j = Some rj → (j < k)%nat → start rj ≤ t ∧ end_ rj < t) →
  (∀ j rj, rs !! j = Some rj → (k < j)%nat → t < start rj) →
  0 ≤ low ≤ Z.of_nat k → Z.of_nat k ≤ high < Z.of_nat (length rs) →
  high - low + 1 ≤ Z.of_nat fuel →
  search fuel rs t low high = Some (data r).
Proof.
  induction fuel as [|f IH];
    intros rs t low high k r Hk Ht Hbefore Hafter Hlow Hhigh Hfuel; [lia|].
  simpl. destruct (Z.leb_spec low high) as [Hlh|]; [|lia].
  assert (Hmid : low ≤ (low + high) / 2 ≤ high).
  { split; [apply Z.div_le_lower_bound | apply Z.div_le_upper_bound]; lia. }
  set (mid := (low + high) / 2) in *.
  destruct (rs !! Z.to_nat mid) as [rm|] eqn:Hrm.
  2:{ apply lookup_ge_None in Hrm. lia. }
  destruct (lt_eq_lt_dec (Z.to_nat mid) k) as [[Hlt | Heq] | Hgt].
  - destruct (Hbefore _ _ Hrm Hlt) as [Hs He].
    destruct (Z.leb_spec (start rm) t); [|lia].
    destruct (Z.leb_spec t (end_ rm)); [lia|]. simpl.
    destruct (Z.ltb_spec t (start rm)); [lia|].
    apply (IH rs t (mid + 1) high k r); try done; lia.
  - rewrite Heq, Hk in Hrm. injection Hrm as <-.
    destruct (Z.leb_spec (start r) t); [|lia].
    destruct (Z.leb_spec t (end_ r)); [done|lia].
  - pose proof (Hafter _ _ Hrm Hgt) as Hs.
    destruct (Z.leb_spec (start rm) t); [lia|]. simpl.
    destruct (Z.ltb_spec t (start rm)); [|lia].
    apply (IH rs t low (mid - 1) k r); try done; lia.
Qed.

Lemma alone_elem s e rs x :
  alone s e rs = true → x ∈ rs →
  (start x = s ∧ end_ x = e)
  ∨ (start x ≤ end_ x ∧ (end_ x < s ∨ e < start x)).
Proof.
  unfold alone. rewrite forallb_forall. intros Hall Hx.
  apply list_elem_of_In in Hx. specialize (Hall x Hx).
  apply orb_prop in Hall as [Hsame | Hclear].
  - apply andb_prop in Hsame as [?%Z.eqb_eq ?%Z.eqb_eq]. by left.
  - apply andb_prop in Hclear as [?%Z.leb_le Hside]. right. split; [done|].
    apply orb_prop in Hside as [?%Z.ltb_lt | ?%Z.ltb_lt]; auto.
Qed.

(** In an index ordered by start whose ranges have distinct bounds, a
    range that every other range is clear of is found for each of its
    addresses. *)
Lemma findInRange_alone bd ip r :
  ordered (sortedRanges bd) → NoDup (bounds bd) →
  alone (start r) (end_ r) (sortedRanges bd) = true →
  r ∈ sortedRanges bd →
  ipToLong ip ≠ 0 → start r ≤ ipToLong ip ≤ end_ r →
  findInRange bd ip = Some (data r).
Proof.
  intros Hord Hnd Halone Hin Hnz Ht.
  apply list_elem_of_lookup in Hin as [k Hk].
  pose proof (lookup_lt_Some _ _ _ Hk) as Hlen.
  assert (Hother : ∀ j rj, sortedRanges bd !! j = Some rj → j ≠ k →
            start rj ≤ end_ rj
            ∧ (end_ rj < start r ∨ end_ r < start rj)).
  { intros j rj Hj Hne.
    assert (Hrj : rj ∈ sortedRanges bd) by by eapply list_elem_of_lookup_2.
    destruct (alone_elem _ _ _ rj Halone Hrj) as [[Hs He] | Hclear]; [|done].
    destruct Hne. unfold bounds in Hnd.
    apply (NoDup_lookup _ j k (start r, end_ r) Hnd).
    - rewrite list_lookup_fmap, Hj. simpl. by rewrite Hs, He.
    - by rewrite list_lookup_fmap, Hk. }
  unfold findInRange. destruct (Z.eqb_spec (ipToLong ip) 0); [done|].
  apply (search_found_clear _ _ _ _ _ k r); try done; try lia.
  - intros j rj Hj Hlt.
    pose proof (Hord _ _ _ _ Hj Hk Hlt) as Ho.
    destruct (Hother j rj Hj) as [Hne Hside]; lia.
  - intros j rj Hj Hgt.
    pose proof (Hord _ _ _ _ Hk Hj Hgt) as Ho.
    destruct (Hother j rj Hj) as [Hne Hside]; lia.
Qed.

End Search.

(** ** Ingestion *)

Section Ingest.
Implicit Types (bd : BotData) (rs : list RangeRec) (r : RangeRec)
  (R src : string) (ty : Kind) (nm cat : option string) (rt : option Rating).

(** The three ways [addEntry] ends. *)
Lemma addEntry_empty R ty nm cat rt src bd :
  truthy R = false → addEntry R ty nm cat rt src bd = bd.
Proof. intros HR. unfold addEntry. by rewrite HR. Qed.

Lemma addEntry_exact R ty nm cat rt src bd :
  truthy R = true → includes "/" (trim R) = false →
  addEntry R ty nm cat rt src bd
  = mkBotData
      (<[trim R := merge (singleIPs bd !! trim R) (newData R ty nm cat rt src)]>
         (singleIPs bd))
      (sortedRanges bd).
Proof. intros HR Hs. unfold addEntry. by rewrite HR, Hs. Qed.

Lemma addEntry_cidr R ty nm cat rt src bd :
  truthy R = true → includes "/" (trim R) = true →
  addEntry R ty nm cat rt src bd
  = match cidrBounds (trim R) with
    | Some (s, e) =>
        mkBotData (singleIPs bd)
          match findIndex s e (sortedRanges bd) with
          | Some existingIdx =>
              alter (mergeInto (newData R ty nm cat rt src)) existingIdx
                (sortedRanges bd)
          | None =>
              sortedRanges bd ++ [mkRange s e (newData R ty nm cat rt src)]
          end
    | None => bd
    end.
Proof.
  intros HR Hs. unfold addEntry, cidrBounds. rewrite HR, Hs. simpl negb.
  cbv iota.
  destruct (split "/" (trim R)) as [|ip [|mask rest]]; [done..|].
  destruct (parseInt10 mask) as [bitmask|]; [|done].
  cbn [mbind option_bind].
  by destruct (findIndex _ _ _).
Qed.

(** How the range list changes. *)
Lemma addEntry_ranges R ty nm cat rt src bd :
  sortedRanges (addEntry R ty nm cat rt src bd) = sortedRanges bd
  ∨ ∃ s e, truthy R = true ∧ includes "/" (trim R) = true
      ∧ cidrBounds (trim R) = Some (s, e)
      ∧ ((∃ i, findIndex s e (sortedRanges bd) = Some i
            ∧ sortedRanges (addEntry R ty nm cat rt src bd)
              = alter (mergeInto (newData R ty nm cat rt src)) i (sortedRanges bd))
         ∨ (findIndex s e (sortedRanges bd) = None
            ∧ sortedRanges (addEntry R ty nm cat rt src bd)
              = sortedRanges bd ++ [mkRange s e (newData R ty nm cat rt src)])).
Proof.
  destruct (truthy R) eqn:HR; [|left; by rewrite addEntry_empty].
  destruct (includes "/" (trim R)) eqn:Hs;
    [|left; by rewrite addEntry_exact].
  rewrite addEntry_cidr by done.
  destruct (cidrBounds (trim R)) as [[s e]|] eqn:Hb; [|by left].
  right. exists s, e. repeat split; try done.
  destruct (findIndex s e (sortedRanges bd)) as [i|] eqn:Hi; simpl.
  - left. by exists i.
  - by right.
Qed.

Lemma findIndex_Some s e rs i :
  findIndex s e rs = Some i →
  ∃ r, rs !! i = Some r ∧ start r = s ∧ end_ r = e.
Proof.
  revert i. induction rs as [|x rest IH]; intros i; simpl; [done|].
  destruct (Z.eqb_spec (start x) s) as [Hs|]; simpl.
  - destruct (Z.eqb_spec (end_ x) e) as [He|]; simpl.
    + intros [= <-]. by exists x.
    + destruct (findIndex s e rest) as [k|]; [|done].
      intros [= <-]. by apply IH.
  - destruct (findIndex s e rest) as [k|]; [|done].
    intros [= <-]. by apply IH.
Qed.



Lemma elem_of_alter_mergeInto incoming i rs x :
  x ∈ alter (mergeInto incoming) i rs →
  x ∈ rs ∨ ∃ r, r ∈ rs ∧ x = mergeInto incoming r.
Proof.
  intros Hin. apply list_elem_of_lookup in Hin as [k Hk].
  destruct (decide (i = k)) as [->|Hne].
  - rewrite list_lookup_alter_eq in Hk.
    destruct (rs !! k) as [r|] eqn:Hr; [|done]. injection Hk as <-.
    right. exists r. split; [|done]. by eapply list_elem_of_lookup_2.
  - rewrite list_lookup_alter_ne in Hk by done.
    left. by eapply list_elem_of_lookup_2.
Qed.

Lemma hasRange_alter incoming i rs s e :
  hasRange s e rs → hasRange s e (alter (mergeInto incoming) i rs).
Proof.
  intros (r & Hin & Hs & He).
  apply list_elem_of_lookup in Hin as [k Hk].
  destruct (decide (i = k)) as [->|Hne].
  - exists (mergeInto incoming r). split; [|done].
    apply list_elem_of_lookup. exists k.
    by rewrite list_lookup_alter_eq, Hk.
  - exists r. split; [|done].
    apply list_elem_of_lookup. exists k.
    by rewrite list_lookup_alter_ne.
Qed.

(** [addEntry] never forgets a range, and it files a block under its
    bounds. *)
Lemma addEntry_hasRange_mono R ty nm cat rt src bd s e :
  hasRange s e (sortedRanges bd) →
  hasRange s e (sortedRanges (addEntry R ty nm cat rt src bd)).
Proof.
  intros Hh.
  destruct (addEntry_ranges R ty nm cat rt src bd)
    as [-> | (s' & e' & _ & _ & _ & [(i & _ & ->) | (_ & ->)])]; [done| |].
  - by apply hasRange_alter.
  - destruct Hh as (r & Hin & Hs & He). exists r.
    rewrite elem_of_app. auto.
Qed.

Lemma addEntry_hasRange_new R ty nm cat rt src bd s e :
  truthy R = true → includes "/" (trim R) = true →
  cidrBounds (trim R) = Some (s, e) →
  hasRange s e (sortedRanges (addEntry R ty nm cat rt src bd)).
Proof.
  intros HR Hs Hb. rewrite addEntry_cidr, Hb by done. simpl.
  destruct (findIndex s e (sortedRanges bd)) as [i|] eqn:Hi.
  - apply hasRange_alter.
    apply findIndex_Some in Hi as (r & Hr & ? & ?).
    exists r. split; [by eapply list_elem_of_lookup_2|done].
  - exists (mkRange s e (newData R ty nm cat rt src)).
    rewrite elem_of_app, list_elem_of_singleton. auto.
Qed.



Lemma ingest_hasRange_mono feed : ∀ bd s e,
  hasRange s e (sortedRanges bd) →
  hasRange s e (sortedRanges (ingest feed bd)).
Proof.
  induction feed as [|it feed IH]; intros bd s e Hh; [done|].
  simpl. apply IH. by apply addEntry_hasRange_mono.
Qed.

Lemma ingest_hasRange feed : ∀ bd it s e,
  it ∈ feed →
  truthy (f_range it) = true → includes "/" (trim (f_range it)) = true →
  cidrBounds (trim (f_range it)) = Some (s, e) →
  hasRange s e (sortedRanges (ingest feed bd)).
Proof.
  induction feed as [|x feed IH]; intros bd it s e Hin HR Hs Hb.
  - by apply elem_of_nil in Hin.
  - simpl. apply elem_of_cons in Hin as [<- | Hin].
    + apply ingest_hasRange_mono. by apply addEntry_hasRange_new.
    + by apply (IH _ it).
Qed.



Lemma loadAllBotData_hasRange feed it s e :
  it ∈ feed →
  truthy (f_range it) = true → includes "/" (trim (f_range it)) = true →
  cidrBounds (trim (f_range it)) = Some (s, e) →
  hasRange s e (sortedRanges (loadAllBotData feed)).
Proof.
  intros Hin HR Hs Hb.
  destruct (ingest_hasRange feed emptyBotData it s e Hin HR Hs Hb)
    as (r & Hr & ? & ?).
  exists r. split; [|done]. unfold loadAllBotData. simpl.
  by apply elem_of_sortRanges.
Qed.

(** [findIndex] finds nothing only when no range has the bounds. *)
Lemma findIndex_None s e rs :
  findIndex s e rs = None → (s, e) ∉ (λ r, (start r, end_ r)) <$> rs.
Proof.
  induction rs as [|r rs IH]; simpl; [intros _; apply not_elem_of_nil|].
  destruct (_ && _) eqn:Hm; [done|].
  destruct (findIndex s e rs); [done|]. intros _.
  rewrite not_elem_of_cons. split; [|by apply IH].
  intros [= -> ->]. by rewrite !Z.eqb_refl in Hm.
Qed.

Lemma bounds_alter incoming (i : nat) (rs : list RangeRec) :
  (λ r, (start r, end_ r)) <$> alter (mergeInto incoming) i rs
  = (λ r, (start r, end_ r)) <$> rs.
Proof.
  revert i. induction rs as [|r rs IH]; intros [|i]; simpl; try done.
  f_equal. apply IH.
Qed.

Lemma length_alter_mergeInto incoming (i : nat) (rs : list RangeRec) :
  length (alter (mergeInto incoming) i rs) = length rs.
Proof. apply length_alter. Qed.

Lemma insertRange_perm r l : insertRange r l ≡ₚ r :: l.
Proof.
  induction l as [|x l IH]; simpl; [done|].
  destruct (start r <=? start x); [done|].
  rewrite IH. apply Permutation_swap.
Qed.

Lemma sortRanges_perm l : sortRanges l ≡ₚ l.
Proof.
  induction l as [|x l IH]; simpl; [done|].
  by rewrite insertRange_perm, IH.
Qed.

Lemma addEntry_distinct_bounds R ty nm cat rt src bd :
  NoDup (bounds bd) → NoDup (bounds (addEntry R ty nm cat rt src bd)).
Proof.
  intros Hnd. unfold bounds in *.
  destruct (addEntry_ranges R ty nm cat rt src bd)
    as [-> | (s & e & _ & _ & _ & [(i & _ & ->) | (Hnone & ->)])]; [done| |].
  - by rewrite bounds_alter.
  - rewrite fmap_app. simpl. apply NoDup_app. split; [done|]. split.
    + intros x Hx. intros ->%list_elem_of_singleton.
      by apply (findIndex_None _ _ _ Hnone).
    + apply NoDup_singleton.
Qed.

Lemma ingest_distinct_bounds feed : ∀ bd,
  NoDup (bounds bd) → NoDup (bounds (ingest feed bd)).
Proof.
  induction feed as [|it feed IH]; intros bd Hnd; simpl; [done|].
  apply IH. by apply addEntry_distinct_bounds.
Qed.

Ltac merge_norm :=
  rewrite ?(bool_decide_eq_true_2 (KBot = KBot) eq_refl),
    ?(bool_decide_eq_true_2 (KDatacenter = KDatacenter) eq_refl),
    ?(bool_decide_eq_false_2 (KBot = KDatacenter)),
    ?(bool_decide_eq_false_2 (KDatacenter = KBot)) by discriminate;
  cbn [andb orb negb range type name category rating source datacenter].

(** The four cases of [merge], by the kinds of the two entries. *)
Lemma merge_table (existing incoming : Entry) :
  merge (Some existing) incoming =
  match type incoming, type existing with
  | KBot, KBot =>
      if negb (isGeneric (name incoming)) && isGeneric (name existing)
      then mkEntry (range existing) KBot (name incoming) (category incoming)
             (rating incoming) (source existing +:+ " + " +:+ source incoming)
             (datacenter existing)
      else existing
  | KBot, KDatacenter =>
      if negb (isGeneric (name incoming))
      then mkEntry (range existing) KBot (name incoming) (category incoming)
             (rating incoming) (source existing +:+ " + " +:+ source incoming)
             (datacenter existing)
      else existing
  | KDatacenter, KBot =>
      mkEntry (range existing) KBot (name existing) (category existing)
        (rating existing)
        (source existing +:+ " (DC: " +:+ source incoming +:+ ")")
        (Some (name incoming))
  | KDatacenter, KDatacenter =>
      if isGeneric (name existing) && negb (isGeneric (name incoming))
      then mkEntry (range existing) KDatacenter (name incoming)
             (category existing) (rating existing) (source existing)
             (datacenter existing)
      else existing
  end.
Proof.
  destruct existing as [er et en ec eg es ed],
    incoming as [ir it inm ic ig isrc id].
  unfold merge, isDC. cbv zeta.
  cbn [range type name category rating source datacenter].
  destruct it, et; merge_norm;
    destruct (isGeneric inm) eqn:Hi; merge_norm;
    destruct (isGeneric en) eqn:He; merge_norm; rewrite ?He; merge_norm;
    reflexivity.
Qed.


(** The data filed under given bounds, through the steps of [addEntry]. *)
Lemma rangeData_None s e rs :
  findIndex s e rs = None → rangeData s e rs = None.
Proof.
  induction rs as [|x rs IH]; simpl; [done|].
  destruct (_ && _); [done|]. destruct (findIndex s e rs); [done|]. auto.
Qed.

Lemma rangeData_app s e rs l :
  rangeData s e (rs ++ l)
  = match rangeData s e rs with
    | Some d => Some d
    | None => rangeData s e l
    end.
Proof.
  induction rs as [|x rs IH]; simpl; [done|]. by destruct (_ && _).
Qed.

Lemma rangeData_alter_hit s e rs i incoming :
  findIndex s e rs = Some i →
  rangeData s e (alter (mergeInto incoming) i rs)
  = Some (merge (rangeData s e rs) incoming).
Proof.
  revert i. induction rs as [|x rs IH]; intros i; simpl; [done|].
  destruct ((start x =? s) && (end_ x =? e)) eqn:Hx.
  - intros [= <-]. simpl. by rewrite Hx.
  - destruct (findIndex s e rs) as [j|] eqn:Hj; [|done].
    intros [= <-]. simpl. rewrite Hx. by apply IH.
Qed.

Lemma rangeData_alter_miss s e s' e' rs i incoming :
  findIndex s' e' rs = Some i → (s', e') ≠ (s, e) →
  rangeData s e (alter (mergeInto incoming) i rs) = rangeData s e rs.
Proof.
  intros Hi Hne. revert i Hi.
  induction rs as [|x rs IH]; intros i; simpl; [done|].
  destruct ((start x =? s') && (end_ x =? e')) eqn:Hx.
  - intros [= <-]. simpl.
    apply andb_prop in Hx as [Hs%Z.eqb_eq He%Z.eqb_eq].
    destruct ((start x =? s) && (end_ x =? e)) eqn:Hy; [|done].
    apply andb_prop in Hy as [Hs'%Z.eqb_eq He'%Z.eqb_eq].
    destruct Hne. congruence.
  - destruct (findIndex s' e' rs) as [j|] eqn:Hj; [|done].
    intros [= <-]. simpl.
    destruct ((start x =? s) && (end_ x =? e)); [done|]. by apply IH.
Qed.

Lemma rangeData_addItem s e bd (it : FeedItem) :
  rangeData s e (sortedRanges (addItem bd it))
  = blockStep s e (rangeData s e (sortedRanges bd)) it.
Proof.
  unfold addItem, blockStep, inBlock.
  destruct (truthy (f_range it)) eqn:Ht; [|by rewrite addEntry_empty].
  destruct (includes "/" (trim (f_range it))) eqn:Hi;
    [|by rewrite addEntry_exact].
  rewrite addEntry_cidr by done. cbn [andb].
  fold (itemData it).
  destruct (cidrBounds (trim (f_range it))) as [[s' e']|]; [|done].
  cbn [sortedRanges]. case_bool_decide as Hb.
  - injection Hb as -> ->.
    destruct (findIndex s e (sortedRanges bd)) as [i|] eqn:Hf.
    + by apply rangeData_alter_hit.
    + rewrite rangeData_app, (rangeData_None _ _ _ Hf). simpl.
      by rewrite !Z.eqb_refl.
  - destruct (findIndex s' e' (sortedRanges bd)) as [i|] eqn:Hf.
    + apply (rangeData_alter_miss s e s' e'); [done|]. congruence.
    + rewrite rangeData_app. destruct (rangeData s e (sortedRanges bd)); [done|].
      simpl. destruct ((s' =? s) && (e' =? e)) eqn:Hy; [|done].
      apply andb_prop in Hy as [->%Z.eqb_eq ->%Z.eqb_eq]. done.
Qed.

Lemma rangeData_ingest s e feed : ∀ bd,
  rangeData s e (sortedRanges (ingest feed bd))
  = foldl (blockStep s e) (rangeData s e (sortedRanges bd)) feed.
Proof.
  induction feed as [|it feed IH]; intros bd; [done|].
  cbn [ingest foldl]. fold (ingest feed (addItem bd it)).
  by rewrite IH, rangeData_addItem.
Qed.

Lemma rangeData_elem rs r :
  NoDup ((λ x, (start x, end_ x)) <$> rs) → r ∈ rs →
  rangeData (start r) (end_ r) rs = Some (data r).
Proof.
  induction rs as [|x rs IH]; intros Hnd Hin; [by apply elem_of_nil in Hin|].
  rewrite fmap_cons in Hnd. apply NoDup_cons in Hnd as [Hx Hnd]. simpl.
  apply elem_of_cons in Hin as [-> | Hin].
  - by rewrite !Z.eqb_refl.
  - destruct ((start x =? start r) && (end_ x =? end_ r)) eqn:Hy; [|by apply IH].
    apply andb_prop in Hy as [Hs%Z.eqb_eq He%Z.eqb_eq].
    destruct Hx. rewrite Hs, He. apply list_elem_of_fmap. by exists r.
Qed.

Lemma loadAllBotData_NoDup feed : NoDup (bounds (loadAllBotData feed)).
Proof.
  assert (NoDup (bounds (ingest feed emptyBotData))) as Hnd.
  { apply ingest_distinct_bounds. apply NoDup_nil_2. }
  unfold loadAllBotData, bounds in *. cbn [sortedRanges].
  by rewrite sortRanges_perm.
Qed.

(** The data of a range of the frozen index are the entries ingested for
    its bounds, merged in the order of the feed. *)
Lemma loadAllBotData_blockData feed r :
  r ∈ sortedRanges (loadAllBotData feed) →
  blockData (start r) (end_ r) feed = Some (data r).
Proof.
  intros Hin.
  assert (Hraw : r ∈ sortedRanges (ingest feed emptyBotData)).
  { by apply elem_of_sortRanges. }
  assert (Hnd : NoDup (bounds (ingest feed emptyBotData))).
  { apply ingest_distinct_bounds. apply NoDup_nil_2. }
  unfold blockData.
  rewrite <- (rangeData_elem (sortedRanges (ingest feed emptyBotData)) r Hnd Hraw).
  by rewrite rangeData_ingest.
Qed.


End Ingest.

(** ** The index: range lookup and merge precedence *)

Section Index.
Implicit Types (bd : BotData) (r : RangeRec) (ip : jsval) (R : string).

Lemma truthy_trim R : truthy (trim R) = true → truthy R = true.
Proof. by destruct R. Qed.

Lemma includes_slash_truthy s : includes "/" s = true → truthy s = true.
Proof. by destruct s. Qed.

Lemma ipToLong_toBoolean ip : ipToLong ip ≠ 0 → toBoolean ip = true.
Proof.
  destruct ip as [| |b|z|s]; simpl; try done.
  by destruct (truthy s).
Qed.

Lemma findInRange_no_ranges bd ip : sortedRanges bd = [] → findInRange bd ip = None.
Proof.
  intros Hnil. unfold findInRange. rewrite Hnil. simpl.
  by destruct (ipToLong ip =? 0).
Qed.

Lemma findInRange_one_range bd ip r :
  sortedRanges bd = [r] → ipToLong ip ≠ 0 →
  start r ≤ ipToLong ip ≤ end_ r → findInRange bd ip = Some (data r).
Proof.
  intros Hone Hnz Ht. unfold findInRange. rewrite Hone. simpl.
  destruct (Z.eqb_spec (ipToLong ip) 0); [done|].
  destruct (Z.leb_spec (start r) (ipToLong ip)); [|lia].
  destruct (Z.leb_spec (ipToLong ip) (end_ r)); [done|lia].
Qed.


(** The index built from two entries for the same range string [R], and
    what a lookup of an address of [R] finds in it. *)
Lemma lookup_two_entries R ip first second :
  covers R ip = true →
  f_range first = R → f_range second = R →
  let nd (it : FeedItem) :=
    newData R (f_type it) (f_name it) (f_category it) (f_rating it)
      (f_source it) in
  ipMatch (loadAllBotData [first; second]) ip
  = Some (merge (Some (nd first)) (nd second)).
Proof.
  intros Hcov H1 H2 nd. unfold covers in Hcov.
  unfold loadAllBotData, ingest. cbn [foldl]. unfold addItem.
  rewrite H1, H2. fold (nd first) (nd second).
  destruct (includes "/" (trim R)) eqn:Hs.
  - (* a block *)
    destruct (cidrBounds (trim R)) as [[s e]|] eqn:Hb; [|done].
    apply andb_prop in Hcov as [Hcov He]. apply andb_prop in Hcov as [Hnz Hst].
    apply negb_true_iff, Z.eqb_neq in Hnz.
    apply Z.leb_le in Hst, He.
    assert (HR : truthy R = true)
      by by apply truthy_trim, includes_slash_truthy.
    rewrite !addEntry_cidr, Hb by done. cbn [sortedRanges singleIPs].
    unfold emptyBotData. cbn [sortedRanges singleIPs findIndex app].
    cbn [sortedRanges singleIPs findIndex start end_].
    rewrite !Z.eqb_refl. cbn [andb alter list_alter sortRanges foldr insertRange].
    unfold ipMatch. rewrite (ipToLong_toBoolean ip Hnz).
    rewrite (findInRange_one_range _ ip
               (mergeInto (nd second) (mkRange s e (nd first)))) by done.
    by destruct ip.
  - (* an exact address *)
    apply andb_prop in Hcov as [Htr Hip].
    apply bool_decide_eq_true in Hip as ->.
    assert (HR : truthy R = true) by by apply truthy_trim.
    rewrite !addEntry_exact by done.
    cbn [sortedRanges singleIPs]. unfold emptyBotData.
    cbn [sortedRanges singleIPs sortRanges foldr].
    unfold ipMatch. cbn [toBoolean]. rewrite Htr.
    rewrite findInRange_no_ranges by done.
    cbn [singleIPs]. rewrite !lookup_insert_eq, lookup_empty.
    reflexivity.
Qed.

(** C1 (as amended): for a range [R] the index accepts, with [ip] an
    address of [R]: after a datacenter entry and then a bot entry with a
    specific name, the lookup finds a bot with the bot entry's name,
    category and rating and the provenance "dc + bot"; after the same
    two entries in the reverse order it finds a bot with the same name,
    category and rating, the datacenter entry's name in the side-channel
    field and the provenance "bot (DC: dc)". The two orders agree on
    kind, name, category and rating. *)
Theorem merge_precedence R ip dcName dcCat dcRate dcSrc
    specificName botCat botRate botSrc :
  isGeneric specificName = false →
  covers R ip = true →
  let dcItem := mkItem R KDatacenter dcName dcCat dcRate dcSrc in
  let botItem := mkItem R KBot (Some specificName) botCat botRate botSrc in
  ∃ e1 e2,
    ipMatch (loadAllBotData [dcItem; botItem]) ip = Some e1
    ∧ ipMatch (loadAllBotData [botItem; dcItem]) ip = Some e2
    ∧ (type e1 = KBot ∧ name e1 = specificName
       ∧ category e1 = orDefault botCat "Uncategorized"
       ∧ rating e1 = default RNeutral botRate
       ∧ source e1 = dcSrc +:+ " + " +:+ botSrc)
    ∧ (type e2 = KBot ∧ name e2 = specificName
       ∧ category e2 = orDefault botCat "Uncategorized"
       ∧ rating e2 = default RNeutral botRate
       ∧ datacenter e2 = Some (orDefault dcName "Unknown")
       ∧ source e2 = botSrc +:+ " (DC: " +:+ dcSrc +:+ ")")
    ∧ range e1 = trim R ∧ range e2 = trim R.
Proof.
  intros Hspec Hcov dcItem botItem.
  assert (Htruthy : truthy specificName = true).
  { unfold isGeneric in Hspec. by destruct (truthy specificName). }
  eexists _, _. split; [|split].
  - by apply lookup_two_entries.
  - by apply lookup_two_entries.
  - unfold merge, newData, dcItem, botItem. simpl.
    rewrite Htruthy, Hspec. simpl. done.
Qed.

End Index.

(** ** Concrete runs *)

Lemma fetchWithRetry_budget_witness :
  (∃ eff', fetchWithRetry alwaysUnavailable freshEffects = (MaxRetriesExceeded, eff')
     ∧ statsRetries eff' = 0 + 10
     ∧ length (sleeps eff') = (0 + 10)%nat
     ∧ calls eff' = (0 + 10)%nat)
  ∧ fetchWithRetry notFound freshEffects
    = (Rethrown (Some (mkResponse 404 None)), mkEffects 0 [] 1).
Proof.
  split.
  - apply (fetchWithRetry_budget alwaysUnavailable freshEffects). by intros k.
  - by apply (fetchWithRetry_budget notFound freshEffects).
Defined.

(** C1, counterexample: after the datacenter entry and then the bot entry
    the side-channel datacenter name is not populated, and the two orders
    end in different states. *)
Lemma merge_not_commutative :
  ∃ e1 e2,
    ipMatch (loadAllBotData [dcSample; botSample]) (JStr "10.1.2.3") = Some e1
    ∧ ipMatch (loadAllBotData [botSample; dcSample]) (JStr "10.1.2.3") = Some e2
    ∧ type e1 = KBot ∧ name e1 = "Googlebot"
    ∧ datacenter e1 = None
    ∧ datacenter e2 = Some "AWS"
    ∧ source e1 = "Hexydec-Datacenters + GoodBots"
    ∧ source e2 = "GoodBots (DC: Hexydec-Datacenters)"
    ∧ loadAllBotData [dcSample; botSample] ≠ loadAllBotData [botSample; dcSample].
Proof.
  eexists _, _. split; [by vm_compute|]. split; [by vm_compute|].
  repeat (split; [reflexivity|]).
  intros Heq. apply (f_equal sortedRanges) in Heq. vm_compute in Heq.
  discriminate Heq.
Qed.

Lemma merge_precedence_witness :
  ∃ e1 e2,
    ipMatch (loadAllBotData [dcSample; botSample]) (JStr "10.1.2.3") = Some e1
    ∧ ipMatch (loadAllBotData [botSample; dcSample]) (JStr "10.1.2.3") = Some e2
    ∧ (type e1 = KBot ∧ name e1 = "Googlebot"
       ∧ category e1 = "Crawler" ∧ rating e1 = RGood
       ∧ source e1 = "Hexydec-Datacenters + GoodBots")
    ∧ (type e2 = KBot ∧ name e2 = "Googlebot"
       ∧ category e2 = "Crawler" ∧ rating e2 = RGood
       ∧ datacenter e2 = Some "AWS"
       ∧ source e2 = "GoodBots (DC: Hexydec-Datacenters)")
    ∧ range e1 = "10.0.0.0/8" ∧ range e2 = "10.0.0.0/8".
Proof.
  apply (merge_precedence "10.0.0.0/8" (JStr "10.1.2.3")
           (Some "AWS") (Some "Datacenter") (Some RNeutral) "Hexydec-Datacenters"
           "Googlebot" (Some "Crawler") (Some RGood) "GoodBots");
    reflexivity.
Defined.

(** C2, counterexample: a person whose user agent is a crawler's. The
    second run, on the stored state the first run left, classifies the
    person the same way and still produces a patch and an event. *)
Lemma second_run_bot_resent :
  let analysis := @analyse sampleMatcher sampleIndex rowCrawler in
  let row' := applySet (filteredProps analysis rowCrawler) rowCrawler in
  @analyse sampleMatcher sampleIndex row' = analysis
  ∧ filteredProps analysis row'
    = [ ("bot_name", JStr "Googlebot"); ("bot_type", JStr "Crawler");
        ("bot_identification_source", JStr "isbot (User Agent)") ]
  ∧ ∃ ev, @processRow sampleMatcher sampleIndex row' = Some ev
          ∧ event ev = "$identify".
Proof.
  split; [by vm_compute|]. split; [by vm_compute|].
  eexists. split; by vm_compute.
Qed.



(** C4, counterexample: the latest address lies in a datacenter range and
    the initial address is that of a bot that is in no datacenter range.
    The bot finding replaces the primary result and the datacenter
    classification is gone. *)
Lemma fallback_drops_datacenter :
  let primary := @checkBot sampleMatcher sampleIndex
                   (processedIp rowDatacenterThenBot)
                   (userAgent rowDatacenterThenBot) in
  let final := @analyse sampleMatcher sampleIndex rowDatacenterThenBot in
  isBot primary = false
  ∧ isDatacenter primary = true ∧ datacenterName primary = Some "AWS"
  ∧ isBot final = true ∧ botName final = Some "Foo"
  ∧ isDatacenter final = false ∧ datacenterName final = None.
Proof. repeat split; by vm_compute. Qed.

(** C8, counterexample: the source of a user-agent match is
    "isbot (User Agent)", not "User Agent"; and the label "GoodBot" gives
    way to an override of the table. *)
Lemma user_agent_source_label :
  (let r := @checkBot sampleMatcher sampleIndex (JStr "9.9.9.9")
              (Some "Mozilla/5.0 Googlebot/2.1") in
   isBot (@ipClassification sampleMatcher sampleIndex (JStr "9.9.9.9")) = false
   ∧ botSource r = Some "isbot (User Agent)"
   ∧ botSource r ≠ Some "User Agent")
  ∧ (let ua := "GoodBot (Archive-It; +http://archive-it.org)" in
     let r := @checkBot sampleMatcher sampleIndex (JStr "9.9.9.9") (Some ua) in
     @isbot sampleMatcher ua = true
     ∧ @isbotMatch sampleMatcher ua = Some "GoodBot"
     ∧ botName r = Some "Archive-It").
Proof. repeat split; by vm_compute. Qed.

Lemma user_agent_classification_witness :
  let r := @checkBot sampleMatcher sampleIndex (JStr "9.9.9.9")
             (Some "Mozilla/5.0 Googlebot/2.1") in
  isBot r = true
  ∧ botType r = Some "Crawler"
  ∧ botSource r = Some "isbot (User Agent)"
  ∧ isGoodBot r = Some true
  ∧ botName r = Some "Googlebot".
Proof.
  destruct (@user_agent_classification sampleMatcher sampleIndex
              (JStr "9.9.9.9") "Mozilla/5.0 Googlebot/2.1"
              eq_refl eq_refl eq_refl)
    as (H1 & H2 & H3 & H4 & _ & _ & H7 & _).
  repeat split; assumption.
Defined.

(** C9, counterexamples: a record without a stored initial address whose
    stored latest address is the current one gets no [$initial_ip]; a
    record whose latest event has no address gets no [$latest_ip], though
    the stored latest address differs. *)
Lemma address_props_not_set :
  (let analysis := @analyse sampleMatcher sampleIndex rowNoInitial in
   existingInitialIp rowNoInitial = JNull
   ∧ ("$initial_ip" ∉ (filteredProps analysis rowNoInitial).*1))
  ∧ (let analysis := @analyse sampleMatcher sampleIndex rowNoAddress in
     processedIp rowNoAddress ≠ existingLatestIp rowNoAddress
     ∧ ("$latest_ip" ∉ (filteredProps analysis rowNoAddress).*1)
     ∧ ("$initial_ip" ∉ (filteredProps analysis rowNoAddress).*1)).
Proof.
  repeat split; try done;
    (apply (bool_decide_unpack _); by vm_compute).
Qed.

(** The second run on a person that is no bot: the patch is empty and no
    event is emitted. *)
Lemma second_run_patch_witness :
  let analysis := @analyse sampleMatcher sampleIndex rowNoInitial in
  let row' := applySet (filteredProps analysis rowNoInitial) rowNoInitial in
  filteredProps analysis rowNoInitial = [("$latest_nonproxy_ip", JStr "9.9.9.9")]
  ∧ filteredProps analysis row' = []
  ∧ @processRow sampleMatcher sampleIndex row' = None.
Proof.
  split; [reflexivity|].
  by apply (@second_run_patch sampleMatcher sampleIndex rowNoInitial).
Defined.

(** The re-check on the initial address finds the bot. *)
Lemma fallback_recheck_witness :
  @analyse sampleMatcher sampleIndex rowDatacenterThenBot
  = @checkBot sampleMatcher sampleIndex (JStr "1.2.3.4") None.
Proof.
  by apply (@fallback_recheck sampleMatcher sampleIndex rowDatacenterThenBot).
Defined.


(** ** Further properties of the index *)

Section IndexExtra.
Implicit Types (bd : BotData) (r : RangeRec) (ip : jsval) (R : string)
  (existing incoming : Entry).

(** X1: [ipToLong] always yields an unsigned 32-bit value, and 0 for
    anything that is not a string of four dot-separated parts. *)
Theorem ipToLong_range ip :
  0 ≤ ipToLong ip < 2 ^ 32
  ∧ ((∀ s, ip ≠ JStr s) → ipToLong ip = 0)
  ∧ (∀ s, ip = JStr s → length (split "." s) ≠ 4%nat → ipToLong ip = 0).
Proof.
  split; [|split].
  - destruct ip as [| |b|z|s]; simpl; try lia.
    destruct (truthy s); simpl; [|lia].
    destruct (split "." s) as [|p0 [|p1 [|p2 [|p3 [|p4 rest]]]]]; try lia.
    unfold ushr0.
    destruct (_ ≫= _) as [z|]; [|lia].
    unfold toUint32. apply Z.mod_pos_bound. lia.
  - intros Hns. destruct ip as [| |b|z|s]; try done. by destruct (Hns s).
  - intros s -> Hlen. simpl. destruct (truthy s); simpl; [|done].
    by destruct (split "." s) as [|p0 [|p1 [|p2 [|p3 [|p4 rest]]]]].
Qed.

(** X2: on dotted quads [ipToLong] is one-to-one, and only 0.0.0.0 is read
    as 0, the value [findInRange] takes for "no address". *)
Theorem ipToLong_dotted_injective (a b c d a' b' c' d' : Z) :
  octet a → octet b → octet c → octet d →
  octet a' → octet b' → octet c' → octet d' →
  (ipToLong (JStr (dotted a b c d)) = ipToLong (JStr (dotted a' b' c' d'))
   → a = a' ∧ b = b' ∧ c = c' ∧ d = d')
  ∧ (ipToLong (JStr (dotted a b c d)) = 0 ↔ a = 0 ∧ b = 0 ∧ c = 0 ∧ d = 0).
Proof.
  intros Ha Hb Hc Hd Ha' Hb' Hc' Hd'.
  rewrite !ipToLong_dotted by done.
  unfold octet, ipValue in *.
  change (2 ^ 24) with 16777216. change (2 ^ 16) with 65536.
  change (2 ^ 8) with 256. lia.
Qed.

Ltac by_table existing incoming :=
  let Hi := fresh "Hi" in
  let He := fresh "He" in
  rewrite !merge_table;
  destruct existing as [er et en ec eg es ed],
    incoming as [ir it inm ic ig isrc id];
  cbn [range type name category rating source datacenter];
  destruct it, et;
  destruct (isGeneric inm) eqn:Hi; destruct (isGeneric en) eqn:He;
  cbn [andb orb negb range type name category rating source datacenter];
  rewrite ?Hi, ?He;
  cbn [andb orb negb range type name category rating source datacenter].

(** X3: a bot entry never replaces a bot entry that has a specific name,
    and a bot entry with a generic name never changes anything: the first
    writer wins. *)
Theorem merge_first_writer_wins existing incoming :
  type incoming = KBot →
  isGeneric (name incoming) = true
  ∨ (type existing = KBot ∧ isGeneric (name existing) = false) →
  merge (Some existing) incoming = existing.
Proof.
  intros Hty Hcase. rewrite merge_table, Hty.
  destruct Hcase as [-> | [-> ->]].
  - by destruct (type existing).
  - by rewrite andb_false_r.
Qed.

(** X4: [merge] keeps the range text of the existing entry, never turns a
    bot into a datacenter, never changes the identity of a bot that has a
    specific name, leaves a datacenter that stays a datacenter with its
    category, rating and provenance, and never removes a side-channel
    datacenter name. *)
Theorem merge_keeps_identity existing incoming :
  let m := merge (Some existing) incoming in
  range m = range existing
  ∧ (type existing = KBot → type m = KBot)
  ∧ (type existing = KBot → isGeneric (name existing) = false →
     name m = name existing ∧ category m = category existing
     ∧ rating m = rating existing)
  ∧ (type m = KDatacenter →
     type existing = KDatacenter ∧ category m = category existing
     ∧ rating m = rating existing ∧ source m = source existing)
  ∧ (is_Some (datacenter existing) → is_Some (datacenter m)).
Proof.
  intros m. subst m. by_table existing incoming.
  all: repeat split; try done; try (intros; congruence); eauto.
Qed.

(** X5: merging the same entry in a second time changes nothing but,
    possibly, the provenance; for a bot entry, and whenever the result is
    a datacenter, it changes nothing at all. *)
Theorem merge_again existing incoming :
  let once := merge (Some existing) incoming in
  let twice := merge (Some once) incoming in
  sameButSource twice once
  ∧ (type incoming = KBot → twice = once)
  ∧ (type once = KDatacenter → twice = once).
Proof.
  intros once twice. subst once twice. unfold sameButSource.
  rewrite (merge_table (merge _ _)). by_table existing incoming.
  all: repeat split; try done.
Qed.

(** X6: a block whose address part is not a dotted quad is not dropped: its
    address is read as 0, so it is filed as the block of that size at
    0.0.0.0; the exact addresses are left alone. *)
Theorem malformed_address_block s (n : Z) ty nm cat rt src bd :
  ipToLong (JStr s) = 0 → startsClean s = true → noChar "/" s = true →
  1 ≤ n ≤ 32 →
  let bd' := addEntry (s +:+ "/" +:+ pretty n) ty nm cat rt src bd in
  hasRange 0 (2 ^ (32 - n) - 1) (sortedRanges bd')
  ∧ singleIPs bd' = singleIPs bd.
Proof.
  intros Hzero Hclean Hslash Hn bd'. subst bd'.
  destruct (decimalText_spec n) as (Hparse & _ & _ & _ & Hend); [lia|].
  set (R := s +:+ "/" +:+ pretty n).
  assert (Htrim : trim R = R).
  { apply trim_clean; [by apply startsClean_app|].
    apply startsClean_rev_app. rewrite slash_app.
    change (String "/" (pretty n)) with ("/" +:+ pretty n).
    by apply startsClean_rev_app. }
  assert (Hinc : includes "/" (trim R) = true).
  { rewrite Htrim. unfold R. rewrite slash_app. apply includes_char. }
  assert (Htruthy : truthy R = true).
  { apply truthy_startsClean. by apply startsClean_app. }
  assert (Hbounds : cidrBounds (trim R) = Some (0, 2 ^ (32 - n) - 1)).
  { rewrite Htrim. unfold cidrBounds, R. rewrite slash_app, split_app by done.
    rewrite split_noChar by (by destruct (decimalText_spec n) as (_&_&?&_); [lia|]).
    rewrite Hparse, Hzero. cbn [mbind option_bind].
    rewrite rangeStart_masked, rangeEnd_block by lia.
    assert (networkStart 0 n = 0) as Hs.
    { unfold networkStart. rewrite Z.mod_0_l; [lia|].
      apply Z.pow_nonzero; lia. }
    unfold networkEnd. rewrite Hs. do 2 f_equal. }
  split.
  - by apply addEntry_hasRange_new.
  - rewrite addEntry_cidr, Hbounds by done. done.
Qed.

(** X7: a call of [addEntry] touches one container only, never removes a
    key or a range, adds at most one range, and leaves every exact address
    but its own as it was. *)
Theorem addEntry_frame R ty nm cat rt src bd :
  let bd' := addEntry R ty nm cat rt src bd in
  (singleIPs bd' = singleIPs bd ∨ sortedRanges bd' = sortedRanges bd)
  ∧ (length (sortedRanges bd) ≤ length (sortedRanges bd')
     ≤ S (length (sortedRanges bd)))%nat
  ∧ (∀ k, k ≠ trim R → singleIPs bd' !! k = singleIPs bd !! k)
  ∧ (∀ k, is_Some (singleIPs bd !! k) → is_Some (singleIPs bd' !! k))
  ∧ (∀ s e, hasRange s e (sortedRanges bd) → hasRange s e (sortedRanges bd')).
Proof.
  intros bd'. subst bd'.
  destruct (truthy R) eqn:Ht.
  2: { rewrite addEntry_empty by done. repeat split; auto. }
  destruct (includes "/" (trim R)) eqn:Hi.
  - rewrite addEntry_cidr by done.
    destruct (cidrBounds (trim R)) as [[s e]|]; [|repeat split; auto].
    cbn [singleIPs sortedRanges].
    split; [by left|]. split; [|split; [done|split; [done|]]].
    + destruct (findIndex s e (sortedRanges bd)).
      * rewrite length_alter_mergeInto. lia.
      * rewrite length_app. simpl. lia.
    + intros s' e' (r & Hr & Hs & He).
      destruct (findIndex s e (sortedRanges bd)).
      * by apply hasRange_alter; exists r.
      * exists r. rewrite elem_of_app. auto.
  - rewrite addEntry_exact by done. cbn [singleIPs sortedRanges].
    split; [by right|]. split; [lia|]. split; [|split; [|done]].
    + intros k Hk. by rewrite lookup_insert_ne.
    + intros k Hk. destruct (decide (trim R = k)) as [->|Hne].
      * rewrite lookup_insert_eq. by eexists.
      * by rewrite lookup_insert_ne.
Qed.

(** X8: an exact address filed for the first time is stored under its
    trimmed text with the defaults for the missing fields, and it is what a
    lookup of that address gives when no range holds it. *)
Theorem addEntry_exact_lookup R ty nm cat rt src bd :
  truthy (trim R) = true → includes "/" (trim R) = false →
  singleIPs bd !! trim R = None →
  let bd' := addEntry R ty nm cat rt src bd in
  let filed :=
    mkEntry (trim R) ty (orDefault nm "Unknown") (orDefault cat "Uncategorized")
      (default RNeutral rt) src None in
  singleIPs bd' !! trim R = Some filed
  ∧ (findInRange bd (JStr (trim R)) = None →
     ipMatch bd' (JStr (trim R)) = Some filed).
Proof.
  intros Ht Hi Hnew bd' filed. subst bd' filed.
  rewrite addEntry_exact by (by try apply truthy_trim).
  rewrite Hnew. cbn [singleIPs merge]. rewrite lookup_insert_eq.
  split; [done|]. intros Hnone.
  unfold ipMatch. cbn [toBoolean]. rewrite Ht.
  cbn [singleIPs]. rewrite lookup_insert_eq.
  unfold findInRange in *. cbn [sortedRanges] in *. by rewrite Hnone.
Qed.

(** X9: no two ranges of the index have the same bounds, before and after
    the sort, whatever the feeds hold. *)
Theorem loadAllBotData_distinct_bounds feed :
  NoDup (bounds (ingest feed emptyBotData))
  ∧ NoDup (bounds (loadAllBotData feed)).
Proof.
  assert (NoDup (bounds (ingest feed emptyBotData))) as Hnd.
  { apply ingest_distinct_bounds. apply NoDup_nil_2. }
  split; [done|].
  unfold loadAllBotData, bounds in *. cbn [sortedRanges].
  by rewrite sortRanges_perm.
Qed.

(** X10: the sort at the end of [loadAllBotData] keeps every range, orders
    them by start, and leaves the exact addresses alone. *)
Theorem loadAllBotData_sorts feed :
  let raw := ingest feed emptyBotData in
  let bd := loadAllBotData feed in
  sortedRanges bd ≡ₚ sortedRanges raw
  ∧ StronglySorted byStart (sortedRanges bd)
  ∧ singleIPs bd = singleIPs raw.
Proof.
  intros raw bd. subst raw bd. unfold loadAllBotData. cbn [sortedRanges singleIPs].
  split; [apply sortRanges_perm|]. split; [apply sortRanges_sorted|done].
Qed.

End IndexExtra.

Lemma ipToLong_dotted_injective_witness :
  (ipToLong (JStr (dotted 10 0 0 1)) = ipToLong (JStr (dotted 10 0 0 1))
   → 10 = 10 ∧ 0 = 0 ∧ 0 = 0 ∧ 1 = 1)
  ∧ (ipToLong (JStr (dotted 10 0 0 1)) = 0 ↔ 10 = 0 ∧ 0 = 0 ∧ 0 = 0 ∧ 1 = 0).
Proof.
  apply (ipToLong_dotted_injective 10 0 0 1 10 0 0 1); unfold octet; lia.
Defined.

Lemma merge_first_writer_wins_witness : merge (Some namedBot) otherBot = namedBot.
Proof.
  apply (merge_first_writer_wins namedBot otherBot); [reflexivity|].
  right. split; reflexivity.
Defined.

Lemma malformed_address_block_witness :
  hasRange 0 (2 ^ (32 - 24) - 1)
    (sortedRanges (addEntry ("not-an-address" +:+ "/" +:+ pretty 24) KBot
       None None None "Firehol" emptyBotData))
  ∧ singleIPs (addEntry ("not-an-address" +:+ "/" +:+ pretty 24) KBot
       None None None "Firehol" emptyBotData) = singleIPs emptyBotData.
Proof.
  apply (malformed_address_block "not-an-address" 24 KBot None None None
           "Firehol" emptyBotData); try reflexivity; lia.
Defined.

Lemma addEntry_exact_lookup_witness :
  singleIPs (addEntry " 1.2.3.4 " KBot None None None "Firehol" emptyBotData)
    !! "1.2.3.4"
  = Some (mkEntry "1.2.3.4" KBot "Unknown" "Uncategorized" RNeutral "Firehol" None)
  ∧ (findInRange emptyBotData (JStr "1.2.3.4") = None →
     ipMatch (addEntry " 1.2.3.4 " KBot None None None "Firehol" emptyBotData)
       (JStr "1.2.3.4")
     = Some (mkEntry "1.2.3.4" KBot "Unknown" "Uncategorized" RNeutral
               "Firehol" None)).
Proof.
  apply (addEntry_exact_lookup " 1.2.3.4 " KBot None None None "Firehol"
           emptyBotData); reflexivity.
Defined.

(** ** The loaders *)

Section Loaders.
Context `{UserAgentMatcher}.
Implicit Types (bd : BotData) (ip : jsval) (R line : string) (nd e m : Entry).

Lemma addEntry_allEntries (Q : Entry → Prop) R ty nm cat rt src bd :
  Q (newData R ty nm cat rt src) →
  (∀ e, Q e → Q (merge (Some e) (newData R ty nm cat rt src))) →
  allEntries Q bd → allEntries Q (addEntry R ty nm cat rt src bd).
Proof.
  intros Hnew Hmerge [Hs Hr].
  destruct (truthy R) eqn:Ht; [|by rewrite addEntry_empty].
  destruct (includes "/" (trim R)) eqn:Hi.
  - rewrite addEntry_cidr by done.
    destruct (cidrBounds (trim R)) as [[s e]|]; [|done].
    split; [done|]. cbn [sortedRanges]. intros r Hin.
    destruct (findIndex s e (sortedRanges bd)).
    + apply elem_of_alter_mergeInto in Hin as [Hin | (r0 & Hin & ->)]; auto.
      apply Hmerge. auto.
    + apply elem_of_app in Hin as [Hin | ->%list_elem_of_singleton]; auto.
  - rewrite addEntry_exact by done. split; [|done].
    cbn [singleIPs]. intros k e.
    destruct (decide (trim R = k)) as [<-|Hne].
    + rewrite lookup_insert_eq. intros [= <-].
      destruct (singleIPs bd !! trim R) as [old|] eqn:Hold; [|done].
      apply Hmerge. eauto.
    + rewrite lookup_insert_ne by done. apply Hs.
Qed.

Lemma sortIndex_allEntries (Q : Entry → Prop) bd :
  allEntries Q bd → allEntries Q (sortIndex bd).
Proof.
  intros [Hs Hr]. split; [done|]. cbn [sortIndex sortedRanges].
  intros r Hin. apply Hr. by apply elem_of_sortRanges.
Qed.

Lemma allEntries_empty (Q : Entry → Prop) : allEntries Q emptyBotData.
Proof.
  split.
  - intros k e. cbn [emptyBotData singleIPs]. by rewrite lookup_empty.
  - intros r Hin. by apply elem_of_nil in Hin.
Qed.

(** A bot entry merged into an entry with the same fields changes
    nothing. *)
Lemma merge_like nd e incoming :
  type nd = KBot → likeEntry nd e → likeEntry nd incoming →
  merge (Some e) incoming = e.
Proof.
  intros Hty (Het & Hen & _) (Hit & Hin & _).
  rewrite merge_table, Hit, Het, Hty, Hin, Hen.
  by destruct (isGeneric (name nd)).
Qed.

Lemma addEntry_like R nm cat rt src bd :
  let nd := newData "" KBot nm cat rt src in
  allEntries (likeEntry nd) bd →
  allEntries (likeEntry nd) (addEntry R KBot nm cat rt src bd).
Proof.
  intros nd. apply addEntry_allEntries.
  - by repeat split.
  - intros e He. rewrite (merge_like nd); [done..|by repeat split].
Qed.

(** The match for an address in an index whose entries all have the fields
    of one bot entry has these fields too; its provenance is doubled when
    both an exact entry and a range hold the address. *)
Lemma ipMatch_like nd bd ip m :
  type nd = KBot → allEntries (likeEntry nd) bd →
  ipMatch bd ip = Some m →
  type m = KBot ∧ name m = name nd ∧ category m = category nd
  ∧ rating m = rating nd ∧ datacenter m = None
  ∧ (source m = source nd ∨ source m = source nd +:+ " + " +:+ source nd).
Proof.
  intros Hty [Hs Hr]. unfold ipMatch.
  destruct (toBoolean ip); [|done].
  set (sm := match ip with JStr s => singleIPs bd !! s | _ => None end).
  assert (Hsm : ∀ e, sm = Some e → likeEntry nd e).
  { subst sm. destruct ip; try done. intros e. apply Hs. }
  assert (Hrm : ∀ e, findInRange bd ip = Some e → likeEntry nd e).
  { intros e He. apply findInRange_sound in He as (_ & r & Hin & -> & _). auto. }
  destruct (findInRange bd ip) as [rm|]; destruct sm as [e|]; simpl;
    intros [= <-].
  - destruct (Hsm e eq_refl) as (-> & Hn & -> & -> & Hsrc & ->).
    destruct (Hrm rm eq_refl) as (Hrt & Hrn & _ & _ & Hrsrc & ->).
    cbn [range type name category rating source datacenter].
    rewrite Hrt, Hty, Hn, Hrn, Hsrc, Hrsrc.
    repeat split; try done; [|by right].
    destruct (truthy (name nd) && negb (name nd =? "Unknown")%string); [done|].
    destruct (name nd =? "Unknown")%string eqn:Heq; [|done].
    by apply String.eqb_eq in Heq.
  - destruct (Hrm rm eq_refl) as (-> & -> & -> & -> & -> & ->). rewrite Hty. auto 10.
  - destruct (Hsm e eq_refl) as (-> & -> & -> & -> & -> & ->). rewrite Hty. auto 10.
Qed.

(** A match that is a bot settles the classification: the user agent is
    not looked at. *)
Lemma checkBot_ip_bot bd ip ua m :
  ipMatch bd ip = Some m → type m = KBot →
  checkBot bd ip ua = applyMatch m initialResult.
Proof.
  intros Hm Hty. rewrite checkBot_unfold, ipClassification_unfold, Hm.
  rewrite applyMatch_bot by done. by destruct ua.
Qed.

Lemma checkBot_no_match bd ip ua :
  ipMatch bd ip = None → checkBot bd ip ua = checkBot emptyBotData ip ua.
Proof.
  intros Hm. rewrite !checkBot_unfold, !ipClassification_unfold, Hm.
  assert (ipMatch emptyBotData ip = None) as ->; [|done].
  unfold ipMatch. destruct (toBoolean ip); [|done].
  rewrite findInRange_no_ranges by done.
  by destruct ip.
Qed.

Lemma loadFirehol_like data : ∀ bd,
  let nd := newData "" KBot (Some "Firehol Blocklist") (Some "Malicious")
              (Some RBad) "Firehol" in
  allEntries (likeEntry nd) bd → allEntries (likeEntry nd) (loadFirehol data bd).
Proof.
  intros bd nd. destruct data as [text|]; [|done]. unfold loadFirehol.
  revert bd. induction (split newline text) as [|line ls IH]; intros bd Hbd;
    [done|].
  cbn [foldl]. apply IH. unfold fireholLine.
  destruct (_ && _); [|done]. by apply addEntry_like.
Qed.

Lemma loadPostHogBotIPs_like data : ∀ bd,
  let nd := newData "" KBot None (Some "Crawler") (Some RGood)
              "PostHog-Bot-List" in
  allEntries (likeEntry nd) bd →
  allEntries (likeEntry nd) (loadPostHogBotIPs data bd).
Proof.
  intros bd nd. destruct data as [text|]; [|done]. unfold loadPostHogBotIPs.
  revert bd. induction (split newline text) as [|line ls IH]; intros bd Hbd;
    [done|].
  cbn [foldl]. apply IH. unfold postHogLine.
  destruct (_ && _); [|done]. by apply addEntry_like.
Qed.

(** X11: in an index built from the Firehol list alone, whatever the text
    of the list, an address that is matched is a bad bot of category
    "Malicious" with no name and no datacenter, whatever the user agent;
    in one built from the PostHog list alone it is a good bot of category
    "Crawler" with no name and no datacenter; an address that is not
    matched is classified as with no index. *)
Theorem unnamed_list_classification data ip ua :
  (let bd := sortIndex (loadFirehol data emptyBotData) in
   match ipMatch bd ip with
   | Some m =>
       checkBot bd ip ua = fireholResult (source m)
       ∧ (source m = "Firehol" ∨ source m = "Firehol + Firehol")
   | None => checkBot bd ip ua = checkBot emptyBotData ip ua
   end)
  ∧ (let bd := sortIndex (loadPostHogBotIPs data emptyBotData) in
     match ipMatch bd ip with
     | Some m =>
         checkBot bd ip ua = postHogResult (source m)
         ∧ (source m = "PostHog-Bot-List"
            ∨ source m = "PostHog-Bot-List + PostHog-Bot-List")
     | None => checkBot bd ip ua = checkBot emptyBotData ip ua
     end).
Proof.
  split; intros bd.
  - set (nd := newData "" KBot (Some "Firehol Blocklist") (Some "Malicious")
                 (Some RBad) "Firehol").
    assert (Hall : allEntries (likeEntry nd) bd).
    { apply sortIndex_allEntries, loadFirehol_like, allEntries_empty. }
    destruct (ipMatch bd ip) as [m|] eqn:Hm; [|by apply checkBot_no_match].
    destruct (ipMatch_like nd bd ip m eq_refl Hall Hm)
      as (Hty & Hn & Hc & Hr & Hd & Hsrc).
    split; [|done].
    rewrite (checkBot_ip_bot _ _ _ m), applyMatch_bot by done.
    rewrite Hn, Hc, Hr, Hd. by destruct Hsrc as [-> | ->].
  - set (nd := newData "" KBot None (Some "Crawler") (Some RGood)
                 "PostHog-Bot-List").
    assert (Hall : allEntries (likeEntry nd) bd).
    { apply sortIndex_allEntries, loadPostHogBotIPs_like, allEntries_empty. }
    destruct (ipMatch bd ip) as [m|] eqn:Hm; [|by apply checkBot_no_match].
    destruct (ipMatch_like nd bd ip m eq_refl Hall Hm)
      as (Hty & Hn & Hc & Hr & Hd & Hsrc).
    split; [|done].
    rewrite (checkBot_ip_bot _ _ _ m), applyMatch_bot by done.
    rewrite Hn, Hc, Hr, Hd. by destruct Hsrc as [-> | ->].
Qed.

Lemma split_joinLines ls :
  ls ≠ [] → Forall (λ l, noChar newline l = true) ls →
  split newline (joinLines ls) = ls.
Proof.
  induction ls as [|l [|l' rest] IH]; intros Hne Hall; [done| |].
  - apply Forall_cons in Hall as [Hl _]. simpl. by apply split_noChar.
  - apply Forall_cons in Hall as [Hl Hrest].
    change (joinLines (l :: l' :: rest))
      with (l +:+ String newline (joinLines (l' :: rest))).
    rewrite split_app by done. f_equal. by apply IH.
Qed.

(** X12: a blank line or a comment line anywhere in the Firehol list
    changes nothing of what is loaded. *)
Theorem loadFirehol_ignores_comments before c after bd :
  Forall (λ l, noChar newline l = true) (before ++ c :: after) →
  truthy (trim c) = false ∨ startsWith "#" (trim c) = true →
  loadFirehol (Some (joinLines (before ++ c :: after))) bd
  = loadFirehol (Some (joinLines (before ++ after))) bd.
Proof.
  intros Hall Hc.
  assert (Hskip : ∀ bd', fireholLine bd' c = bd').
  { intros bd'. unfold fireholLine. destruct Hc as [-> | ->]; [done|].
    by rewrite andb_false_r. }
  unfold loadFirehol.
  rewrite split_joinLines by (done || by destruct before).
  rewrite foldl_app. cbn [foldl]. rewrite Hskip.
  destruct (before ++ after) as [|x xs] eqn:Hrest.
  - apply app_eq_nil in Hrest as [-> ->]. done.
  - rewrite <- Hrest, split_joinLines, foldl_app; [done|by rewrite Hrest|].
    apply Forall_app in Hall as [Hb Ha]. apply Forall_cons in Ha as [_ Ha].
    by apply Forall_app.
Qed.

Lemma hexCrawler_addItem bd (item : HexItem) :
  hexCrawler bd item = addItem bd (crawlerItem item).
Proof.
  unfold hexCrawler, addItem, crawlerItem. cbn [f_range f_type f_name
    f_category f_rating f_source].
  destruct (h_range item) as [R|]; cbn [truthyO default from_option id].
  - destruct (truthy R) eqn:Ht; [done|]. by rewrite addEntry_empty.
  - by rewrite addEntry_empty.
Qed.

Lemma hexDatacentre_addItem bd (item : HexItem) :
  hexDatacentre bd item = addItem bd (centreItem item).
Proof.
  unfold hexDatacentre, addItem, centreItem. cbn [f_range f_type f_name
    f_category f_rating f_source].
  destruct (h_range item) as [R|]; cbn [truthyO default from_option id].
  - destruct (truthy R) eqn:Ht; [done|]. by rewrite addEntry_empty.
  - by rewrite addEntry_empty.
Qed.

(** [loadHexydec] is the ingestion of the feed of its two lists. *)
Lemma loadHexydec_ingest crawlers datacentres bd :
  loadHexydec (Some crawlers) (Some datacentres) bd
  = ingest (hexFeed crawlers datacentres) bd.
Proof.
  unfold loadHexydec, hexFeed, ingest. rewrite foldl_app, !foldl_fmap.
  assert (Hc : ∀ l b, foldl hexCrawler b l
                      = foldl (λ b0 item, addItem b0 (crawlerItem item)) b l).
  { induction l as [|x l IH]; intros b; [done|].
    cbn [foldl]. by rewrite IH, hexCrawler_addItem. }
  assert (Hd : ∀ l b, foldl hexDatacentre b l
                      = foldl (λ b0 item, addItem b0 (centreItem item)) b l).
  { induction l as [|x l IH]; intros b; [done|].
    cbn [foldl]. by rewrite IH, hexDatacentre_addItem. }
  by rewrite Hc, Hd.
Qed.

Lemma foldl_blockStep (s e : Z) feed : ∀ acc,
  foldl (blockStep s e) acc feed
  = foldl (λ a it, Some (merge a (itemData it))) acc (blockItems s e feed).
Proof.
  unfold blockItems.
  induction feed as [|it feed IH]; intros acc; [done|].
  cbn [foldl]. rewrite filter_cons.
  assert (Hstep : blockStep s e acc it
                  = if inBlock s e it then Some (merge acc (itemData it))
                    else acc) by reflexivity.
  rewrite Hstep. destruct (inBlock s e it) eqn:Hit.
  - rewrite decide_True by done. cbn [foldl]. apply IH.
  - rewrite decide_False by done. apply IH.
Qed.

(** Bot entries merged into a bot entry with a specific name leave it as
    it is. *)
Lemma foldl_merge_bots (l : list FeedItem) : ∀ x,
  type x = KBot → isGeneric (name x) = false →
  Forall (λ it, type (itemData it) = KBot) l →
  foldl (λ a it, Some (merge a (itemData it))) (Some x) l = Some x.
Proof.
  induction l as [|it l IH]; intros x Hty Hx Hall; [done|].
  apply Forall_cons in Hall as [Hit Hall]. cbn [foldl].
  assert (Hm : merge (Some x) (itemData it) = x).
  { rewrite merge_table, Hit, Hty, Hx. by rewrite andb_false_r. }
  rewrite Hm. by apply IH.
Qed.

(** X13: in the index built from the Hexydec lists alone, take a block for
    which the first entry of the crawler list has a specific name, and for
    which the datacentre list has exactly one entry, with a specific name.
    If every other range of the index is non-empty and does not overlap the
    block, any address of the block other than 0.0.0.0 that has no exact
    entry is classified as that crawler, a good bot, hosted in that
    datacentre, whatever the user agent. *)
Theorem hexydec_crawler_in_datacentre crawlers datacentres (s e : Z)
    crawler centre str ua :
  truthy crawler = true → crawler ∉ untaggedNames →
  truthy centre = true → centre ∉ untaggedNames →
  let bd :=
    sortIndex (loadHexydec (Some crawlers) (Some datacentres) emptyBotData) in
  head (f_name <$> blockItems s e (crawlerItem <$> crawlers))
  = Some (Some crawler) →
  f_name <$> blockItems s e (centreItem <$> datacentres) = [Some centre] →
  alone s e (sortedRanges bd) = true →
  ipToLong (JStr str) ≠ 0 → s ≤ ipToLong (JStr str) ≤ e →
  singleIPs bd !! str = None →
  checkBot bd (JStr str) ua
  = mkClassification true (Some true) (Some crawler) (Some "Crawler")
      (Some "Hexydec-Crawlers (DC: Hexydec-Datacenters)") true (Some centre).
Proof.
  intros Hc Hcu Hd Hdu bd Hfirst Hcentre Halone Hnz Hin Hexact.
  assert (Hbd : bd = loadAllBotData (hexFeed crawlers datacentres)).
  { subst bd. by rewrite loadHexydec_ingest. }
  assert (Hspec : (crawler =? "Unknown")%string = false).
  { apply String.eqb_neq. intros ->. apply Hcu. unfold untaggedNames.
    set_solver. }
  assert (Hspec' : (crawler =? "Uncategorized")%string = false).
  { apply String.eqb_neq. intros ->. apply Hcu. unfold untaggedNames.
    set_solver. }
  (* the crawler entries of the block *)
  destruct (blockItems s e (crawlerItem <$> crawlers)) as [|c0 cs'] eqn:Hcs;
    [done|].
  cbn [fmap list_fmap head] in Hfirst. injection Hfirst as Hn0.
  assert (Hbots : Forall (λ it, type (itemData it) = KBot) (c0 :: cs')).
  { rewrite <- Hcs. apply Forall_forall. intros it Hit.
    unfold blockItems in Hit.
    apply list_elem_of_filter in Hit as [_ Hit].
    by apply list_elem_of_fmap in Hit as (item & -> & _). }
  assert (Hc0 : c0 ∈ hexFeed crawlers datacentres ∧ inBlock s e c0 = true
                ∧ ∃ item, c0 = crawlerItem item).
  { assert (Hmem : c0 ∈ blockItems s e (crawlerItem <$> crawlers)).
    { rewrite Hcs. apply list_elem_of_here. }
    unfold blockItems in Hmem. apply list_elem_of_filter in Hmem as [Hb Hmem].
    split; [|split; [done|]].
    - unfold hexFeed. apply elem_of_app. by left.
    - apply list_elem_of_fmap in Hmem as (item & -> & _). by exists item. }
  destruct Hc0 as (Hc0 & Hb0 & item0 & Hitem0).
  assert (Hname0 : name (itemData c0) = crawler).
  { unfold itemData, newData. cbn [name]. rewrite Hn0. cbn [orDefault].
    by rewrite Hc. }
  assert (Hgen0 : isGeneric (name (itemData c0)) = false).
  { rewrite Hname0. unfold isGeneric. by rewrite Hc, Hspec, Hspec'. }
  (* the datacentre entry of the block *)
  destruct (blockItems s e (centreItem <$> datacentres)) as [|d0 [|d1 ds']]
    eqn:Hds; try done.
  injection Hcentre as Hd0.
  assert (Hd0' : ∃ item, d0 = centreItem item).
  { assert (Hmem : d0 ∈ blockItems s e (centreItem <$> datacentres)).
    { rewrite Hds. apply list_elem_of_here. }
    unfold blockItems in Hmem. apply list_elem_of_filter in Hmem as [_ Hmem].
    apply list_elem_of_fmap in Hmem as (item & -> & _). by exists item. }
  destruct Hd0' as [item ->]. unfold centreItem in Hd0. cbn [f_name] in Hd0.
  (* the range of the block and its data *)
  unfold inBlock in Hb0.
  apply andb_prop in Hb0 as [Hb0 Hbounds]. apply andb_prop in Hb0 as [Ht0 Hi0].
  apply bool_decide_eq_true in Hbounds.
  destruct (loadAllBotData_hasRange (hexFeed crawlers datacentres) c0 s e)
    as (r & Hr & Hs & He); [done..|].
  rewrite <- Hbd in Hr.
  assert (Hdata : blockData s e (hexFeed crawlers datacentres) = Some (data r)).
  { rewrite <- Hs, <- He. apply loadAllBotData_blockData. by rewrite <- Hbd. }
  apply Forall_cons in Hbots as [Hty0 Hbots].
  pose proof (foldl_merge_bots cs' (itemData c0) Hty0 Hgen0 Hbots) as Hcr.
  assert (Hfold : blockData s e (hexFeed crawlers datacentres)
                  = Some (merge (Some (itemData c0))
                            (itemData (centreItem item)))).
  { unfold blockData, hexFeed.
    rewrite foldl_app, !foldl_blockStep, Hcs, Hds.
    change (foldl (λ a it, Some (merge a (itemData it))) None (c0 :: cs'))
      with (foldl (λ a it, Some (merge a (itemData it)))
              (Some (itemData c0)) cs').
    by rewrite Hcr. }
  assert (Hdr : merge (Some (itemData c0)) (itemData (centreItem item))
                = data r) by congruence.
  clear Hdata Hfold Hcr. rename Hdr into Hdata.
  assert (Hit : type (itemData (centreItem item)) = KDatacenter)
    by reflexivity.
  assert (Hin' : name (itemData (centreItem item)) = centre).
  { unfold itemData, newData, centreItem. cbn [f_name name].
    rewrite Hd0. cbn [orDefault]. by rewrite Hd. }
  assert (Hisrc : source (itemData (centreItem item)) = "Hexydec-Datacenters")
    by reflexivity.
  assert (Hfinal : data r
                   = mkEntry (range (itemData c0)) KBot crawler "Crawler" RGood
                       "Hexydec-Crawlers (DC: Hexydec-Datacenters)"
                       (Some centre)).
  { rewrite <- Hdata, merge_table, Hit, Hty0, Hin', Hisrc, Hname0.
    rewrite Hitem0. reflexivity. }
  (* the lookup and the classification *)
  assert (Hfound : findInRange bd (JStr str) = Some (data r)).
  { apply findInRange_alone; try done.
    - rewrite Hbd. apply sortRanges_ordered.
    - rewrite Hbd. apply loadAllBotData_NoDup.
    - by rewrite Hs, He.
    - by rewrite Hs, He. }
  assert (Hm : ipMatch bd (JStr str) = Some (data r)).
  { unfold ipMatch. by rewrite (ipToLong_toBoolean _ Hnz), Hexact, Hfound. }
  rewrite (checkBot_ip_bot _ _ _ _ Hm) by (by rewrite Hfinal).
  rewrite applyMatch_bot by (by rewrite Hfinal).
  rewrite Hfinal.
  cbn [type name category rating source range datacenter truthyO].
  rewrite ?Hc, ?Hd, ?Hspec. cbn [andb negb scrub].
  rewrite !bool_decide_eq_false_2 by done. reflexivity.
Qed.

End Loaders.

Lemma loadFirehol_ignores_comments_witness :
  loadFirehol (Some (joinLines (["1.2.3.4"] ++ "# a comment" :: ["10.0.0.0/8"])))
    emptyBotData
  = loadFirehol (Some (joinLines (["1.2.3.4"] ++ ["10.0.0.0/8"]))) emptyBotData.
Proof.
  apply (loadFirehol_ignores_comments ["1.2.3.4"] "# a comment" ["10.0.0.0/8"]).
  - repeat constructor.
  - right. reflexivity.
Defined.

Lemma hexydec_crawler_in_datacentre_witness :
  @checkBot sampleMatcher
    (sortIndex (loadHexydec (Some sampleCrawlers) (Some sampleCentres)
                  emptyBotData))
    (JStr "66.249.64.7") None
  = mkClassification true (Some true) (Some "Googlebot") (Some "Crawler")
      (Some "Hexydec-Crawlers (DC: Hexydec-Datacenters)") true
      (Some "Google Cloud").
Proof.
  apply (@hexydec_crawler_in_datacentre sampleMatcher sampleCrawlers
           sampleCentres (networkStart (ipValue 66 249 64 0) 19)
           (networkEnd (ipValue 66 249 64 0) 19)
           "Googlebot" "Google Cloud" "66.249.64.7" None).
  - reflexivity.
  - unfold untaggedNames. set_solver.
  - reflexivity.
  - unfold untaggedNames. set_solver.
  - vm_compute. reflexivity.
  - vm_compute. reflexivity.
  - vm_compute. reflexivity.
  - vm_compute. discriminate.
  - vm_compute. split; discriminate.
  - vm_compute. reflexivity.
Defined.

(** The first case of the classification of a single list does occur: an
    address of a listed block is matched. *)
Lemma firehol_listed :
  ipMatch (sortIndex (loadFirehol (Some (joinLines ["# list"; "1.2.3.0/24"]))
                        emptyBotData)) (JStr "1.2.3.9")
  ≠ None.
Proof. vm_compute. discriminate. Qed.

(** ** The lines the loaders read *)

Section Lines.
Implicit Types (bd : BotData) (s t ip comment : string) (c : ascii).

Lemma char_app c t : String c "" +:+ t = String c t.
Proof. reflexivity. Qed.

Lemma startsWith_noChar c s t :
  startsClean s = true → noChar c s = true →
  startsWith (String c "") (s +:+ t) = false.
Proof.
  destruct s as [|x s]; [done|]. intros _ Hno. simpl in Hno.
  rewrite string_app_cons. cbn [startsWith].
  rewrite Ascii.eqb_sym. by destruct (Ascii.eqb x c).
Qed.

Lemma string_rev_snoc s c : String.rev (s +:+ String c "") = String c (String.rev s).
Proof. unfold String.rev. by rewrite rev_app_app. Qed.

(** A trailing and a leading space are trimmed away. *)
Lemma trim_trailing_space s :
  startsClean s = true → startsClean (String.rev s) = true →
  trim (s +:+ " ") = s.
Proof.
  intros Hs Hr. unfold trim, trimEnd.
  rewrite (trimStart_clean (s +:+ " ")) by (by apply startsClean_app).
  rewrite string_rev_snoc. cbn [trimStart].
  change (isWhiteSpace " ") with true. cbn iota.
  by rewrite trimStart_clean, string_rev_involutive.
Qed.

Lemma trim_leading_space s :
  startsClean s = true → startsClean (String.rev s) = true →
  trim (String " " s) = s.
Proof.
  intros Hs Hr. unfold trim. cbn [trimStart].
  change (isWhiteSpace " ") with true. cbn iota.
  by apply trim_clean.
Qed.

(** X14: of a line [ip;as;confidence] of the Avastel list, the address is
    filed, as a residential proxy named after the network, exactly when
    the confidence is "1.0" or "1". *)
Theorem avastelLine_confidence ip as_ confidence bd :
  startsClean ip = true → noChar "#" ip = true → noChar ";" ip = true →
  noChar ";" as_ = true → noChar ";" confidence = true →
  startsClean (String.rev confidence) = true →
  avastelLine bd (ip +:+ ";" +:+ as_ +:+ ";" +:+ confidence)
  = if bool_decide (confidence = "1.0" ∨ confidence = "1")
    then addEntry ip KBot (Some ("Residential Proxy (" +:+ as_ +:+ ")"))
           (Some "ResProxy") (Some RBad) "Avastel" bd
    else bd.
Proof.
  intros Hip Hhash Hsemi Has Hconf Hend. unfold avastelLine.
  set (line := ip +:+ ";" +:+ as_ +:+ ";" +:+ confidence).
  assert (Htrim : trim line = line).
  { apply trim_clean; [by apply startsClean_app|].
    subst line. do 4 apply startsClean_rev_app. done. }
  rewrite Htrim.
  assert (truthy line = true) as ->.
  { apply truthy_startsClean. by apply startsClean_app. }
  assert (startsWith "#" line = false) as ->.
  { by apply startsWith_noChar. }
  cbn [negb orb]. subst line.
  rewrite !char_app, split_app, split_app, split_noChar by done.
  destruct (String.eqb_spec confidence "1.0") as [->|H10].
  { by rewrite bool_decide_eq_true_2 by (by left). }
  destruct (String.eqb_spec confidence "1") as [->|H1].
  { by rewrite bool_decide_eq_true_2 by (by right). }
  cbn [orb]. rewrite bool_decide_eq_false_2; [done|]. by intros [|].
Qed.

(** X15: a line of a ShadowWhisperer file files its address as a bad bot
    of the category of the file; the bot is named after the comment that
    follows the address, and after the file when there is none. *)
Theorem shadowLine_naming category file ip bd :
  startsClean ip = true → startsClean (String.rev ip) = true →
  noChar "#" ip = true →
  shadowLine category file bd ip
  = addEntry ip KBot (Some file) (Some category) (Some RBad)
      "ShadowWhisperer" bd
  ∧ (∀ comment,
       startsClean comment = true →
       startsClean (String.rev comment) = true →
       noChar "#" comment = true →
       shadowLine category file bd (ip +:+ " # " +:+ comment)
       = addEntry ip KBot (Some comment) (Some category) (Some RBad)
           "ShadowWhisperer" bd).
Proof.
  intros Hip Hrev Hhash. split.
  - unfold shadowLine. rewrite trim_clean by done.
    rewrite (truthy_startsClean ip) by done.
    rewrite <- (string_app_nil_r ip) at 1.
    rewrite startsWith_noChar by done. cbn [negb orb].
    rewrite includes_noChar by done. by rewrite (truthy_startsClean ip).
  - intros comment Hc Hcr Hch. unfold shadowLine.
    set (line := ip +:+ " # " +:+ comment).
    assert (Hline : line = (ip +:+ " ") +:+ String "#" (String " " comment)).
    { subst line. by rewrite string_app_assoc. }
    assert (Htrim : trim line = line).
    { apply trim_clean; [by apply startsClean_app|].
      subst line. do 2 apply startsClean_rev_app. done. }
    rewrite Htrim.
    assert (truthy line = true) as ->.
    { apply truthy_startsClean. by apply startsClean_app. }
    assert (startsWith "#" line = false) as ->.
    { by apply startsWith_noChar. }
    cbn [negb orb]. rewrite Hline.
    rewrite includes_char, split_app.
    2: { rewrite noChar_app, Hhash. reflexivity. }
    assert (noChar "#" (String " " comment) = true) as Hsp.
    { cbn [noChar]. by rewrite Hch. }
    rewrite split_noChar by done.
    rewrite trim_trailing_space, trim_leading_space by done.
    by rewrite (truthy_startsClean ip), (truthy_startsClean comment).
Qed.

End Lines.

Lemma avastelLine_confidence_witness :
  avastelLine emptyBotData ("1.2.3.4" +:+ ";" +:+ "AS123" +:+ ";" +:+ "0.9")
  = if bool_decide ("0.9" = "1.0" ∨ "0.9" = "1")
    then addEntry "1.2.3.4" KBot
           (Some ("Residential Proxy (" +:+ "AS123" +:+ ")"))
           (Some "ResProxy") (Some RBad) "Avastel" emptyBotData
    else emptyBotData.
Proof.
  apply (avastelLine_confidence "1.2.3.4" "AS123" "0.9" emptyBotData);
    reflexivity.
Defined.

Lemma shadowLine_naming_witness :
  shadowLine "Malware" "list.txt" emptyBotData "1.2.3.4"
  = addEntry "1.2.3.4" KBot (Some "list.txt") (Some "Malware") (Some RBad)
      "ShadowWhisperer" emptyBotData
  ∧ (∀ comment,
       startsClean comment = true →
       startsClean (String.rev comment) = true →
       noChar "#" comment = true →
       shadowLine "Malware" "list.txt" emptyBotData
         ("1.2.3.4" +:+ " # " +:+ comment)
       = addEntry "1.2.3.4" KBot (Some comment) (Some "Malware") (Some RBad)
           "ShadowWhisperer" emptyBotData).
Proof.
  apply (shadowLine_naming "Malware" "list.txt" "1.2.3.4" emptyBotData);
    reflexivity.
Defined.

(** ** Further properties of the retry wrapper *)

Section RetryExtra.
Context {A : Type}.
Implicit Types (fn : nat → Outcome A) (eff : Effects) (backoff : Q).

Lemma retryLoop_retryable budget fn backoff eff :
  retryable (fn (calls eff)) = true →
  ∃ w, retryLoop (S budget) fn backoff eff
       = retryLoop budget fn (nextBackoff backoff)
           (mkEffects (statsRetries eff + 1) (sleeps eff ++ [w]) (S (calls eff)))
     ∧ (w = backoff
        ∨ ∃ r, fn (calls eff) = Rejected (Some r) ∧ status r = 429
               ∧ w = waitTime429 r backoff).
Proof.
  intros Hr. cbn [retryLoop].
  destruct (fn (calls eff)) as [a|[r|]]; simpl in Hr; try done.
  destruct (status r =? 429) eqn:E429.
  - eexists. split; [done|]. right. exists r. apply Z.eqb_eq in E429. done.
  - simpl in Hr. rewrite Hr. eexists. split; [done|]. by left.
Qed.

Lemma retryLoop_settles budget fn backoff eff :
  retryable (fn (calls eff)) = false →
  retryLoop (S budget) fn backoff eff
  = (settle (fn (calls eff)),
     mkEffects (statsRetries eff) (sleeps eff) (S (calls eff))).
Proof.
  intros Hr. cbn [retryLoop].
  destruct (fn (calls eff)) as [a|[r|]]; simpl in *; try done.
  apply orb_false_elim in Hr as [-> ->]. done.
Qed.

Lemma retryLoop_recovers k : ∀ budget fn backoff eff,
  (k < budget)%nat →
  (∀ j, (j < k)%nat → retryable (fn (calls eff + j)%nat) = true) →
  retryable (fn (calls eff + k)%nat) = false →
  ∃ ws, retryLoop budget fn backoff eff
        = (settle (fn (calls eff + k)%nat),
           mkEffects (statsRetries eff + Z.of_nat k) (sleeps eff ++ ws)
             (calls eff + k + 1))
        ∧ length ws = k.
Proof.
  induction k as [|k IH]; intros budget fn backoff eff Hlt Hfail Hlast.
  - destruct budget as [|budget]; [lia|].
    exists []. rewrite Nat.add_0_r in *. rewrite retryLoop_settles by done.
    split; [|done]. f_equal. f_equal; try lia. by rewrite app_nil_r.
  - destruct budget as [|budget]; [lia|].
    destruct (retryLoop_retryable budget fn backoff eff) as (w & -> & _).
    { specialize (Hfail O). rewrite Nat.add_0_r in Hfail. apply Hfail. lia. }
    destruct (IH budget fn (nextBackoff backoff)
                (mkEffects (statsRetries eff + 1) (sleeps eff ++ [w])
                   (S (calls eff)))) as (ws & -> & Hlen).
    + lia.
    + intros j Hj. cbn [calls].
      replace (S (calls eff) + j)%nat with (calls eff + S j)%nat by lia.
      apply Hfail. lia.
    + cbn [calls].
      by replace (S (calls eff) + k)%nat with (calls eff + S k)%nat by lia.
    + exists (w :: ws). cbn [calls sleeps statsRetries].
      replace (S (calls eff) + k)%nat with (calls eff + S k)%nat by lia.
      split; [|simpl; lia].
      f_equal. f_equal; try lia. by rewrite <- app_assoc.
Qed.

(** X16: when the transport fails with a retryable error fewer than ten
    times and then resolves or fails for good, the wrapper ends as that
    last call does, having counted one retry and slept once for each
    failure. *)
Theorem fetchWithRetry_recovers fn eff (k : nat) :
  (k < 10)%nat →
  (∀ j, (j < k)%nat → retryable (fn (calls eff + j)%nat) = true) →
  retryable (fn (calls eff + k)%nat) = false →
  ∃ ws, fetchWithRetry fn eff
        = (settle (fn (calls eff + k)%nat),
           mkEffects (statsRetries eff + Z.of_nat k) (sleeps eff ++ ws)
             (calls eff + k + 1))
        ∧ length ws = k.
Proof. intros Hk. by apply retryLoop_recovers. Qed.

Lemma retryLoop_429 budget fn backoff eff r :
  fn (calls eff) = Rejected (Some r) → status r = 429 →
  retryLoop (S budget) fn backoff eff
  = retryLoop budget fn (nextBackoff backoff)
      (mkEffects (statsRetries eff + 1)
         (sleeps eff ++ [waitTime429 r backoff]) (S (calls eff))).
Proof. intros Hfn Hs. cbn [retryLoop]. by rewrite Hfn, Hs. Qed.

Lemma retryLoop_5xx budget fn backoff eff r :
  fn (calls eff) = Rejected (Some r) → 500 ≤ status r →
  retryLoop (S budget) fn backoff eff
  = retryLoop budget fn (nextBackoff backoff)
      (mkEffects (statsRetries eff + 1) (sleeps eff ++ [backoff])
         (S (calls eff))).
Proof.
  intros Hfn Hs. cbn [retryLoop]. rewrite Hfn.
  assert ((status r =? 429) = false) as ->; [apply Z.eqb_neq; lia|].
  apply Z.leb_le in Hs. by rewrite Hs.
Qed.

(** X17: a positive [retry-after] hint on a 429 replaces the wait of that
    retry, but the backoff grows all the same: the next wait is 3000 ms,
    not 2000 ms. *)
Theorem retry_after_honoured fn eff r later (v : A) :
  fn (calls eff) = Rejected (Some r) → status r = 429 →
  fn (S (calls eff)) = Rejected (Some later) → 500 ≤ status later →
  fn (S (S (calls eff))) = Resolved v →
  ∃ w, fetchWithRetry fn eff
       = (Returned v,
          mkEffects (statsRetries eff + 2)
            (sleeps eff ++ [waitTime429 r 2000; w]) (calls eff + 3))
     ∧ (w == 3000)%Q
     ∧ (∀ h n, retryAfterHeader r = Some h → truthy h = true →
               parseInt h = Some n → 0 < n →
               waitTime429 r 2000 = inject_Z (n * 1000))
     ∧ (∀ h, retryAfterHeader r = Some h → parseInt h = None →
             waitTime429 r 2000 = 2000%Q)
     ∧ (retryAfterHeader r = None → waitTime429 r 2000 = 2000%Q).
Proof.
  intros H1 Hs H2 Hl H3.
  exists (nextBackoff 2000). split; [|split; [done|]].
  - unfold fetchWithRetry, MAX_RETRIES.
    rewrite (retryLoop_429 9 fn 2000 eff r H1 Hs).
    rewrite (retryLoop_5xx 8 fn _ _ later) by done.
    rewrite (retryLoop_resolved 7 fn _ _ v) by done.
    cbn [calls statsRetries sleeps].
    f_equal. f_equal; try lia. by rewrite <- app_assoc.
  - unfold waitTime429. split; [|split].
    + intros h n -> Hh Hp Hn. cbn [truthyO default from_option id].
      rewrite Hh, Hp. cbn [fmap option_fmap option_map].
      assert ((0 <? n * 1000) = true) as ->; [apply Z.ltb_lt; lia|done].
    + intros h -> Hp. cbn [truthyO default from_option id]. rewrite Hp.
      by destruct (truthy h).
    + by intros ->.
Qed.

Lemma retryLoop_schedule budget : ∀ fn backoff eff,
  unhinted fn →
  ∃ k, (k ≤ budget)%nat
    ∧ sleeps (retryLoop budget fn backoff eff).2
      = sleeps eff ++ take k (schedule budget backoff)
    ∧ statsRetries (retryLoop budget fn backoff eff).2
      = statsRetries eff + Z.of_nat k.
Proof.
  induction budget as [|n IH]; intros fn backoff eff Hun.
  - exists O. simpl. rewrite app_nil_r. repeat split; lia.
  - destruct (retryable (fn (calls eff))) eqn:Hr.
    + destruct (retryLoop_retryable n fn backoff eff Hr) as (w & -> & Hw).
      assert (w = backoff) as ->.
      { destruct Hw as [-> | (r & Hfn & _ & ->)]; [done|].
        unfold waitTime429. by rewrite (Hun _ _ Hfn). }
      destruct (IH fn (nextBackoff backoff)
                  (mkEffects (statsRetries eff + 1) (sleeps eff ++ [backoff])
                     (S (calls eff))) Hun) as (k & Hk & -> & ->).
      exists (S k). cbn [sleeps statsRetries schedule take].
      rewrite <- app_assoc. split; [lia|split; [reflexivity|lia]].
    + rewrite retryLoop_settles by done. exists O.
      cbn [snd sleeps statsRetries take]. rewrite app_nil_r.
      repeat split; lia.
Qed.

Lemma nextBackoff_least backoff :
  (1000 <= backoff)%Q → (1000 <= nextBackoff backoff)%Q.
Proof.
  intros Hb. unfold nextBackoff. apply Q.min_glb; [|done].
  destruct backoff as [p q]. unfold Qle, Qmult in *. simpl in *.
  rewrite Pos2Z.inj_mul. lia.
Qed.

Lemma waitTime429_least r backoff :
  (1000 <= backoff)%Q → (1000 <= waitTime429 r backoff)%Q.
Proof.
  intros Hb. unfold waitTime429.
  destruct (truthyO (retryAfterHeader r)); [|exact Hb].
  destruct (parseInt _) as [n|]; [|exact Hb].
  cbn [fmap option_fmap option_map].
  destruct (0 <? n * 1000) eqn:Hms; [|exact Hb].
  apply Z.ltb_lt in Hms. unfold Qle, inject_Z. simpl. lia.
Qed.

Lemma retryLoop_waits budget : ∀ fn backoff eff,
  (1000 <= backoff)%Q →
  ∃ ws, sleeps (retryLoop budget fn backoff eff).2 = sleeps eff ++ ws
    ∧ Forall (λ w, (1000 <= w)%Q) ws ∧ (length ws ≤ budget)%nat.
Proof.
  induction budget as [|n IH]; intros fn backoff eff Hb.
  - exists []. simpl. rewrite app_nil_r. split; [done|]. split; [constructor|lia].
  - destruct (retryable (fn (calls eff))) eqn:Hr.
    + destruct (retryLoop_retryable n fn backoff eff Hr) as (w & -> & Hw).
      destruct (IH fn (nextBackoff backoff)
                  (mkEffects (statsRetries eff + 1) (sleeps eff ++ [w])
                     (S (calls eff))) (nextBackoff_least _ Hb))
        as (ws & -> & Hall & Hlen).
      exists (w :: ws). cbn [sleeps]. rewrite <- app_assoc.
      split; [reflexivity|]. split; [|simpl; lia].
      constructor; [|done].
      destruct Hw as [-> | (r & _ & _ & ->)]; [done|].
      by apply waitTime429_least.
    + rewrite retryLoop_settles by done. exists [].
      cbn [snd sleeps]. rewrite app_nil_r.
      split; [done|]. split; [constructor|simpl; lia].
Qed.

(** X18: the wrapper sleeps at most ten times and never less than one
    second; when no response carries a [retry-after] header the waits are
    the first ones of a fixed schedule that starts at 2 s, grows by half
    each time and stops at 60 s. *)
Theorem fetchWithRetry_waits fn eff :
  (∃ ws, sleeps (fetchWithRetry fn eff).2 = sleeps eff ++ ws
     ∧ Forall (λ w, (1000 <= w)%Q) ws ∧ (length ws ≤ 10)%nat)
  ∧ (unhinted fn →
     ∃ k, (k ≤ 10)%nat
       ∧ sleeps (fetchWithRetry fn eff).2
         = sleeps eff ++ take k (schedule MAX_RETRIES 2000)
       ∧ statsRetries (fetchWithRetry fn eff).2
         = statsRetries eff + Z.of_nat k)
  ∧ Forall2 Qeq (schedule MAX_RETRIES 2000)
      [2000; 3000; 4500; 6750; 10125; 30375 # 2; 91125 # 4; 273375 # 8;
       820125 # 16; 60000]%Q.
Proof.
  split; [|split].
  - by apply (retryLoop_waits MAX_RETRIES fn 2000 eff).
  - intros Hun. apply (retryLoop_schedule MAX_RETRIES fn 2000 eff Hun).
  - unfold MAX_RETRIES. cbn [schedule].
    repeat (constructor; [by vm_compute|]). constructor.
Qed.

End RetryExtra.

Lemma fetchWithRetry_recovers_witness :
  ∃ ws, fetchWithRetry (failsThenOk 9) freshEffects
        = (settle (failsThenOk 9 (0 + 9)%nat),
           mkEffects (0 + Z.of_nat 9) ([] ++ ws) (0 + 9 + 1))
        ∧ length ws = 9%nat.
Proof.
  apply (fetchWithRetry_recovers (failsThenOk 9) freshEffects 9).
  - lia.
  - intros j Hj. unfold failsThenOk. cbn [freshEffects calls Nat.add].
    by destruct (Nat.ltb_spec j 9); [|lia].
  - reflexivity.
Defined.

Lemma retry_after_honoured_witness :
  ∃ w, fetchWithRetry hintedThenOk freshEffects
       = (Returned "ok",
          mkEffects (0 + 2)
            ([] ++ [waitTime429 (mkResponse 429 (Some "7")) 2000; w]) (0 + 3))
     ∧ (w == 3000)%Q
     ∧ (∀ h n, Some "7" = Some h → truthy h = true →
               parseInt h = Some n → 0 < n →
               waitTime429 (mkResponse 429 (Some "7")) 2000 = inject_Z (n * 1000))
     ∧ (∀ h, Some "7" = Some h → parseInt h = None →
             waitTime429 (mkResponse 429 (Some "7")) 2000 = 2000%Q)
     ∧ (Some "7" = None →
        waitTime429 (mkResponse 429 (Some "7")) 2000 = 2000%Q).
Proof.
  apply (retry_after_honoured hintedThenOk freshEffects
           (mkResponse 429 (Some "7")) (mkResponse 503 None) "ok");
    try reflexivity.
  cbn [status]. lia.
Defined.

(** ** Further properties of the resolver and of the planner *)

Section ResolverExtra.
Context `{UserAgentMatcher}.
Implicit Types (bd : BotData) (ip : jsval) (row : Row)
  (analysis : Classification).

(** X19: the user agent can only add a bot verdict. It never changes the
    datacenter fields, it is not looked at when the address is a bot's,
    and a user agent that is empty or that the matcher does not know
    changes nothing. *)
Theorem checkBot_user_agent_scope bd ip ua :
  let byAddress := checkBot bd ip None in
  let r := checkBot bd ip ua in
  isDatacenter r = isDatacenter byAddress
  ∧ datacenterName r = datacenterName byAddress
  ∧ (isBot byAddress = true → r = byAddress)
  ∧ (isBot r = false → r = byAddress)
  ∧ (∀ s, ua = Some s → truthy s && isbot s = false → r = byAddress).
Proof.
  intros byAddress r. subst byAddress r.
  rewrite !checkBot_unfold. destruct ua as [s|]; [|by repeat split].
  destruct (isBot (ipClassification bd ip)) eqn:Hb; cbn [negb andb].
  - repeat split; done.
  - destruct (truthy s && isbot s) eqn:Hs.
    + repeat split; try done. intros s' [= <-]. by rewrite Hs.
    + by repeat split.
Qed.

(** X20: an address filed as a bot that also lies in a datacenter range is
    reported as the bot, hosted in that datacenter, with both provenances;
    and a bot entry that has no name takes the name of the range. *)
Theorem exact_bot_in_datacenter_range bd s sm rm ua :
  truthy s = true →
  singleIPs bd !! s = Some sm → findInRange bd (JStr s) = Some rm →
  type sm = KBot → type rm = KDatacenter →
  datacenter sm = None → datacenter rm = None → truthy (name rm) = true →
  let r := checkBot bd (JStr s) ua in
  isBot r = true
  ∧ isGoodBot r = match rating sm with
                  | RGood => Some true
                  | RBad => Some false
                  | RNeutral => None
                  end
  ∧ botSource r = Some (source sm +:+ " + " +:+ source rm)
  ∧ isDatacenter r = true
  ∧ datacenterName r = scrub (Some (name rm))
  ∧ (truthy (name sm) = true → name sm ≠ "Unknown" →
     botName r = scrub (Some (name sm)))
  ∧ (name sm = "Unknown" → name rm ≠ "Unknown" →
     botName r = scrub (Some (name rm))).
Proof.
  intros Hs Hsm Hrm Hts Htr Hds Hdr Hn r. subst r.
  assert (Hm : ipMatch bd (JStr s)
               = combineMatches (Some sm) (Some rm)).
  { unfold ipMatch. cbn [toBoolean]. by rewrite Hs, Hsm, Hrm. }
  cbn [combineMatches] in Hm. rewrite Hds, Hdr, Htr in Hm.
  rewrite bool_decide_eq_true_2 in Hm by done.
  cbn [orElse truthyO] in Hm.
  rewrite (checkBot_ip_bot _ _ _ _ Hm) by done.
  rewrite applyMatch_bot by done.
  cbn [isBot isGoodBot botName botType botSource isDatacenter datacenterName
       range type name category rating source datacenter truthyO].
  rewrite Hn. repeat split.
  - by destruct (source sm).
  - intros Ht Hne. rewrite Ht. apply String.eqb_neq in Hne. rewrite Hne.
    cbn [andb negb]. by rewrite Ht, Hne.
  - intros Hu Hne. rewrite Hu.
    change ("Unknown" =? "Unknown")%string with true.
    change (truthy "Unknown") with true. cbn [andb negb].
    apply String.eqb_neq in Hne. rewrite Hne. cbn [negb].
    by rewrite Hn, Hne.
Qed.

End ResolverExtra.

Section PlannerExtra.
Implicit Types (row : Row) (analysis : Classification) (k : string).

Lemma getProp_elem obj k v :
  NoDup obj.*1 → (k, v) ∈ obj → getProp k obj = Some v.
Proof.
  induction obj as [|[k' v'] obj IH]; intros Hnd Hin.
  - by apply elem_of_nil in Hin.
  - apply NoDup_cons in Hnd as [Hk Hnd]. simpl.
    apply elem_of_cons in Hin as [[= <- <-] | Hin].
    + by rewrite String.eqb_refl.
    + destruct (String.eqb_spec k' k) as [->|Hne]; [|by apply IH].
      destruct Hk. apply list_elem_of_fmap. by exists (k, v).
Qed.

(** A key is in the patch when [props] has it with a value the filter
    keeps. *)
Lemma key_in_patch analysis row k :
  k ∈ (filteredProps analysis row).*1
  ↔ ∃ v, getProp k (props analysis row) = Some v ∧ keepProp row (k, v) = true.
Proof.
  rewrite elem_of_keys_filteredProps. split; intros (v & H1 & H2); exists v.
  - split; [|done]. apply getProp_elem; [apply props_keys_NoDup|done].
  - split; [done|]. by apply getProp_Some.
Qed.

Lemma notNullish_ofOpt o :
  notNullish (ofOpt (orElse o None)) = truthyO o.
Proof. destruct o as [s|]; [|done]. unfold orElse. simpl. by destruct (truthy s). Qed.

Lemma keepProp_is_bot row v :
  keepProp row ("is_bot", v)
  = if strictEq v (JBool (isBotAlready row)) then false else notNullish v.
Proof. reflexivity. Qed.

Lemma keepProp_is_good_bot row v :
  keepProp row ("is_good_bot", v)
  = if strictEq v (JBool (isGoodAlready row)) then false else notNullish v.
Proof. reflexivity. Qed.

Lemma keepProp_nonproxy row v :
  keepProp row ("$latest_nonproxy_ip", v)
  = if strictEq v (existingLatestNonProxyIp row) then false else notNullish v.
Proof. reflexivity. Qed.

(** X21: which of the compared flags go into the patch: [is_bot] when it
    differs from the stored flag read loosely, [is_good_bot] for a bot
    whose rating differs from the stored one read loosely, [datacenter]
    when a name is known and is not the stored one, and
    [$latest_nonproxy_ip] only for an address that is neither a bot's nor
    a datacenter's and is not the stored one. *)
Theorem flags_in_patch analysis row :
  let keys := (filteredProps analysis row).*1 in
  ("is_bot" ∈ keys ↔ isBot analysis ≠ isBotAlready row)
  ∧ ("is_good_bot" ∈ keys
     ↔ isBot analysis = true
       ∧ default false (isGoodBot analysis) ≠ isGoodAlready row)
  ∧ ("datacenter" ∈ keys
     ↔ ∃ s, datacenterName analysis = Some s ∧ truthy s = true
            ∧ existingDatacenter row ≠ JStr s)
  ∧ ("$latest_nonproxy_ip" ∈ keys
     ↔ isBot analysis = false ∧ isDatacenter analysis = false
       ∧ toBoolean (processedIp row) = true
       ∧ existingLatestNonProxyIp row ≠ processedIp row).
Proof.
  intros keys. subst keys. rewrite !key_in_patch.
  split; [|split; [|split]].
  - change (getProp "is_bot" (props analysis row))
      with (Some (JBool (isBot analysis))).
    split.
    + intros (v & [= <-] & Hk). rewrite keepProp_is_bot in Hk.
      intros Heq. rewrite Heq, strictEq_refl in Hk. done.
    + intros Hne. eexists. split; [done|]. rewrite keepProp_is_bot.
      destruct (strictEq _ _) eqn:Hs; [|done].
      apply strictEq_true in Hs as [= Heq]. done.
  - change (getProp "is_good_bot" (props analysis row))
      with (Some (if isBot analysis
                  then JBool (default false (isGoodBot analysis)) else JNull)).
    split.
    + intros (v & [= <-] & Hk). destruct (isBot analysis); [|done].
      split; [done|]. intros Heq. rewrite keepProp_is_good_bot in Hk.
      rewrite Heq, strictEq_refl in Hk. done.
    + intros [-> Hne]. eexists. split; [done|]. rewrite keepProp_is_good_bot.
      destruct (strictEq _ _) eqn:Hs; [|done].
      apply strictEq_true in Hs as [= Heq]. done.
  - change (getProp "datacenter" (props analysis row))
      with (Some (ofOpt (orElse (datacenterName analysis) None))).
    split.
    + intros (v & [= <-] & Hk). rewrite keepProp_datacenter in Hk.
      destruct (strictEq _ _) eqn:Hs; [done|].
      rewrite notNullish_ofOpt in Hk.
      destruct (datacenterName analysis) as [s|]; [|done].
      exists s. repeat split; [done|]. intros Heq.
      apply strictEq_false in Hs. apply Hs. rewrite Heq.
      unfold orElse. cbn [truthyO] in *. by rewrite Hk.
    + intros (s & -> & Ht & Hne). eexists. split; [done|].
      rewrite keepProp_datacenter. unfold orElse. cbn [truthyO]. rewrite Ht.
      cbn [ofOpt].
      destruct (strictEq _ _) eqn:Hs; [|done].
      apply strictEq_true in Hs. by destruct Hne.
  - split.
    + intros (v & Hg & Hk). apply getProp_Some, props_elem in Hg.
      destruct Hg as [Hg | [Hg | Hg]].
      * apply baseProps_elem_key in Hg. unfold baseKeys in Hg. set_solver.
      * apply addressProps_elem in Hg as (_ & _ & _ & [? | [? _]]); done.
      * apply nonProxyProps_elem in Hg. tauto.
    + intros (Hb & Hd & Ht & Hne). exists (processedIp row). split.
      * apply getProp_elem; [apply props_keys_NoDup|].
        apply props_elem. right. right. by apply nonProxyProps_elem.
      * rewrite keepProp_nonproxy.
        destruct (strictEq _ _) eqn:Hs.
        -- apply strictEq_true in Hs. by destruct Hne.
        -- by apply toBoolean_notNullish.
Qed.

End PlannerExtra.

Section EventExtra.
Implicit Types (row : Row) (analysis : Classification) (k : string).

Lemma keepProp_label row k v :
  k ∈ uncomparedProps → keepProp row (k, v) = notNullish v.
Proof.
  unfold uncomparedProps. rewrite !elem_of_cons, elem_of_nil.
  intros [-> | [-> | [-> | []]]]; reflexivity.
Qed.

(** The three labels are in the patch whenever they are known. *)
Lemma label_keys analysis row :
  ("bot_name" ∈ (filteredProps analysis row).*1
   ↔ truthyO (botName analysis) = true)
  ∧ ("bot_type" ∈ (filteredProps analysis row).*1
     ↔ truthyO (botType analysis) = true)
  ∧ ("bot_identification_source" ∈ (filteredProps analysis row).*1
     ↔ truthyO (botSource analysis) = true).
Proof.
  rewrite !key_in_patch.
  change (getProp "bot_name" (props analysis row))
    with (Some (ofOpt (orElse (botName analysis) None))).
  change (getProp "bot_type" (props analysis row))
    with (Some (ofOpt (orElse (botType analysis) None))).
  change (getProp "bot_identification_source" (props analysis row))
    with (Some (ofOpt (orElse (botSource analysis) None))).
  repeat split.
  all: try (intros (v & [= <-] & Hk);
            rewrite keepProp_label, notNullish_ofOpt in Hk;
            [done|unfold uncomparedProps; set_solver]).
  all: intros Ht; eexists; split; [done|];
    rewrite keepProp_label, notNullish_ofOpt;
    [done|unfold uncomparedProps; set_solver].
Qed.

(** X22: the keys of a patch are distinct and are among nine fixed names;
    the three labels are in the patch whenever they are known, whatever is
    stored. *)
Theorem labels_in_patch analysis row :
  let keys := (filteredProps analysis row).*1 in
  NoDup keys
  ∧ (∀ k, k ∈ keys → k ∈ patchKeys)
  ∧ ("bot_name" ∈ keys ↔ truthyO (botName analysis) = true)
  ∧ ("bot_type" ∈ keys ↔ truthyO (botType analysis) = true)
  ∧ ("bot_identification_source" ∈ keys
     ↔ truthyO (botSource analysis) = true).
Proof.
  intros keys. subst keys. split; [|split].
  - unfold filteredProps.
    apply (NoDup_fmap_2_strong fst); [|apply NoDup_filter].
    + intros [k1 v1] [k2 v2] H1%list_elem_of_filter H2%list_elem_of_filter Hk.
      simpl in Hk. subst k2. f_equal.
      destruct H1 as [_ H1], H2 as [_ H2].
      apply (getProp_elem _ _ _ (props_keys_NoDup analysis row)) in H1, H2.
      congruence.
    + eapply NoDup_fmap_1. apply props_keys_NoDup.
  - intros k (v & _ & Hin)%elem_of_keys_filteredProps.
    apply props_elem in Hin as [Hin | [Hin | Hin]]; unfold patchKeys.
    + apply elem_of_app. left. by apply baseProps_elem_key in Hin.
    + apply addressProps_elem in Hin as (_ & _ & _ & [-> | [-> _]]);
        set_solver.
    + apply nonProxyProps_elem in Hin as (-> & _). set_solver.
  - apply label_keys.
Qed.

Lemma effectiveDistinctId_plain analysis row :
  isBot analysis = false → effectiveDistinctId analysis row = distinctId row.
Proof. intros Hb. unfold effectiveDistinctId. by rewrite Hb. Qed.

Lemma eventName_identify analysis row :
  eventName analysis row = "$identify"
  ↔ isBot analysis = true
    ∧ effectiveDistinctId analysis row ≠ distinctId row.
Proof.
  unfold eventName. destruct (isBot analysis); cbn [andb].
  - destruct (String.eqb_spec (effectiveDistinctId analysis row) (distinctId row))
      as [Heq|Hne]; cbn [negb]; split; try done.
    + by intros [_ ?].
  - split; [done|by intros [? _]].
Qed.

(** X23: the shape of what the planner emits. No event is emitted exactly
    when the patch is empty and the identity does not change. An event is
    an "$identify" exactly when its distinct id differs from the person's,
    exactly then it carries the person's id as anonymous id; for a person
    that is no bot it is a "$set" under the person's own id with a
    non-empty patch. *)
Theorem plan_event_shape analysis row :
  (plan analysis row = None
   ↔ filteredProps analysis row = []
     ∧ effectiveDistinctId analysis row = distinctId row)
  ∧ (∀ ev, plan analysis row = Some ev →
       set_props ev = filteredProps analysis row
       ∧ distinct_id ev = effectiveDistinctId analysis row
       ∧ (event ev = "$identify" ∨ event ev = "$set")
       ∧ (event ev = "$identify" ↔ distinct_id ev ≠ distinctId row)
       ∧ (event ev = "$identify"
          ↔ anon_distinct_id ev = Some (distinctId row))
       ∧ (event ev = "$set" ↔ anon_distinct_id ev = None)
       ∧ (isBot analysis = false →
          event ev = "$set" ∧ distinct_id ev = distinctId row
          ∧ set_props ev ≠ [])).
Proof.
  pose proof (eventName_identify analysis row) as Hid.
  pose proof (effectiveDistinctId_plain analysis row) as Hplain.
  unfold plan.
  assert (Hname : eventName analysis row = "$identify"
                  ∨ eventName analysis row = "$set").
  { unfold eventName. destruct (_ && _); auto. }
  destruct (String.eqb_spec (eventName analysis row) "$identify") as [He|He].
  - rewrite orb_true_r. split.
    + split; [done|]. intros [_ Heq]. apply Hid in He as [_ Hne]. done.
    + intros ev [= <-]. cbn [set_props distinct_id event anon_distinct_id].
      rewrite He. apply Hid in He as [Hb Hne].
      repeat split; try done; auto; congruence.
  - rewrite orb_false_r.
    destruct Hname as [Hname|Hname]; [done|].
    assert (Heff : isBot analysis = true →
                   effectiveDistinctId analysis row = distinctId row).
    { intros Hb.
      destruct (String.eqb_spec (effectiveDistinctId analysis row)
                  (distinctId row)) as [Heq|Hne]; [done|].
      destruct He. apply Hid. done. }
    assert (Hsame : effectiveDistinctId analysis row = distinctId row).
    { destruct (isBot analysis); auto. }
    destruct (bool_decide_reflect (filteredProps analysis row = [])) as [Hf|Hf];
      cbn [negb].
    + split; [done|]. intros ev [=].
    + split; [split; [done|by intros [? _]]|].
      intros ev [= <-]. cbn [set_props distinct_id event anon_distinct_id].
      rewrite Hname, Hsame. repeat split; try done; auto.
Qed.

(** X24: how a bot is identified. A good bot with a name gets its name as
    distinct id, a bad bot an id made of its name and the address, any
    other bot keeps the person's id; and whenever the id changes an
    "$identify" is emitted that links the person's id, even when the patch
    is empty. *)
Theorem identity_escalation analysis row :
  isBot analysis = true →
  (∀ n, isGoodBot analysis = Some true → botName analysis = Some n →
        truthy n = true → effectiveDistinctId analysis row = n)
  ∧ (isGoodBot analysis = Some false →
     effectiveDistinctId analysis row = badBotId analysis row)
  ∧ (isGoodBot analysis = None
     ∨ (isGoodBot analysis = Some true ∧ truthyO (botName analysis) = false) →
     effectiveDistinctId analysis row = distinctId row)
  ∧ (effectiveDistinctId analysis row ≠ distinctId row →
     plan analysis row
     = Some (mkEvent "$identify" (filteredProps analysis row)
               (Some (distinctId row)) (effectiveDistinctId analysis row))).
Proof.
  intros Hb. split; [|split; [|split]].
  - intros n Hg Hn Ht. unfold effectiveDistinctId.
    rewrite Hb, Hg, Hn. cbn [default from_option id truthyO andb]. by rewrite Ht.
  - intros Hg. unfold effectiveDistinctId, badBotId. rewrite Hb, Hg.
    cbn [default from_option id andb]. by rewrite bool_decide_eq_true_2.
  - intros [Hg | [Hg Hn]]; unfold effectiveDistinctId; rewrite Hb, Hg.
    + cbn [default from_option id andb]. by rewrite bool_decide_eq_false_2.
    + cbn [default from_option id andb]. rewrite Hn.
      by rewrite bool_decide_eq_false_2.
  - intros Hne.
    assert (He : eventName analysis row = "$identify").
    { by apply eventName_identify. }
    unfold plan. rewrite He. cbn [String.eqb]. by rewrite orb_true_r.
Qed.

End EventExtra.

Section EmitExtra.
Context `{UserAgentMatcher}.

(** A bot always yields an event, whose patch has the category and the
    source. *)
Lemma processRow_bot botData row :
  isBot (analyse botData row) = true →
  ∃ ev, processRow botData row = Some ev
    ∧ "bot_type" ∈ (set_props ev).*1
    ∧ "bot_identification_source" ∈ (set_props ev).*1.
Proof.
  intros Hb. pose proof (analyse_wellFormed botData row) as Hwf.
  unfold wellFormed in Hwf. rewrite Hb in Hwf.
  destruct Hwf as [(t & Ht & Htt) (s & Hs & Hst)].
  destruct (label_keys (analyse botData row) row) as (_ & Htype & Hsrc).
  assert (H1 : "bot_type" ∈ (filteredProps (analyse botData row) row).*1).
  { apply Htype. by rewrite Ht. }
  assert (H2 : "bot_identification_source"
               ∈ (filteredProps (analyse botData row) row).*1).
  { apply Hsrc. by rewrite Hs. }
  unfold processRow, plan.
  destruct (bool_decide_reflect (filteredProps (analyse botData row) row = []))
    as [Hf|Hf].
  { rewrite Hf in H1. by apply elem_of_nil in H1. }
  cbn [negb orb]. eexists. split; [done|]. by split.
Qed.

(** X25: a person classified as a bot is never skipped: an event is
    emitted, and its patch holds the bot's category and the source of the
    verdict. *)
Theorem bot_always_emits botData row :
  isBot (analyse botData row) = true →
  ∃ ev, processRow botData row = Some ev
    ∧ "bot_type" ∈ (set_props ev).*1
    ∧ "bot_identification_source" ∈ (set_props ev).*1.
Proof. apply processRow_bot. Qed.

End EmitExtra.

Lemma identity_escalation_witness :
  (∀ n, isGoodBot goodNamed = Some true → botName goodNamed = Some n →
        truthy n = true → effectiveDistinctId goodNamed freshRow = n)
  ∧ (isGoodBot goodNamed = Some false →
     effectiveDistinctId goodNamed freshRow = badBotId goodNamed freshRow)
  ∧ (isGoodBot goodNamed = None
     ∨ (isGoodBot goodNamed = Some true ∧ truthyO (botName goodNamed) = false) →
     effectiveDistinctId goodNamed freshRow = distinctId freshRow)
  ∧ (effectiveDistinctId goodNamed freshRow ≠ distinctId freshRow →
     plan goodNamed freshRow
     = Some (mkEvent "$identify" (filteredProps goodNamed freshRow)
               (Some (distinctId freshRow))
               (effectiveDistinctId goodNamed freshRow))).
Proof. apply (identity_escalation goodNamed freshRow). reflexivity. Defined.

Lemma bot_always_emits_witness :
  ∃ ev, @processRow sampleMatcher sampleIndex rowCrawler = Some ev
    ∧ "bot_type" ∈ (set_props ev).*1
    ∧ "bot_identification_source" ∈ (set_props ev).*1.
Proof.
  apply (@bot_always_emits sampleMatcher sampleIndex rowCrawler).
  vm_compute. reflexivity.
Defined.

Lemma exact_bot_in_datacenter_range_witness :
  let r := @checkBot sampleMatcher (loadAllBotData nestedFeed)
             (JStr "10.1.2.3") None in
  isBot r = true
  ∧ isGoodBot r = Some false
  ∧ botSource r = Some ("ShadowWhisperer" +:+ " + " +:+ "Hexydec-Datacenters")
  ∧ isDatacenter r = true
  ∧ datacenterName r = scrub (Some "AWS")
  ∧ (truthy "Scanner" = true → "Scanner" ≠ "Unknown" →
     botName r = scrub (Some "Scanner"))
  ∧ ("Scanner" = "Unknown" → "AWS" ≠ "Unknown" →
     botName r = scrub (Some "AWS")).
Proof.
  apply (@exact_bot_in_datacenter_range sampleMatcher
           (loadAllBotData nestedFeed) "10.1.2.3"
           (mkEntry "10.1.2.3" KBot "Scanner" "Malware" RBad "ShadowWhisperer" None)
           (mkEntry "10.0.0.0/8" KDatacenter "AWS" "Datacenter" RNeutral
              "Hexydec-Datacenters" None) None);
    reflexivity.
Defined.

(** ** Sentinel scrubbing on the indexes the loaders build *)

Section Scrub.
Context `{UserAgentMatcher}.
Implicit Types (bd : BotData) (ip : jsval) (feed : list FeedItem).






(** The categories that the loaders pass to [addEntry] make a feed
    [categorised]. *)
Lemma loaderCategories_categorised feed :
  Forall (λ it, ∃ c, f_category it = Some c ∧ c ∈ loaderCategories) feed →
  categorised feed = true.
Proof.
  intros Hall. unfold categorised. apply forallb_forall. intros it Hin.
  apply list_elem_of_In in Hin. rewrite Forall_forall in Hall.
  destruct (Hall it Hin) as (c & -> & Hc). unfold loaderCategories in Hc.
  repeat (apply elem_of_cons in Hc as [-> | Hc]; [reflexivity|]).
  by apply elem_of_nil in Hc.
Qed.


End Scrub.


(** ** The delivery pipeline *)

Section Pipeline.
Context `{UserAgentMatcher} `{Platform}.
Implicit Types (st : Loop) (r : Run) (row : Row) (events : list Event)
  (s : Stats).

Lemma retryLoop_calls {A} budget : ∀ (fn : nat → Outcome A) backoff eff,
  (calls eff ≤ calls (retryLoop budget fn backoff eff).2 ≤ calls eff + budget)%nat.
Proof.
  induction budget as [|n IH]; intros fn backoff eff.
  - simpl. lia.
  - destruct (retryable (fn (calls eff))) eqn:Hr.
    + destruct (retryLoop_retryable n fn backoff eff Hr) as (w & -> & _).
      specialize (IH fn (nextBackoff backoff)
                    (mkEffects (statsRetries eff + 1) (sleeps eff ++ [w])
                       (S (calls eff)))).
      cbn [calls] in IH. lia.
    + rewrite retryLoop_settles by done. cbn [snd calls]. lia.
Qed.

Lemma withErrors_0 s : withErrors 0 s = s.
Proof. destruct s. unfold withErrors. simpl. f_equal. lia. Qed.

Lemma withErrors_consistent n s :
  0 ≤ n → consistent s → consistent (withErrors n s).
Proof. unfold consistent, withErrors. simpl. intros Hn Hs. intuition lia. Qed.

Lemma length_concat_snoc {X} (l : list (list X)) (x : list X) :
  length (concat (l ++ [x])) = (length (concat l) + length x)%nat.
Proof. by rewrite concat_app, length_app, concat_cons, app_nil_r. Qed.

(** What a call of [sendBatch] changes. *)
Lemma sendBatch_spec dry events r :
  ∃ n, 0 ≤ n
    ∧ stats (sendBatch dry events r) = withErrors n (stats r)
    ∧ handed (sendBatch dry events r)
      = handed r ++ (if bool_decide (events = []) then [] else [events])
    ∧ reads (sendBatch dry events r) = reads r
    ∧ batchCount (sendBatch dry events r) = batchCount r
    ∧ (writes r ≤ writes (sendBatch dry events r) ≤ writes r + 10)%nat
    ∧ (dry = true ∨ events = [] →
       n = 0 ∧ writes (sendBatch dry events r) = writes r
       ∧ accepted (sendBatch dry events r) = accepted r
       ∧ retries (sendBatch dry events r) = retries r
       ∧ slept (sendBatch dry events r) = slept r)
    ∧ (dry = false →
       delivered (sendBatch dry events r) + n
       = delivered r + Z.of_nat (length events)).
Proof.
  destruct events as [|ev events].
  { exists 0. cbn [sendBatch]. rewrite withErrors_0, app_nil_r.
    split_and!; try done; try lia. }
  cbn [sendBatch]. rewrite bool_decide_eq_false_2 by done.
  destruct dry.
  { exists 0. cbn [stats handed reads batchCount writes accepted retries slept].
    rewrite withErrors_0. split_and!; try done; lia. }
  pose proof (retryLoop_calls MAX_RETRIES (postBatch (ev :: events)) 2000
                (mkEffects (retries r) (slept r) (writes r))) as Hcalls.
  unfold fetchWithRetry.
  destruct (retryLoop MAX_RETRIES _ _ _) as [completion eff].
  cbn [snd calls] in Hcalls. unfold MAX_RETRIES in Hcalls.
  destruct completion as [[]| |].
  - exists 0. cbn [stats handed reads batchCount writes accepted retries slept].
    rewrite withErrors_0. unfold delivered. cbn [accepted].
    rewrite length_concat_snoc.
    split_and!; try done; try lia. by intros [|].
  - exists (Z.of_nat (length (ev :: events))).
    cbn [stats handed reads batchCount writes accepted retries slept].
    unfold delivered. cbn [accepted].
    split_and!; try done; try lia. by intros [|].
  - exists (Z.of_nat (length (ev :: events))).
    cbn [stats handed reads batchCount writes accepted retries slept].
    unfold delivered. cbn [accepted].
    split_and!; try done; try lia. by intros [|].
Qed.

(** The retry counter and the outcome of a call of [sendBatch]. *)
Lemma sendBatch_retries dry events r :
  retries r ≤ retries (sendBatch dry events r) ≤ retries r + 10
  ∧ Z.of_nat (length (slept (sendBatch dry events r)))
    - Z.of_nat (length (slept r))
    = retries (sendBatch dry events r) - retries r
  ∧ ((stats (sendBatch dry events r) = stats r
      ∧ accepted (sendBatch dry events r) = accepted r
      ∧ (dry = true ∨ events = []))
     ∨ (stats (sendBatch dry events r) = stats r
        ∧ accepted (sendBatch dry events r) = accepted r ++ [events]
        ∧ dry = false ∧ events ≠ [])
     ∨ (stats (sendBatch dry events r)
        = withErrors (Z.of_nat (length events)) (stats r)
        ∧ accepted (sendBatch dry events r) = accepted r
        ∧ dry = false ∧ events ≠ [])).
Proof.
  destruct events as [|ev events].
  { cbn [sendBatch]. split_and!; try lia. left. split_and!; try done.
    by right. }
  cbn [sendBatch]. destruct dry.
  { cbn [stats accepted retries slept]. split_and!; try lia. left.
    split_and!; try done. by left. }
  pose proof (retryLoop_bounded 10 (postBatch (ev :: events)) 2000
                (mkEffects (retries r) (slept r) (writes r))) as Hb.
  unfold fetchWithRetry, MAX_RETRIES.
  destruct (retryLoop 10 _ _ _) as [completion eff].
  cbn [snd statsRetries sleeps] in Hb.
  destruct completion as [[]| |]; cbn [stats accepted retries slept];
    (split; [lia|]); (split; [lia|]).
  - right; left. by split_and!.
  - right; right. by split_and!.
  - right; right. by split_and!.
Qed.

(** X26: [sendBatch] posts nothing for an empty batch or in a dry run, and
    then changes no counter. In a live run a non-empty batch is either
    accepted, and then no counter of the statistics changes, or it is
    counted in full in [stats.errors]; so every event of the batch ends up
    either in an accepted batch or in the error count, after at most ten
    POSTs. Of the counters, only [stats.errors] and [stats.retries] can
    change: the retry counter grows by the number of waits, at most ten;
    the number of reads and of batches counted is unchanged. *)
Theorem sendBatch_accounts dry events r :
  let r' := sendBatch dry events r in
  (dry = true ∨ events = [] →
   writes r' = writes r ∧ accepted r' = accepted r ∧ stats r' = stats r
   ∧ retries r' = retries r ∧ slept r' = slept r)
  ∧ (dry = false →
     delivered r' + errors (stats r')
     = delivered r + errors (stats r) + Z.of_nat (length events))
  ∧ (writes r ≤ writes r' ≤ writes r + 10)%nat
  ∧ (∃ n, 0 ≤ n ≤ Z.of_nat (length events)
          ∧ stats r' = withErrors n (stats r))
  ∧ (dry = false → events ≠ [] →
     (stats r' = stats r ∧ accepted r' = accepted r ++ [events])
     ∨ (stats r' = withErrors (Z.of_nat (length events)) (stats r)
        ∧ accepted r' = accepted r))
  ∧ retries r ≤ retries r' ≤ retries r + 10
  ∧ Z.of_nat (length (slept r')) - Z.of_nat (length (slept r))
    = retries r' - retries r
  ∧ reads r' = reads r
  ∧ batchCount r' = batchCount r.
Proof.
  intros r'. subst r'.
  destruct (sendBatch_spec dry events r)
    as (n & Hn & Hs & _ & Hreads & Hcount & Hw & Hdry & Hlive).
  destruct (sendBatch_retries dry events r) as (Hret & Hslept & Hcases).
  split_and!; try done; try lia.
  - intros Hc. destruct (Hdry Hc) as (-> & ? & ? & ? & ?).
    by rewrite Hs, withErrors_0.
  - intros Hd. specialize (Hlive Hd). rewrite Hs. cbn [withErrors errors]. lia.
  - exists n. split; [|done]. split; [done|].
    destruct dry.
    + destruct Hdry as [-> _]; [by left|lia].
    + specialize (Hlive eq_refl). unfold delivered in *.
      assert (length (concat (accepted r))
              ≤ length (concat (accepted (sendBatch false events r))))%nat;
        [|lia].
      destruct events as [|ev events]; [done|]. cbn [sendBatch].
      destruct (fetchWithRetry _ _) as [[[]| |] eff]; cbn [accepted]; try done.
      rewrite length_concat_snoc. lia.
  - intros Hd Hev.
    destruct Hcases as [(_ & _ & [Hc|Hc])|[(? & ? & _)|(? & ? & _)]];
      [congruence|done|by left|by right].
Qed.

Lemma count_bounds (c : bool) : 0 ≤ count c ≤ 1.
Proof. destruct c; simpl; lia. Qed.

Lemma strictEq_sym (a b : jsval) : strictEq a b = strictEq b a.
Proof.
  destruct (strictEq a b) eqn:H1, (strictEq b a) eqn:H2; try done.
  - apply strictEq_true in H1. apply strictEq_false in H2. by destruct H2.
  - apply strictEq_false in H1. apply strictEq_true in H2. by destruct H1.
Qed.

Ltac by_cases :=
  repeat match goal with
         | b : bool |- _ =>
             match goal with
             | |- context [b] => destruct b
             end
         end;
  cbn [count andb negb orb implb] in *; try discriminate; try lia.

(** One run of the loop body keeps the counters consistent. The Boolean
    variables stand for the tests of the source. *)
Lemma consistent_step s
    (bot good ga ba named typed ti tl same tp dc hdc tn sameNp emitted : bool) :
  implb bot typed = true → implb bot emitted = true →
  consistent s →
  consistent
    {| processed := processed s + 1;
       modified := modified s + count emitted;
       goodBotsAlready := goodBotsAlready s + count (bot && good && ga);
       goodBotsNew := goodBotsNew s + count (bot && good && negb ga);
       badBotsAlready := badBotsAlready s + count (bot && negb good && ba);
       badBotsNew := badBotsNew s + count (bot && negb good && negb ba);
       botsWithNames := botsWithNames s + count (bot && named);
       totalBotsFound := totalBotsFound s + count bot;
       botsWithCategories := botsWithCategories s + count (bot && typed);
       initialIpsAlready := initialIpsAlready s + count ti;
       initialIpsNew := initialIpsNew s + count (tp && negb same && negb ti);
       latestIpsAlready := latestIpsAlready s + count (tl && same);
       latestIpsNew := latestIpsNew s + count (tp && negb same);
       datacentersAlready := datacentersAlready s + count (dc && hdc);
       datacentersNew := datacentersNew s + count (dc && negb hdc);
       latestNonProxyIpsAlready :=
         latestNonProxyIpsAlready s
         + count (negb bot && negb dc && tp && (tn && sameNp));
       latestNonProxyIpsNew :=
         latestNonProxyIpsNew s
         + count (negb bot && negb dc && tp && negb (tn && sameNp));
       errors := errors s |}.
Proof.
  intros Htyped Hemitted Hs. unfold consistent in *.
  cbn [processed modified goodBotsAlready goodBotsNew badBotsAlready
       badBotsNew botsWithNames totalBotsFound botsWithCategories
       initialIpsAlready initialIpsNew latestIpsAlready latestIpsNew
       datacentersAlready datacentersNew latestNonProxyIpsAlready
       latestNonProxyIpsNew errors].
  destruct Hs as (H1 & H2 & H3 & H4 & H5 & H6 & H7 & H8 & H9 & H10 & H11
                  & H12 & H13 & H14 & H15 & H16 & H17 & H18 & H19).
  repeat split; by_cases.
Qed.

Lemma trackStats_consistent botData row s :
  consistent s → consistent (trackStats (analyse botData row) row s).
Proof.
  intros Hs. unfold trackStats. cbv zeta.
  rewrite (strictEq_sym (processedIp row) (existingLatestIp row)).
  apply consistent_step; [| |done].
  - pose proof (analyse_wellFormed botData row) as Hwf. unfold wellFormed in Hwf.
    destruct (isBot (analyse botData row)); [|done].
    destruct Hwf as [(t & Hty & Ht) _]. rewrite Hty. cbn [truthyO implb].
    by rewrite Ht.
  - destruct (isBot (analyse botData row)) eqn:Hb; [|done].
    destruct (processRow_bot botData row Hb) as (ev & Hev & _).
    unfold processRow in Hev. rewrite Hev. cbn [implb].
    by rewrite bool_decide_eq_true_2.
Qed.

Lemma invariant_start dry : loopInvariant dry (mkLoop "" [] newRun).
Proof.
  unfold loopInvariant, BATCH_SIZE, consistent. cbn. repeat split; try done; lia.
Qed.

Lemma invariant_read dry st r :
  stats r = stats (run st) → writes r = writes (run st) →
  handed r = handed (run st) → accepted r = accepted (run st) →
  loopInvariant dry st →
  loopInvariant dry (mkLoop (lastPersonId st) (eventBatch st) r).
Proof.
  unfold loopInvariant, handedCount, delivered. cbn [eventBatch run].
  by intros -> -> -> ->.
Qed.

Lemma plan_modified analysis row s :
  modified (trackStats analysis row s)
  = modified s + Z.of_nat (length (option_list (plan analysis row))).
Proof.
  unfold trackStats. cbn [modified].
  destruct (plan analysis row); [by rewrite bool_decide_eq_true_2|].
  rewrite bool_decide_eq_false_2; [done|]. by intros [? ?].
Qed.

Lemma trackStats_errors analysis row s :
  errors (trackStats analysis row s) = errors s.
Proof. reflexivity. Qed.

Lemma rowStep_spec dry botData st row :
  let st' := rowStep dry botData st row in
  lastPersonId st' = personId row
  ∧ pending st' = pending st ++ option_list (processRow botData row)
  ∧ reads (run st') = reads (run st)
  ∧ batchCount (run st') = batchCount (run st)
  ∧ processed (stats (run st')) = processed (stats (run st)) + 1
  ∧ (loopInvariant dry st → loopInvariant dry st').
Proof.
  intros st'. subst st'. unfold rowStep. cbv zeta.
  set (analysis := analyse botData row).
  set (r1 := mkRun (trackStats analysis row (stats (run st))) _ _ _ _ _ _ _).
  set (batch := match plan analysis row with
                | Some ev => eventBatch st ++ [ev]
                | None => eventBatch st
                end).
  assert (Hbatch : batch = eventBatch st ++ option_list (processRow botData row)).
  { subst batch. unfold processRow. fold analysis.
    destruct (plan analysis row); [done|]. by rewrite app_nil_r. }
  destruct (Nat.leb_spec BATCH_SIZE (length batch)) as [Hfull|Hroom].
  - destruct (sendBatch_spec dry batch r1)
      as (n & Hn & Hs & Hh & Hr & Hb & Hw & Hdry & Hlive).
    assert (Hne : batch ≠ []).
    { intros Heq. rewrite Heq in Hfull. unfold BATCH_SIZE in Hfull.
      simpl in Hfull. lia. }
    rewrite bool_decide_eq_false_2 in Hh by done.
    cbn [lastPersonId run eventBatch]. unfold pending.
    cbn [run eventBatch]. rewrite Hh, Hr, Hb, Hs.
    split; [done|]. split.
    { subst r1. cbn [handed]. rewrite concat_app, concat_cons, !app_nil_r.
      by rewrite Hbatch, app_assoc. }
    split; [done|]. split; [done|]. split; [done|].
    intros (Hlt & Hall & Hmod & Hacc & Hdr & Hwr & Hcons).
    assert (Hlen : length batch = BATCH_SIZE).
    { rewrite Hbatch, length_app in *.
      destruct (processRow botData row); simpl in *; lia. }
    unfold loopInvariant, handedCount. cbn [run eventBatch]. rewrite Hh, Hs.
    split; [unfold BATCH_SIZE; simpl; lia|].
    split; [subst r1; cbn [handed]; apply Forall_app; split;
            [done|by constructor]|].
    assert (Hmod' : modified (stats r1)
                    = handedCount (run st) + Z.of_nat (length batch)).
    { subst r1. cbn [stats]. rewrite plan_modified, Hmod, Hbatch, length_app.
      unfold processRow. fold analysis. lia. }
    split.
    { cbn [withErrors modified]. rewrite length_concat_snoc.
      subst r1. cbn [handed stats length] in *. unfold handedCount in Hmod'.
      lia. }
    split.
    { intros Hd. specialize (Hlive Hd). specialize (Hacc Hd).
      cbn [withErrors errors]. rewrite length_concat_snoc.
      change (errors (stats r1))
        with (errors (trackStats analysis row (stats (run st)))).
      rewrite trackStats_errors.
      change (handed r1) with (handed (run st)).
      change (delivered r1) with (delivered (run st)) in Hlive.
      unfold handedCount in *. lia. }
    split.
    { intros Hd. destruct (Hdr Hd) as (Hw0 & He0 & Ha0).
      destruct (Hdry (or_introl Hd)) as (-> & Hw1 & Ha1 & _).
      rewrite Hw1, Ha1, withErrors_0.
      change (errors (stats r1))
        with (errors (trackStats analysis row (stats (run st)))).
      by rewrite trackStats_errors. }
    split.
    { subst r1. cbn [handed writes] in *. rewrite length_app. simpl. lia. }
    apply withErrors_consistent; [done|]. subst r1. cbn [stats].
    by apply trackStats_consistent.
  - cbn [lastPersonId run eventBatch]. unfold pending. cbn [run eventBatch].
    subst r1. cbn [handed reads batchCount stats].
    split; [done|]. split; [by rewrite Hbatch, app_assoc|].
    split; [done|]. split; [done|]. split; [done|].
    intros (Hlt & Hall & Hmod & Hacc & Hdr & Hwr & Hcons).
    unfold loopInvariant, handedCount, delivered.
    cbn [run eventBatch handed stats accepted writes].
    split; [done|]. split; [done|].
    split.
    { rewrite plan_modified, Hmod, Hbatch, length_app.
      unfold processRow, handedCount. fold analysis. lia. }
    split; [done|]. split; [done|]. split; [done|].
    by apply trackStats_consistent.
Qed.

Lemma cursorAfter_cons cursor row rows :
  cursorAfter cursor (row :: rows) = cursorAfter (personId row) rows.
Proof.
  unfold cursorAfter. rewrite last_cons. by destruct (last rows).
Qed.

(** What the rows of a page do to the state of the loop. *)
Lemma page_spec dry botData rows : ∀ st,
  let st' := foldl (rowStep dry botData) st rows in
  lastPersonId st' = cursorAfter (lastPersonId st) rows
  ∧ pending st' = pending st ++ omap (processRow botData) rows
  ∧ reads (run st') = reads (run st)
  ∧ batchCount (run st') = batchCount (run st)
  ∧ processed (stats (run st'))
    = processed (stats (run st)) + Z.of_nat (length rows)
  ∧ (loopInvariant dry st → loopInvariant dry st').
Proof.
  induction rows as [|row rows IH]; intros st st'; subst st'.
  - cbn [foldl]. unfold cursorAfter. cbn [last omap length].
    rewrite app_nil_r. split_and!; try done. simpl. lia.
  - cbn [foldl].
    destruct (rowStep_spec dry botData st row)
      as (Hc & Hp & Hr & Hb & Hn & Hi).
    destruct (IH (rowStep dry botData st row))
      as (Hc' & Hp' & Hr' & Hb' & Hn' & Hi').
    rewrite Hc', Hp', Hr', Hb', Hn', Hc, Hp, Hr, Hb, Hn, cursorAfter_cons.
    split; [done|]. split.
    { rewrite <- app_assoc. f_equal. set (f := processRow botData).
      simpl. by destruct (f row). }
    split; [done|]. split; [done|]. split; [simpl length; lia|]. auto.
Qed.

Lemma fetchHogQL_frame cursor r :
  stats (fetchHogQL cursor r).2 = stats r
  ∧ writes (fetchHogQL cursor r).2 = writes r
  ∧ handed (fetchHogQL cursor r).2 = handed r
  ∧ accepted (fetchHogQL cursor r).2 = accepted r
  ∧ batchCount (fetchHogQL cursor r).2 = batchCount r.
Proof.
  unfold fetchHogQL. by destruct (fetchWithRetry _ _) as [completion eff].
Qed.

(** One turn of the [while] loop. *)
Lemma pages_S fuel dry botData st :
  pages (S fuel) dry botData st
  = match fetchHogQL (lastPersonId st)
            (mkRun (stats (run st)) (retries (run st)) (slept (run st))
               (reads (run st)) (writes (run st)) (S (batchCount (run st)))
               (handed (run st)) (accepted (run st))) with
    | (Some (row :: rows), r) =>
        pages fuel dry botData
          (foldl (rowStep dry botData)
             (mkLoop (lastPersonId st) (eventBatch st) r) (row :: rows))
    | (_, r) => Some (mkLoop (lastPersonId st) (eventBatch st) r)
    end.
Proof.
  cbn [pages]. destruct (fetchHogQL _ _) as [[[|row rows]|] r]; reflexivity.
Qed.

Lemma pages_invariant dry botData fuel : ∀ st st',
  pages fuel dry botData st = Some st' →
  loopInvariant dry st → loopInvariant dry st'.
Proof.
  induction fuel as [|fuel IH]; intros st st' Hp Hinv; [discriminate Hp|].
  rewrite pages_S in Hp.
  set (r1 := mkRun _ _ _ _ _ _ _ _) in Hp.
  pose proof (fetchHogQL_frame (lastPersonId st) r1) as (Hs & Hw & Hh & Ha & _).
  destruct (fetchHogQL (lastPersonId st) r1) as [data r2].
  cbn [snd] in *.
  assert (Hinv2 : loopInvariant dry (mkLoop (lastPersonId st) (eventBatch st) r2)).
  { apply invariant_read; assumption. }
  destruct data as [[|row rows]|].
  - injection Hp as <-. exact Hinv2.
  - apply IH in Hp; [exact Hp|].
    destruct (page_spec dry botData (row :: rows)
                (mkLoop (lastPersonId st) (eventBatch st) r2))
      as (_ & _ & _ & _ & _ & Hpage).
    exact (Hpage Hinv2).
  - injection Hp as <-. exact Hinv2.
Qed.

Lemma sendBatch_concat dry events r :
  concat (handed (sendBatch dry events r)) = concat (handed r) ++ events.
Proof.
  destruct (sendBatch_spec dry events r) as (_ & _ & _ & -> & _).
  case_bool_decide as He.
  - by rewrite He, !app_nil_r.
  - by rewrite concat_app, concat_cons, !app_nil_r.
Qed.

(** What holds of a run that has ended. *)
Lemma processPersons_invariant fuel dry botData r :
  processPersons fuel dry botData = Some r →
  ∃ st, loopInvariant dry st
    ∧ r = sendBatch dry (eventBatch st) (run st).
Proof.
  unfold processPersons. intros Hr.
  destruct (pages fuel dry botData (mkLoop "" [] newRun)) as [st|] eqn:Hp;
    [|done].
  injection Hr as <-. exists st. split; [|done].
  eapply pages_invariant; [done|]. apply invariant_start.
Qed.

Lemma fetchHogQL_resolved cursor r data :
  queryPersons cursor (reads r) = Resolved data →
  fetchHogQL cursor r
  = (data, mkRun (stats r) (retries r) (slept r) (S (reads r)) (writes r)
             (batchCount r) (handed r) (accepted r)).
Proof.
  intros Hq. unfold fetchHogQL, fetchWithRetry, MAX_RETRIES.
  by rewrite (retryLoop_resolved 9 _ _ _ data).
Qed.

Lemma fetchHogQL_ends cursor r :
  retryable (queryPersons cursor (reads r)) = false →
  noRows (queryPersons cursor (reads r)) = true →
  ∃ data, (data = None ∨ data = Some [])
    ∧ fetchHogQL cursor r
      = (data, mkRun (stats r) (retries r) (slept r) (S (reads r)) (writes r)
                 (batchCount r) (handed r) (accepted r)).
Proof.
  intros Hr Hn. unfold fetchHogQL, fetchWithRetry, MAX_RETRIES.
  rewrite (retryLoop_settles 9) by done. cbn [calls].
  destruct (queryPersons cursor (reads r)) as [[[|row rows]|]|response];
    cbn [settle]; try done; eauto.
Qed.

Lemma pages_serves dry botData ps : ∀ st,
  serves (lastPersonId st) (reads (run st)) ps →
  ∃ st', (∀ fuel, (S (length ps) ≤ fuel)%nat →
                  pages fuel dry botData st = Some st')
    ∧ batchCount (run st') = (batchCount (run st) + S (length ps))%nat
    ∧ reads (run st') = (reads (run st) + S (length ps))%nat
    ∧ processed (stats (run st'))
      = processed (stats (run st)) + Z.of_nat (length (concat ps))
    ∧ pending st' = pending st ++ omap (processRow botData) (concat ps).
Proof.
  induction ps as [|p ps IH]; intros st Hserves.
  - destruct Hserves as [Hr Hn].
    set (r1 := mkRun (stats (run st)) (retries (run st)) (slept (run st))
                 (reads (run st)) (writes (run st)) (S (batchCount (run st)))
                 (handed (run st)) (accepted (run st))).
    destruct (fetchHogQL_ends (lastPersonId st) r1 Hr Hn) as (data & Hdata & Hf).
    eexists. split; [|split; [|split; [|split]]].
    + intros [|fuel] Hfuel; [simpl in Hfuel; lia|]. rewrite pages_S. fold r1.
      rewrite Hf. by destruct Hdata as [-> | ->].
    + cbn [run batchCount r1]. simpl. lia.
    + cbn [run reads r1]. simpl. lia.
    + cbn [run stats r1]. simpl. lia.
    + unfold pending. cbn [run handed eventBatch r1]. simpl.
      by rewrite app_nil_r.
  - destruct Hserves as (Hne & Hq & Hrest).
    set (r1 := mkRun (stats (run st)) (retries (run st)) (slept (run st))
                 (reads (run st)) (writes (run st)) (S (batchCount (run st)))
                 (handed (run st)) (accepted (run st))).
    pose proof (fetchHogQL_resolved (lastPersonId st) r1 (Some p) Hq) as Hf.
    set (r2 := mkRun _ _ _ _ _ _ _ _) in Hf.
    set (st1 := foldl (rowStep dry botData)
                  (mkLoop (lastPersonId st) (eventBatch st) r2) p).
    destruct (page_spec dry botData p
                (mkLoop (lastPersonId st) (eventBatch st) r2))
      as (Hc & Hp & Hr & Hb & Hn & _).
    fold st1 in Hc, Hp, Hr, Hb, Hn.
    cbn [lastPersonId run reads batchCount stats r2 r1] in Hc, Hr, Hb, Hn.
    destruct (IH st1) as (st' & Hfuel & Hb' & Hr' & Hn' & Hp').
    { by rewrite Hc, Hr. }
    exists st'. split; [|split; [|split; [|split]]].
    + intros [|fuel] Hle; [simpl in Hle; lia|]. rewrite pages_S. fold r1.
      rewrite Hf. destruct p as [|row rows]; [done|]. fold st1.
      apply Hfuel. simpl in Hle. lia.
    + rewrite Hb', Hb. simpl. lia.
    + rewrite Hr', Hr. simpl. lia.
    + rewrite Hn', Hn, concat_cons, length_app. lia.
    + rewrite Hp', Hp, concat_cons, omap_app, app_assoc. done.
Qed.

(** X27: when the platform serves the pages of a listing one after the
    other and then ends it, the run ends after one query per page and one
    more, with every person counted and, in the batches handed over, the
    events of all persons in the order of the listing; more fuel changes
    nothing. *)
Theorem processPersons_reads_all dry botData ps :
  serves "" 0 ps →
  ∃ r, (∀ fuel, (S (length ps) ≤ fuel)%nat →
                processPersons fuel dry botData = Some r)
    ∧ batchCount r = S (length ps)
    ∧ reads r = S (length ps)
    ∧ processed (stats r) = Z.of_nat (length (concat ps))
    ∧ concat (handed r) = omap (processRow botData) (concat ps).
Proof.
  intros Hserves.
  destruct (pages_serves dry botData ps (mkLoop "" [] newRun) Hserves)
    as (st & Hfuel & Hb & Hr & Hn & Hp).
  destruct (sendBatch_spec dry (eventBatch st) (run st))
    as (n & _ & Hs & _ & Hr' & Hb' & _).
  exists (sendBatch dry (eventBatch st) (run st)).
  split; [|split; [|split; [|split]]].
  - intros fuel Hle. unfold processPersons. by rewrite (Hfuel fuel Hle).
  - by rewrite Hb', Hb.
  - by rewrite Hr', Hr.
  - rewrite Hs. cbn [withErrors processed]. rewrite Hn. simpl. lia.
  - rewrite sendBatch_concat. apply Hp.
Qed.

(** X28: in a run that has ended, every batch handed to [sendBatch] but
    the last has exactly [BATCH_SIZE] events, and the last has at least
    one and at most that many. *)
Theorem batches_full_but_last fuel dry botData r :
  processPersons fuel dry botData = Some r →
  Forall (λ b, (0 < length b ≤ BATCH_SIZE)%nat) (handed r)
  ∧ Forall (λ b, length b = BATCH_SIZE)
      (take (length (handed r) - 1) (handed r)).
Proof.
  intros (st & (Hlt & Hall & _) & ->)%processPersons_invariant.
  destruct (sendBatch_spec dry (eventBatch st) (run st))
    as (_ & _ & _ & Hh & _).
  rewrite Hh. clear Hh.
  assert (Hsome : Forall (λ b, (0 < length b ≤ BATCH_SIZE)%nat)
                    (handed (run st))).
  { eapply Forall_impl; [exact Hall|]. intros b ->. unfold BATCH_SIZE. lia. }
  case_bool_decide as He.
  - rewrite app_nil_r. split; [done|]. by apply Forall_take.
  - split.
    + apply Forall_app. split; [done|]. constructor; [|constructor].
      destruct (eventBatch st); [done|]. simpl in *. lia.
    + rewrite length_app. cbn [length].
      replace (length (handed (run st)) + 1 - 1)%nat
        with (length (handed (run st))) by lia.
      by rewrite take_app_length.
Qed.

(** X29: in a run that has ended, the persons counted as modified are the
    events handed to [sendBatch]; in a live run each of them was accepted
    or is counted as an error, with at most ten POSTs per batch; in a dry
    run nothing was posted and no error counted. *)
Theorem processPersons_accounts fuel dry botData r :
  processPersons fuel dry botData = Some r →
  modified (stats r) = handedCount r
  ∧ (dry = false → delivered r + errors (stats r) = modified (stats r))
  ∧ (dry = true → writes r = O ∧ errors (stats r) = 0 ∧ accepted r = [])
  ∧ (writes r ≤ 10 * length (handed r))%nat.
Proof.
  intros (st & (_ & _ & Hmod & Hacc & Hdr & Hwr & _) & ->)%processPersons_invariant.
  destruct (sendBatch_spec dry (eventBatch st) (run st))
    as (n & Hn & Hs & Hh & _ & _ & Hw & Hdry & Hlive).
  assert (Hcount : handedCount (sendBatch dry (eventBatch st) (run st))
                   = handedCount (run st) + Z.of_nat (length (eventBatch st))).
  { unfold handedCount. rewrite sendBatch_concat, length_app. lia. }
  rewrite Hcount, Hs. cbn [withErrors modified errors].
  split; [done|]. split; [|split].
  - intros Hd. specialize (Hlive Hd). specialize (Hacc Hd). lia.
  - intros Hd. destruct (Hdr Hd) as (Hw0 & He0 & Ha0).
    destruct (Hdry (or_introl Hd)) as (-> & -> & -> & _).
    repeat split; try done. lia.
  - rewrite Hh, length_app. case_bool_decide as He.
    + destruct (Hdry (or_intror He)) as (_ & -> & _). simpl. lia.
    + simpl. lia.
Qed.

(** X30: in a run that has ended the counters agree with one another: the
    bots found are the good and the bad ones, each of them has a category
    and was modified, no more persons are modified than processed, and the
    address counters never exceed what they are counted from. *)
Theorem processPersons_stats fuel dry botData r :
  processPersons fuel dry botData = Some r → consistent (stats r).
Proof.
  intros (st & (_ & _ & _ & _ & _ & _ & Hcons) & ->)%processPersons_invariant.
  destruct (sendBatch_spec dry (eventBatch st) (run st)) as (n & Hn & -> & _).
  by apply withErrors_consistent.
Qed.

End Pipeline.

Lemma processPersons_reads_all_witness :
  ∃ r, (∀ fuel, (S (length [[rowCrawler; rowNoInitial]]) ≤ fuel)%nat →
                @processPersons sampleMatcher twoPersons fuel false sampleIndex
                = Some r)
    ∧ batchCount r = S (length [[rowCrawler; rowNoInitial]])
    ∧ reads r = S (length [[rowCrawler; rowNoInitial]])
    ∧ processed (stats r)
      = Z.of_nat (length (concat [[rowCrawler; rowNoInitial]]))
    ∧ concat (handed r)
      = omap (@processRow sampleMatcher sampleIndex)
          (concat [[rowCrawler; rowNoInitial]]).
Proof.
  apply (@processPersons_reads_all sampleMatcher twoPersons false sampleIndex
           [[rowCrawler; rowNoInitial]]).
  simpl. repeat split; try reflexivity. discriminate.
Defined.

Lemma batches_full_but_last_witness :
  Forall (λ b, (0 < length b ≤ BATCH_SIZE)%nat) (handed sampleRun)
  ∧ Forall (λ b, length b = BATCH_SIZE)
      (take (length (handed sampleRun) - 1) (handed sampleRun)).
Proof.
  apply (@batches_full_but_last sampleMatcher twoPersons 2 false sampleIndex
           sampleRun).
  vm_compute. reflexivity.
Defined.

Lemma processPersons_accounts_witness :
  modified (stats rejectedRun) = handedCount rejectedRun
  ∧ (false = false →
     delivered rejectedRun + errors (stats rejectedRun)
     = modified (stats rejectedRun))
  ∧ (false = true →
     writes rejectedRun = O ∧ errors (stats rejectedRun) = 0
     ∧ accepted rejectedRun = [])
  ∧ (writes rejectedRun ≤ 10 * length (handed rejectedRun))%nat.
Proof.
  apply (@processPersons_accounts sampleMatcher rejecting 2 false sampleIndex
           rejectedRun).
  vm_compute. reflexivity.
Defined.

Lemma processPersons_stats_witness : consistent (stats sampleRun).
Proof.
  apply (@processPersons_stats sampleMatcher twoPersons 2 false sampleIndex
           sampleRun).
  vm_compute. reflexivity.
Defined.
